(** * Verification model of the chat orchestration of [app/chat.py]

    Shallow embedding of the streaming tool-calling loop
    ([call_openai_streaming], [handle_openai_streaming_response]), the
    gateway to the Supabase edge functions ([call_supabase_edge]), the
    message store writer ([save_message]) and the response formatter
    ([enhance_response_formatting]); then the session layer of
    [app/chat.py] and the session routes of [app/routes/chat.py]
    (title generation, session creation with its rate limit, the
    sessions cache, listing, reading and deleting sessions) and the
    application's route table ([main.py]). *)

From Stdlib Require Import String Ascii List Bool Arith Lia ZArith QArith Sorted Permutation.
Import ListNotations.
Close Scope Q_scope.
Set Warnings "-register-all".
Open Scope list_scope.

(* ================================================================= *)
(** ** Characters and Python string helpers                          *)
(* ================================================================= *)

Definition nl : ascii := Ascii.ascii_of_nat 10.

(** The double-quote character. *)
Definition dq : ascii := Ascii.ascii_of_nat 34.

Definition str (s : string) : list ascii := list_ascii_of_string s.
Definition unstr (l : list ascii) : string := string_of_list_ascii l.

(** Python's [str.isspace] on ASCII: space, \t \n \v \f \r and the
    separators \x1c .. \x1f. *)
Definition is_ws (c : ascii) : bool :=
  let n := nat_of_ascii c in
  (n =? 32) || ((9 <=? n) && (n <=? 13)) || ((28 <=? n) && (n <=? 31)).

Fixpoint lstrip (s : list ascii) : list ascii :=
  match s with
  | [] => []
  | c :: s' => if is_ws c then lstrip s' else s
  end.

Definition rstrip (s : list ascii) : list ascii := rev (lstrip (rev s)).

(** [str.strip()] *)
Definition strip (s : list ascii) : list ascii := rstrip (lstrip s).

Fixpoint starts_with (p s : list ascii) : bool :=
  match p, s with
  | [], _ => true
  | a :: p', b :: s' => Ascii.eqb a b && starts_with p' s'
  | _ :: _, [] => false
  end.

(** [p in s] *)
Fixpoint contains (p s : list ascii) : bool :=
  starts_with p s || match s with [] => false | _ :: s' => contains p s' end.

(** [s.split('\n')]: always at least one piece. *)
Fixpoint split_lines (s : list ascii) : list (list ascii) :=
  match s with
  | [] => [[]]
  | c :: s' =>
      if Ascii.eqb c nl then [] :: split_lines s'
      else match split_lines s' with
           | l :: ls => (c :: l) :: ls
           | [] => [[c]]
           end
  end.

(** ['\n'.join(ls)] *)
Fixpoint join_lines (ls : list (list ascii)) : list ascii :=
  match ls with
  | [] => []
  | [l] => l
  | l :: ls' => l ++ nl :: join_lines ls'
  end.

Fixpoint digits_of_nat_aux (fuel n : nat) (acc : list ascii) : list ascii :=
  match fuel with
  | 0 => acc
  | S f =>
      let acc' := Ascii.ascii_of_nat (48 + n mod 10) :: acc in
      if n <? 10 then acc' else digits_of_nat_aux f (n / 10) acc'
  end.

(** [str(n)] for an integer. *)
Definition show_Z (z : Z) : string :=
  match z with
  | Z.neg p => unstr ("-"%char :: digits_of_nat_aux (S (Pos.to_nat p)) (Pos.to_nat p) [])
  | _ => unstr (digits_of_nat_aux (S (Z.to_nat z)) (Z.to_nat z) [])
  end.

(* ================================================================= *)
(** ** JSON values, [json.loads] and [json.dumps]                     *)
(* ================================================================= *)

(** A decoded JSON document.  Numbers keep their source text; objects
    keep their members in order (as a Python dict does). *)
Inductive JValue : Type :=
| JNull
| JBool (b : bool)
| JNum (lexeme : string)
| JStr (s : string)
| JArr (xs : list JValue)
| JObj (kvs : list (string * JValue)).

Definition is_digit (c : ascii) : bool :=
  let n := nat_of_ascii c in (48 <=? n) && (n <=? 57).

Definition is_hex (c : ascii) : bool :=
  let n := nat_of_ascii c in
  is_digit c || ((65 <=? n) && (n <=? 70)) || ((97 <=? n) && (n <=? 102)).

(** JSON whitespace skipped by the decoder: space, \t, \n, \r. *)
Fixpoint skip_ws (s : list ascii) : list ascii :=
  match s with
  | c :: s' =>
      let n := nat_of_ascii c in
      if (n =? 32) || (n =? 9) || (n =? 10) || (n =? 13) then skip_ws s' else s
  | [] => []
  end.

Fixpoint take_digits (s : list ascii) : list ascii * list ascii :=
  match s with
  | c :: s' => if is_digit c then let (d, r) := take_digits s' in (c :: d, r) else ([], s)
  | [] => ([], [])
  end.

(** The number grammar [-?(0|[1-9]\d* )(\.\d+)?([eE][-+]?\d+)?];
    returns the lexeme and the rest. *)
Definition parse_number (s : list ascii) : option (list ascii * list ascii) :=
  let (sign, s1) := match s with
                    | "-"%char :: r => (["-"%char], r)
                    | _ => ([], s)
                    end in
  let int_part :=
    match s1 with
    | "0"%char :: r => Some (["0"%char], r)
    | c :: _ => if is_digit c then Some (take_digits s1) else None
    | [] => None
    end in
  match int_part with
  | None => None
  | Some (ip, s2) =>
      let (fp, s3) :=
        match s2 with
        | "."%char :: r =>
            match take_digits r with
            | ([], _) => ([], s2)
            | (d, r') => ("."%char :: d, r')
            end
        | _ => ([], s2)
        end in
      let (ep, s4) :=
        match s3 with
        | e :: r =>
            if Ascii.eqb e "e" || Ascii.eqb e "E" then
              let (sg, r1) := match r with
                              | "+"%char :: r1 => (["+"%char], r1)
                              | "-"%char :: r1 => (["-"%char], r1)
                              | _ => ([], r)
                              end in
              match take_digits r1 with
              | ([], _) => ([], s3)
              | (d, r2) => (e :: sg ++ d, r2)
              end
            else ([], s3)
        | [] => ([], s3)
        end in
      Some (sign ++ ip ++ fp ++ ep, s4)
  end.

(** String body after the opening quote.  Control characters are
    rejected ([strict=True]); the escapes of JSON are decoded, a
    [\uXXXX] escape is kept as its source text. *)
Fixpoint parse_string_body_fuel (fuel : nat) (s : list ascii)
  : option (list ascii * list ascii) :=
  match fuel with
  | 0 => None
  | S fuel' =>
  match s with
  | [] => None
  | c :: s' =>
      if Ascii.eqb c dq then Some ([], s')
      else if nat_of_ascii c <? 32 then None
      else if Ascii.eqb c "\"%char then
        match s' with
        | e :: s'' =>
            let dec :=
              if Ascii.eqb e dq then Some ([e], s'')
              else if Ascii.eqb e "\"%char then Some ([e], s'')
              else if Ascii.eqb e "/"%char then Some ([e], s'')
              else if Ascii.eqb e "b"%char then Some ([Ascii.ascii_of_nat 8], s'')
              else if Ascii.eqb e "f"%char then Some ([Ascii.ascii_of_nat 12], s'')
              else if Ascii.eqb e "n"%char then Some ([nl], s'')
              else if Ascii.eqb e "r"%char then Some ([Ascii.ascii_of_nat 13], s'')
              else if Ascii.eqb e "t"%char then Some ([Ascii.ascii_of_nat 9], s'')
              else if Ascii.eqb e "u"%char then
                match s'' with
                | h1 :: h2 :: h3 :: h4 :: r =>
                    if is_hex h1 && is_hex h2 && is_hex h3 && is_hex h4
                    then Some (["\"%char; e; h1; h2; h3; h4], r) else None
                | _ => None
                end
              else None in
            match dec with
            | None => None
            | Some (d, r) =>
                match parse_string_body_fuel fuel' r with
                | Some (b, r') => Some (d ++ b, r')
                | None => None
                end
            end
        | [] => None
        end
      else match parse_string_body_fuel fuel' s' with
           | Some (b, r) => Some (c :: b, r)
           | None => None
           end
  end
  end.

Definition parse_string_body (s : list ascii) : option (list ascii * list ascii) :=
  parse_string_body_fuel (length s) s.

(** Recursive descent for one JSON value (after leading whitespace);
    [fuel] bounds the nesting depth. *)
Fixpoint parse_value (fuel : nat) (s : list ascii) : option (JValue * list ascii) :=
  match fuel with
  | 0 => None
  | S f =>
      let parse_elems :=
        fix elems (g : nat) (s : list ascii) : option (list JValue * list ascii) :=
          match g with
          | 0 => None
          | S g' =>
              match parse_value f (skip_ws s) with
              | None => None
              | Some (v, r) =>
                  match skip_ws r with
                  | ","%char :: r' =>
                      match elems g' r' with
                      | Some (vs, r'') => Some (v :: vs, r'')
                      | None => None
                      end
                  | "]"%char :: r' => Some ([v], r')
                  | _ => None
                  end
              end
          end in
      let parse_members :=
        fix members (g : nat) (s : list ascii)
          : option (list (string * JValue) * list ascii) :=
          match g with
          | 0 => None
          | S g' =>
              match skip_ws s with
              | q :: r0 =>
                  if Ascii.eqb q dq then
                    match parse_string_body r0 with
                    | None => None
                    | Some (k, r1) =>
                        match skip_ws r1 with
                        | ":"%char :: r2 =>
                            match parse_value f (skip_ws r2) with
                            | None => None
                            | Some (v, r3) =>
                                match skip_ws r3 with
                                | ","%char :: r4 =>
                                    match members g' r4 with
                                    | Some (kvs, r5) => Some ((unstr k, v) :: kvs, r5)
                                    | None => None
                                    end
                                | "}"%char :: r4 => Some ([(unstr k, v)], r4)
                                | _ => None
                                end
                            end
                        | _ => None
                        end
                    end
                  else None
              | [] => None
              end
          end in
      match s with
      | "n"%char :: "u"%char :: "l"%char :: "l"%char :: r => Some (JNull, r)
      | "t"%char :: "r"%char :: "u"%char :: "e"%char :: r => Some (JBool true, r)
      | "f"%char :: "a"%char :: "l"%char :: "s"%char :: "e"%char :: r => Some (JBool false, r)
      | "N"%char :: "a"%char :: "N"%char :: r => Some (JNum "NaN", r)
      | "I"%char :: "n"%char :: "f"%char :: "i"%char :: "n"%char :: "i"%char :: "t"%char
          :: "y"%char :: r => Some (JNum "Infinity", r)
      | "-"%char :: "I"%char :: "n"%char :: "f"%char :: "i"%char :: "n"%char :: "i"%char
          :: "t"%char :: "y"%char :: r => Some (JNum "-Infinity", r)
      | c :: r =>
          if Ascii.eqb c dq then
            match parse_string_body r with
            | Some (b, r') => Some (JStr (unstr b), r')
            | None => None
            end
          else if Ascii.eqb c "["%char then
            match skip_ws r with
            | "]"%char :: r' => Some (JArr [], r')
            | _ => match parse_elems (length r) r with
                   | Some (vs, r') => Some (JArr vs, r')
                   | None => None
                   end
            end
          else if Ascii.eqb c "{"%char then
            match skip_ws r with
            | "}"%char :: r' => Some (JObj [], r')
            | _ => match parse_members (length r) r with
                   | Some (kvs, r') => Some (JObj kvs, r')
                   | None => None
                   end
            end
          else
            match parse_number s with
            | Some (lex, r') => Some (JNum (unstr lex), r')
            | None => None
            end
      | [] => None
      end
  end.

(** [json.loads(s)]: [inr v], or [inl msg] for a [JSONDecodeError]. *)
Definition json_loads (s : string) : string + JValue :=
  let l := str s in
  match parse_value (S (length l)) (skip_ws l) with
  | Some (v, r) => match skip_ws r with
                   | [] => inr v
                   | _ => inl "Extra data"%string
                   end
  | None => inl "Expecting value"%string
  end.

Example json_loads_obj :
  json_loads (unstr (map (fun c => if Ascii.eqb c "'"%char then dq else c)
                          (str "{'a': [1, 2.5e3, true], 'b': null}"))) =
  inr (JObj [("a", JArr [JNum "1"; JNum "2.5e3"; JBool true]); ("b", JNull)])%string.
Proof. reflexivity. Qed.

Example json_loads_open_brace : exists m, json_loads "{" = inl m.
Proof. eexists; reflexivity. Qed.

Definition hex_digit (n : nat) : ascii :=
  if n <? 10 then Ascii.ascii_of_nat (48 + n) else Ascii.ascii_of_nat (87 + n).

(** One character of a string literal as [json.dumps] writes it
    ([ensure_ascii=True]). *)
Definition json_escape_char (c : ascii) : list ascii :=
  let n := nat_of_ascii c in
  if n =? 34 then ["\"%char; dq]
  else if n =? 92 then ["\"%char; "\"%char]
  else if n =? 10 then ["\"%char; "n"%char]
  else if n =? 13 then ["\"%char; "r"%char]
  else if n =? 9 then ["\"%char; "t"%char]
  else if n =? 8 then ["\"%char; "b"%char]
  else if n =? 12 then ["\"%char; "f"%char]
  else if (32 <=? n) && (n <=? 126) then [c]
  else ["\"%char; "u"%char; "0"%char; "0"%char; hex_digit (n / 16); hex_digit (n mod 16)].

Definition json_quote (s : string) : list ascii :=
  dq :: flat_map json_escape_char (str s) ++ [dq].

Fixpoint intercalate (sep : list ascii) (xs : list (list ascii)) : list ascii :=
  match xs with
  | [] => []
  | [x] => x
  | x :: xs' => x ++ sep ++ intercalate sep xs'
  end.

(** [json.dumps(v)] with the default separators [", "] and [": "]. *)
Fixpoint dumps (v : JValue) : list ascii :=
  match v with
  | JNull => str "null"
  | JBool true => str "true"
  | JBool false => str "false"
  | JNum lex => str lex
  | JStr s => json_quote s
  | JArr xs => "["%char :: intercalate (str ", ") (map dumps xs) ++ ["]"%char]
  | JObj kvs =>
      "{"%char :: intercalate (str ", ")
                   (map (fun kv => json_quote (fst kv) ++ str ": " ++ dumps (snd kv)) kvs)
               ++ ["}"%char]
  end.

Definition json_dumps (v : JValue) : string := unstr (dumps v).

(** [dict.get(k)] on a JSON object (the last binding of a key wins). *)
Definition jget (k : string) (v : JValue) : option JValue :=
  match v with
  | JObj kvs =>
      fold_left (fun acc kv => if String.eqb (fst kv) k then Some (snd kv) else acc) kvs None
  | _ => None
  end.

(** Digits of a number lexeme before its exponent. *)
Fixpoint mantissa (l : list ascii) : list ascii :=
  match l with
  | [] => []
  | c :: l' => if Ascii.eqb c "e" || Ascii.eqb c "E" then [] else c :: mantissa l'
  end.

(** Python truthiness of a decoded JSON value. *)
Definition j_truthy (v : JValue) : bool :=
  match v with
  | JNull => false
  | JBool b => b
  | JNum lex =>
      let mant := mantissa (str lex) in
      existsb (fun c => is_digit c && negb (Ascii.eqb c "0")) mant
      || String.eqb lex "NaN" || String.eqb lex "Infinity" || String.eqb lex "-Infinity"
  | JStr s => negb (String.eqb s "")
  | JArr xs => negb (match xs with [] => true | _ => false end)
  | JObj kvs => negb (match kvs with [] => true | _ => false end)
  end.

(* ================================================================= *)
(** ** Exceptions, messages, events and the effect trace             *)
(* ================================================================= *)

(** The Python exceptions the modelled code raises or catches, with
    their [str(e)].  [ExcTimeout] is [requests.exceptions.Timeout], a
    subclass of [ExcRequest] ([requests.exceptions.RequestException]). *)
Inductive Exc : Type :=
| ExcTimeout (msg : string)
| ExcRequest (msg : string)
| ExcJSONDecode (msg : string)
| ExcType (msg : string)
| ExcOther (msg : string).

Definition exc_str (e : Exc) : string :=
  match e with
  | ExcTimeout m | ExcRequest m | ExcJSONDecode m | ExcType m | ExcOther m => m
  end.

(** An accumulated tool call:
    [{"id", "type", "function": {"name", "arguments"}}]. *)
Record ToolCall : Type := mkToolCall {
  tc_id : string;
  tc_type : string;
  tc_name : string;
  tc_args : string
}.

(** The message dicts appended to the conversation list. *)
Inductive Msg : Type :=
| MPlain (role content : string)
| MAssistantTools (content : string) (tool_calls : list ToolCall)
| MTool (tool_call_id content : string).

(** The events yielded to the caller. *)
Inductive Event : Type :=
| EvContent (s : string)
| EvToolCalls (s : string)
| EvToolExecution (s : string)
| EvFinalResponse (s : string)
| EvError (s : string).

Inductive HttpRequest : Type :=
| HttpGet (url : string) (query : option JValue)
| HttpPost (url : string) (body : JValue).

(** The outcome of one [requests.get]/[requests.post]: a response
    (status, text) or a raised exception. *)
Inductive NetOutcome : Type :=
| NetResponse (status : Z) (text : string)
| NetRaise (e : Exc).

(** Streams returned by [client.chat.completions.create(..., stream=True)].
    A delta carries tool-call fragments and/or a content fragment. *)
Record FunctionDelta : Type := mkFunctionDelta {
  fd_name : option string;
  fd_arguments : option string
}.

Record ToolCallDelta : Type := mkToolCallDelta {
  tcd_index : option nat;
  tcd_id : option string;
  tcd_type : option string;
  tcd_function : option FunctionDelta
}.

Record Delta : Type := mkDelta {
  d_tool_calls : list ToolCallDelta;
  d_content : option string
}.

(** A chunk has a list of choices; iterating the stream may raise. *)
Inductive StreamItem : Type :=
| SChunk (choices : list Delta)
| SRaise (e : Exc).

Inductive CreateOutcome : Type :=
| Created (stream : list StreamItem)
| CreateRaises (e : Exc).

(** The three [client.chat.completions.create] calls: the first round
    (with the tool catalog), the final round, the title. *)
Inductive CallKind : Type := CallFirst | CallFinal | CallTitle.

(** Observable effects, in order. *)
Inductive Eff : Type :=
| EYield (ev : Event)
| ESave (session role content : string) (stored : bool)
| ECreate (kind : CallKind) (msgs : list Msg)
| ERequest (req : HttpRequest)
| ETitle (session title : string) (stored : bool).

Record St : Type := mkSt {
  st_trace : list Eff;
  st_msgs : list Msg
}.

(** The environment: the configured edge-function base URL, the
    database, the model provider, the edge functions. *)
Record Env : Type := mkEnv {
  env_base_url : string;
  env_store_ok : Eff -> bool;
  env_history : list (string * string);
  env_date : string;
  env_year : string;
  env_model : CallKind -> list Msg -> CreateOutcome;
  env_title_model : option string;
  env_net : HttpRequest -> NetOutcome
}.

(** State and exception monad: an exception keeps the effects done
    before it. *)
Definition M (A : Type) : Type := St -> (Exc + A) * St.

Definition ret {A} (a : A) : M A := fun s => (inr a, s).

Definition bind {A B} (m : M A) (k : A -> M B) : M B :=
  fun s => match m s with
           | (inr a, s') => k a s'
           | (inl e, s') => (inl e, s')
           end.

Definition throw {A} (e : Exc) : M A := fun s => (inl e, s).

(** [try: m except: h] *)
Definition catch {A} (m : M A) (h : Exc -> M A) : M A :=
  fun s => match m s with
           | (inl e, s') => h e s'
           | r => r
           end.

Notation "x <- m ;; k" := (bind m (fun x => k)) (at level 61, m at next level, right associativity).
Notation "m >>= k" := (bind m k) (at level 58, left associativity).
Notation "m ;;; k" := (bind m (fun _ => k)) (at level 61, right associativity).

Definition tell (e : Eff) : M unit :=
  fun s => (inr tt, mkSt (st_trace s ++ [e]) (st_msgs s)).

Definition yield (ev : Event) : M unit := tell (EYield ev).

(** [messages.append(m)] on the conversation list. *)
Definition append_msg (m : Msg) : M unit :=
  fun s => (inr tt, mkSt (st_trace s) (st_msgs s ++ [m])).

Definition get_msgs : M (list Msg) := fun s => (inr (st_msgs s), s).

Fixpoint mapM_ {A} (f : A -> M unit) (xs : list A) : M unit :=
  match xs with
  | [] => ret tt
  | x :: xs' => f x ;;; mapM_ f xs'
  end.

(** [if not content or not content.strip(): content = "Empty message"] *)
Definition stored_content (content : string) : string :=
  if match strip (str content) with [] => true | _ => false end
  then "Empty message"%string else content.

Section Program.

Variable env : Env.

(** [save_message]: an empty or blank content is replaced by
    ["Empty message"]; a failing insert is printed and swallowed. *)
Definition save_message (session_id role content : string) : M unit :=
  let content' := stored_content content in
  let e := ESave session_id role content' true in
  tell (ESave session_id role content' (env_store_ok env e)).


Definition SUPABASE_FUNCTIONS : list (string * string) := [
  ("getOrdersOverTime", "get-orders-over-time");
  ("getOrdersByStatus", "get-orders-by-status");
  ("fetchLatestOkendoReviews", "okendo-review-query");
  ("getReviewsByRatingRange", "get-reviews-by-rating-range");
  ("getReviewsByKeyword", "get-reviews-by-keyword");
  ("getReviewsByDateRange", "get-reviews-by-date-range");
  ("getReviewSummaryByProductName", "get-review-summary-by-product-name");
  ("getSentimentSummary", "get-reviews-by-sentiment");
  ("getOrderDetails", "get-order-details");
  ("getTopProducts", "get-top-products");
  ("getLineItemAggregates", "get-line-item-aggregates");
  ("getDiscountUsage", "get-discount-usage");
  ("getOrdersWithDiscounts", "get-orders-with-discounts");
  ("getCustomers", "get-customers");
  ("getInactiveCustomers", "get-inactive-customers");
  ("getCustomerOrders", "get-customer-orders");
  ("getPostPurchaseInsights", "analyze-post-purchase-feedback");
  ("getCustomersStats", "get-customers-stats");
  ("getTopCustomersRepeatFrequency", "get-top-customers-repeat-frequency");
  ("orchestrator", "orchestrator");
  ("getEventCounts", "get-event-counts");
  ("getEmailEventRatios", "get-email-click-ratio");
  ("getTopClickedUrls", "get-top-clicked-urls");
  ("getCampaignReasoning", "campaign_reasoning");
  ("getEventLogSlice", "get-event-log-slice")]%string.

Definition HTTP_METHODS : list (string * string) := [
  ("getOrdersOverTime", "POST");
  ("getOrdersByStatus", "POST");
  ("fetchLatestOkendoReviews", "GET");
  ("getReviewsByRatingRange", "GET");
  ("getReviewsByKeyword", "GET");
  ("getReviewsByDateRange", "POST");
  ("getReviewSummaryByProductName", "GET");
  ("getSentimentSummary", "POST");
  ("getOrderDetails", "POST");
  ("getTopProducts", "GET");
  ("getLineItemAggregates", "POST");
  ("getDiscountUsage", "POST");
  ("getOrdersWithDiscounts", "GET");
  ("getCustomers", "GET");
  ("getInactiveCustomers", "GET");
  ("getCustomerOrders", "GET");
  ("getPostPurchaseInsights", "POST");
  ("getCustomersStats", "POST");
  ("getTopCustomersRepeatFrequency", "POST");
  ("orchestrator", "POST");
  ("getEventCounts", "POST");
  ("getEmailEventRatios", "POST");
  ("getTopClickedUrls", "POST");
  ("getCampaignReasoning", "POST");
  ("getEventLogSlice", "POST")]%string.

(** [d.get(k, default)] on a string-keyed dict literal. *)
Fixpoint dict_get (d : list (string * string)) (k default : string) : string :=
  match d with
  | [] => default
  | (k', v) :: d' => if String.eqb k' k then v else dict_get d' k default
  end.

(** [urllib.parse.urlencode(args)] for a truthy [args]: a mapping is
    encoded, anything else JSON can produce raises [TypeError]. *)
Definition urlencode (args : JValue) : M JValue :=
  match args with
  | JObj _ => ret args
  | _ => throw (ExcType "not a valid non-string sequence or mapping object")
  end.

(** [requests.get] / [requests.post] with [timeout=30]. *)
Definition http (req : HttpRequest) : M (Z * string) :=
  tell (ERequest req) ;;;
  match env_net env req with
  | NetResponse status text => ret (status, text)
  | NetRaise e => throw e
  end.

Definition lift_json (r : string + JValue) : M JValue :=
  match r with
  | inr v => ret v
  | inl m => throw (ExcJSONDecode m)
  end.

(** The body of the [try] block of [call_supabase_edge]. *)
Definition call_supabase_edge_body (fn_name : string) (args : JValue) : M JValue :=
  let mapped_name := dict_get SUPABASE_FUNCTIONS fn_name fn_name in
  let url := (env_base_url env ++ "/" ++ mapped_name)%string in
  let http_method := dict_get HTTP_METHODS fn_name "POST"%string in
  resp <- (if String.eqb http_method "GET"%string then
             (if j_truthy args then q <- urlencode args ;; ret (Some q) else ret None) >>=
             (fun q => http (HttpGet url q))
           else http (HttpPost url args)) ;;
  let (status, text) := resp in
  if Z.eqb status 200 then
    catch (lift_json (json_loads text))
      (fun e => match e with
                | ExcJSONDecode _ =>
                    ret (JObj [("data"%string, JStr text);
                               ("warning"%string, JStr "Response was not valid JSON")])
                | _ => throw e
                end)
  else
    ret (JObj [("error"%string, JStr ("Supabase function returned status " ++ show_Z status
                                         ++ ": " ++ text)%string);
               ("status_code"%string, JNum (show_Z status))]).

(** [call_supabase_edge]: the handlers for [Timeout], then
    [RequestException], then any [Exception]. *)
Definition call_supabase_edge (fn_name : string) (args : JValue) : M JValue :=
  catch (call_supabase_edge_body fn_name args)
    (fun e => match e with
              | ExcTimeout _ =>
                  ret (JObj [("error", JStr "Request to Supabase function timed out")])
              | ExcRequest m =>
                  ret (JObj [("error", JStr ("Request to Supabase function failed: " ++ m))])
              | _ =>
                  ret (JObj [("error", JStr ("Unexpected error calling Supabase function: "
                                             ++ exc_str e))])
              end)%string.

(* ================================================================= *)
(** ** Response formatter: [enhance_response_formatting]             *)
(* ================================================================= *)

(** The lines dropped by the cleaning loop. *)
Definition is_removed (line : list ascii) : bool :=
  starts_with (str "> [debug]") (strip line) || starts_with (str "[debug]") (strip line)
  || (contains (str "Talked to") line && contains (str "supabase.co") line).

(** [re.sub(pattern, repl, s)]: scan left to right, at each position
    try the pattern; on a match emit the replacement and resume after
    the match, otherwise copy one character.  A matcher returns the
    replacement and the text after the match. *)
Fixpoint sub_fuel (fuel : nat) (m : list ascii -> option (list ascii * list ascii))
  (s : list ascii) : list ascii :=
  match fuel with
  | 0 => s
  | S f =>
      match s with
      | [] => []
      | c :: s' =>
          match m s with
          | Some (r, rest) => r ++ sub_fuel f m rest
          | None => c :: sub_fuel f m s'
          end
      end
  end.

Definition re_sub (m : list ascii -> option (list ascii * list ascii)) (s : list ascii)
  : list ascii := sub_fuel (S (length s)) m s.

(** The text up to the first newline, and the text from that newline. *)
Fixpoint line_split (s : list ascii) : list ascii * list ascii :=
  match s with
  | [] => ([], [])
  | c :: s' => if Ascii.eqb c nl then ([], s)
               else let (l, r) := line_split s' in (c :: l, r)
  end.

(** The patterns [\n(P[^\n]+)\n] with a literal prefix [P]: the group is
    the whole line after the newline; it starts with [P] and has at
    least one more character. *)
Definition match_line (p : list ascii) (repl : list ascii -> list ascii)
  (s : list ascii) : option (list ascii * list ascii) :=
  match s with
  | c :: t =>
      if Ascii.eqb c nl then
        let (g, r) := line_split t in
        match r with
        | _ :: r' => if starts_with p g && (S (length p) <=? length g)
                     then Some (repl g, r') else None
        | [] => None
        end
      else None
  | [] => None
  end.

(** [\n(#{2,3}[^\n]+)\n] -> [\n\n\1\n\n]: a line of at least three
    characters starting with [##] ([#{2,3}] backtracks to two). *)
Definition m_header : list ascii -> option (list ascii * list ascii) :=
  match_line (str "##") (fun g => nl :: nl :: g ++ [nl; nl]).

(** [\n(- [^\n]+)\n] -> [\n\1\n] *)
Definition m_bullet : list ascii -> option (list ascii * list ascii) :=
  match_line (str "- ") (fun g => nl :: g ++ [nl]).

(** [\n(:arrow_right: [^\n]+)\n] -> [\n\n\1\n\n] *)
Definition m_arrow : list ascii -> option (list ascii * list ascii) :=
  match_line (str ":arrow_right: ") (fun g => nl :: nl :: g ++ [nl; nl]).

(** [\n(L)\n] -> [\n\n\1\n\n] for a literal [L]. *)
Definition m_section (lit : list ascii) (s : list ascii)
  : option (list ascii * list ascii) :=
  match s with
  | c :: t =>
      if Ascii.eqb c nl && starts_with (lit ++ [nl]) t
      then Some (nl :: nl :: lit ++ [nl; nl], skipn (S (length lit)) t)
      else None
  | [] => None
  end.

(** The maximal run of characters other than [:], and the rest. *)
Fixpoint colon_split (s : list ascii) : list ascii * list ascii :=
  match s with
  | [] => ([], [])
  | c :: s' => if Ascii.eqb c ":" then ([], s)
               else let (x, r) := colon_split s' in (c :: x, r)
  end.

(** [\n(- :[^:]+: [^\n]+)\n] -> [\n\1\n\n].  [[^:]+] is greedy and may
    cross newlines; it must stop at the first [:], which must start
    [": "]; [[^\n]+] then runs to the next newline, which must exist. *)
Definition m_emoji (s : list ascii) : option (list ascii * list ascii) :=
  match s with
  | c :: "-"%char :: " "%char :: ":"%char :: t =>
      if Ascii.eqb c nl then
        match colon_split t with
        | ((_ :: _) as x, ":"%char :: " "%char :: u) =>
            match line_split u with
            | ((_ :: _) as y, _ :: r) =>
                Some (nl :: str "- :" ++ x ++ str ": " ++ y ++ [nl; nl], r)
            | _ => None
            end
        | _ => None
        end
      else None
  | _ => None
  end.

Definition emit_newlines (k : nat) : list ascii := repeat nl (if 3 <=? k then 2 else k).

(** [re.sub(r'\n{3,}', '\n\n', s)]: every maximal run of [k >= 3]
    newlines becomes two; [k] counts the newlines of the current run. *)
Fixpoint collapse (k : nat) (s : list ascii) : list ascii :=
  match s with
  | [] => emit_newlines k
  | c :: s' => if Ascii.eqb c nl then collapse (S k) s'
               else emit_newlines k ++ c :: collapse 0 s'
  end.

Definition clean (response : list ascii) : list ascii :=
  match response with
  | [] => response
  | _ =>
      let cleaned_lines := filter (fun l => negb (is_removed l)) (split_lines response) in
      let r := strip (join_lines cleaned_lines) in
      let r := re_sub m_header r in
      let r := re_sub m_bullet r in
      let r := re_sub m_emoji r in
      let r := re_sub (m_section (str "### Conclusion")) r in
      let r := re_sub (m_section (str "### Key Observations")) r in
      let r := re_sub (m_section (str "### Sentiment Summary")) r in
      let r := re_sub m_arrow r in
      let r := collapse 0 r in
      strip r
  end.

Definition enhance_response_formatting (response : string) : string :=
  unstr (clean (str response)).

End Program.

(* ================================================================= *)
(** ** Tool-call accumulator                                         *)
(* ================================================================= *)

(** [{"id": "", "type": "function", "function": {"name": "", "arguments": ""}}] *)
Definition placeholder : ToolCall := mkToolCall "" "function" "" "".

(** [if x:] on an optional string field. *)
Definition truthy (o : option string) : option string :=
  match o with
  | Some s => if String.eqb s "" then None else Some s
  | None => None
  end.

(** [l[i] = x] for [i < len(l)]. *)
Fixpoint set_nth {A} (i : nat) (x : A) (l : list A) : list A :=
  match l, i with
  | [], _ => []
  | _ :: l', 0 => x :: l'
  | y :: l', S i' => y :: set_nth i' x l'
  end.

(** The field updates of one [tool_call_delta] on the entry
    [tool_calls[index]]: [id], [type] and [function.name] are assigned
    when truthy, [function.arguments] is appended with [+=]. *)
Definition upd_cell (cur : ToolCall) (d : ToolCallDelta) : ToolCall :=
  let cur := match truthy (tcd_id d) with
             | Some v => mkToolCall v (tc_type cur) (tc_name cur) (tc_args cur)
             | None => cur end in
  let cur := match truthy (tcd_type d) with
             | Some v => mkToolCall (tc_id cur) v (tc_name cur) (tc_args cur)
             | None => cur end in
  match tcd_function d with
  | Some f =>
      let cur := match truthy (fd_name f) with
                 | Some v => mkToolCall (tc_id cur) (tc_type cur) v (tc_args cur)
                 | None => cur end in
      match truthy (fd_arguments f) with
      | Some v => mkToolCall (tc_id cur) (tc_type cur) (tc_name cur) (tc_args cur ++ v)%string
      | None => cur end
  | None => cur
  end.

(** One [tool_call_delta] of the first-round loop: [while len(tool_calls)
    <= index: tool_calls.append(placeholder)], then the field updates. *)
Definition acc_delta (tool_calls : list ToolCall) (d : ToolCallDelta) : list ToolCall :=
  match tcd_index d with
  | None => tool_calls
  | Some i =>
      let tool_calls := tool_calls ++ repeat placeholder (S i - length tool_calls) in
      set_nth i (upd_cell (nth i tool_calls placeholder) d) tool_calls
  end.

(** [tool_calls and any(tc["function"]["name"] for tc in tool_calls)] *)
Definition has_named_call (tool_calls : list ToolCall) : bool :=
  match tool_calls with
  | [] => false
  | _ => existsb (fun tc => negb (String.eqb (tc_name tc) "")) tool_calls
  end.

(* ================================================================= *)
(** ** The orchestration loop                                        *)
(* ================================================================= *)

Section Orchestration.

Variable env : Env.

(** [client.chat.completions.create(...)] *)
Definition create (kind : CallKind) (msgs : list Msg) : M (list StreamItem) :=
  tell (ECreate kind msgs) ;;;
  match env_model env kind msgs with
  | Created st => ret st
  | CreateRaises e => throw e
  end.

(** The first-round [for chunk in stream] loop: content is forwarded
    and accumulated, tool-call deltas go to the accumulator ([elif]: a
    delta with tool calls does not forward its content). *)
Fixpoint first_round (stream : list StreamItem) (accumulated_content : string)
  (tool_calls : list ToolCall) : M (string * list ToolCall) :=
  match stream with
  | [] => ret (accumulated_content, tool_calls)
  | SRaise e :: _ => throw e
  | SChunk [] :: rest => first_round rest accumulated_content tool_calls
  | SChunk (delta :: _) :: rest =>
      match d_tool_calls delta with
      | _ :: _ => first_round rest accumulated_content
                    (fold_left acc_delta (d_tool_calls delta) tool_calls)
      | [] =>
          match truthy (d_content delta) with
          | Some c => yield (EvContent c) ;;;
                      first_round rest (accumulated_content ++ c)%string tool_calls
          | None => first_round rest accumulated_content tool_calls
          end
      end
  end.

(** The second-round [for chunk in final_stream] loop. *)
Fixpoint final_round (stream : list StreamItem) (final_content : string) : M string :=
  match stream with
  | [] => ret final_content
  | SRaise e :: _ => throw e
  | SChunk [] :: rest => final_round rest final_content
  | SChunk (delta :: _) :: rest =>
      match truthy (d_content delta) with
      | Some c => yield (EvContent c) ;;; final_round rest (final_content ++ c)%string
      | None => final_round rest final_content
      end
  end.

(** One iteration of [for tool_call in tool_calls] with its
    [try]/[except]. *)
Definition execute_tool_call (tool_call : ToolCall) : M unit :=
  catch
    (let fn_name := tc_name tool_call in
     fn_args <- lift_json (json_loads (if String.eqb (tc_args tool_call) "" then "{}"
                                       else tc_args tool_call)) ;;
     yield (EvToolExecution ("Executing " ++ fn_name ++ "...")) ;;;
     result <- call_supabase_edge env fn_name fn_args ;;
     append_msg (MTool (tc_id tool_call) (json_dumps result)))
    (fun tool_error =>
       let error_result := JObj [("error"%string,
                                  JStr ("Tool execution failed: " ++ exc_str tool_error))] in
       append_msg (MTool (tc_id tool_call) (json_dumps error_result)))%string.

Definition handle_openai_streaming_response (stream : list StreamItem) (session_id : string)
  : M unit :=
  catch
    (r <- first_round stream "" [] ;;
     let (accumulated_content, tool_calls) := r in
     if has_named_call tool_calls then
       yield (EvToolCalls "Processing your request...") ;;;
       append_msg (MAssistantTools accumulated_content tool_calls) ;;;
       mapM_ execute_tool_call tool_calls ;;;
       yield (EvFinalResponse "Generating final response...") ;;;
       messages <- get_msgs ;;
       final_stream <- create CallFinal messages ;;
       final_content <- final_round final_stream "" ;;
       if String.eqb final_content "" then ret tt
       else save_message env session_id "assistant"
              (enhance_response_formatting final_content)
     else
       if String.eqb accumulated_content "" then ret tt
       else save_message env session_id "assistant"
              (enhance_response_formatting accumulated_content))
    (fun e =>
       let error_msg := ("Error handling streaming response: " ++ exc_str e)%string in
       save_message env session_id "assistant" error_msg ;;;
       yield (EvError error_msg))%string.

End Orchestration.

(* ================================================================= *)
(** ** Title generation and the request entry point                  *)
(* ================================================================= *)

(** [s.strip(chars)] *)
Definition strip_chars (cs : list ascii) (s : list ascii) : list ascii :=
  let drop := fix drop (l : list ascii) :=
    match l with
    | [] => []
    | c :: l' => if existsb (Ascii.eqb c) cs then drop l' else l
    end in
  rev (drop (rev (drop s))).

Section Entry.

Variable env : Env.

Definition set_msgs (msgs : list Msg) : M unit :=
  fun s => (inr tt, mkSt (st_trace s) msgs).

(** [supabase.table("chat_sessions").update({"title": t}).eq("id", session_id).execute()] *)
Definition store_title (session_id title : string) : M unit :=
  let ok := env_store_ok env (ETitle session_id title true) in
  tell (ETitle session_id title ok) ;;;
  if ok then ret tt else throw (ExcOther "title update failed").

Definition update_chat_title (session_id user_message : string) : M string :=
  let um := str user_message in
  let title_prompt :=
    ("Generate a short, descriptive title (max 50 characters) for a chat conversation that starts with: '"
     ++ unstr (firstn 200 um) ++ "...'")%string in
  catch
    (tell (ECreate CallTitle
             [MPlain "system" "You are a title generator. Generate concise, descriptive titles for chat conversations. Keep titles under 50 characters and make them relevant to the conversation topic.";
              MPlain "user" title_prompt]) ;;;
     match env_title_model env with
     | None => throw (ExcOther "title model call failed")
     | Some content =>
         let g := strip (str content) in
         let generated_title :=
           match g with
           | [] => "New Chat"%string
           | _ => let g := strip_chars [dq; "'"%char] g in
                  if 50 <? length g then unstr (firstn 47 g ++ str "...") else unstr g
           end in
         store_title session_id generated_title ;;;
         ret generated_title
     end)
    (fun _ =>
       let fallback_title := if 30 <? length um then unstr (firstn 30 um ++ str "..."%string)
                             else user_message in
       catch (store_title session_id fallback_title) (fun _ => ret tt) ;;;
       ret fallback_title).

(** The system prompt: its fixed text is elided here, the parts that
    vary are the date, the year and the user id. *)
Definition system_content (date year user_id : string) : string :=
  ("You are a specialized eCommerce data analyst assistant for Shopify businesses. TODAY'S DATE IS "
   ++ date ++ " (Year: " ++ year ++ "). You are helping user " ++ user_id ++ " ...")%string.

Definition call_openai_streaming (user_message session_id user_id : string) : M unit :=
  catch
    (let history := env_history env in
     let messages := map (fun rc => MPlain (fst rc) (snd rc)) history in
     (match history with
      | [] => update_chat_title session_id user_message ;;; ret tt
      | _ => ret tt
      end) ;;;
     let current_date_str := env_date env in
     let current_year := env_year env in
     let system_message := MPlain "system" (system_content current_date_str current_year user_id) in
     let openai_messages :=
       [system_message] ++ messages ++
       [MPlain "user" ("Current date context: Today is " ++ current_date_str ++ " (Year "
                       ++ current_year
                       ++ "). Please use this as your reference for all relative time calculations.");
        MPlain "user" user_message] in
     save_message env session_id "user" user_message ;;;
     stream <- create env CallFirst openai_messages ;;
     set_msgs openai_messages ;;;
     handle_openai_streaming_response env stream session_id)
    (fun e =>
       let error_msg := ("Error in call_openai_streaming: " ++ exc_str e)%string in
       save_message env session_id "assistant" error_msg ;;;
       yield (EvError error_msg))%string.

End Entry.

Definition init_st : St := mkSt [] [].

(* ================================================================= *)
(** * Properties                                                     *)
(* ================================================================= *)

(** ** Remote Function Gateway *)

(** The HTTP request [call_supabase_edge] sends for a mapping argument. *)
Definition gateway_request (env : Env) (fn_name : string) (kvs : list (string * JValue))
  : HttpRequest :=
  let url := (env_base_url env ++ "/" ++ dict_get SUPABASE_FUNCTIONS fn_name fn_name)%string in
  if String.eqb (dict_get HTTP_METHODS fn_name "POST") "GET"
  then HttpGet url (if j_truthy (JObj kvs) then Some (JObj kvs) else None)
  else HttpPost url (JObj kvs).

(** The classification of a gateway result by the transport outcome. *)
Definition gateway_result_spec (o : NetOutcome) (v : JValue) : Prop :=
  match o with
  | NetRaise (ExcTimeout _) =>
      v = JObj [("error", JStr "Request to Supabase function timed out")]%string
  | NetRaise _ => exists m, v = JObj [("error"%string, JStr m)]
  | NetResponse status text =>
      if Z.eqb status 200 then
        match json_loads text with
        | inr j => v = j
        | inl _ => v = JObj [("data", JStr text); ("warning", JStr "Response was not valid JSON")]%string
                   /\ jget "error" v = None
        end
      else v = JObj [("error", JStr ("Supabase function returned status " ++ show_Z status
                                     ++ ": " ++ text));
                     ("status_code", JNum (show_Z status))]%string
  end.

(** C2: for every function name and argument mapping the gateway
    returns a value (it never raises): a timeout or any transport failure
    gives an object whose only key is [error]; a non-200 status gives an
    [error] embedding the status code and the body, plus [status_code];
    a 200 body that is not JSON gives the raw text with a [warning] and
    no [error]. *)
Theorem call_supabase_edge_never_raises :
  forall env fn_name kvs s,
    exists v,
      call_supabase_edge env fn_name (JObj kvs) s =
        (inr v, mkSt (st_trace s ++ [ERequest (gateway_request env fn_name kvs)]) (st_msgs s))
      /\ gateway_result_spec (env_net env (gateway_request env fn_name kvs)) v.
Proof.
  intros env fn_name kvs [tr ms].
  unfold call_supabase_edge, call_supabase_edge_body, gateway_request.
  generalize (env_base_url env ++ "/" ++ dict_get SUPABASE_FUNCTIONS fn_name fn_name)%string.
  intro url.
  destruct (String.eqb (dict_get HTTP_METHODS fn_name "POST") "GET");
    [destruct (j_truthy (JObj kvs))|];
    cbv beta iota zeta delta [catch bind ret throw tell http urlencode lift_json];
    cbn [st_trace st_msgs];
    match goal with
    | |- context [env_net env ?r] => destruct (env_net env r) as [status text | ex] eqn:Hnet
    end;
    unfold gateway_result_spec.
  all: try (destruct ex; eexists; (split; [reflexivity | eauto]); fail).
  all: destruct (Z.eqb status 200) eqn:H200;
    [ destruct (json_loads text) eqn:Hj | ];
    eexists; (split; [reflexivity | auto]).
Qed.

(** [call_supabase_edge] returns a value for every argument (mapping or
    not), leaves the conversation alone and only extends the trace. *)
Lemma call_supabase_edge_total :
  forall env fn_name args s,
    exists v t, call_supabase_edge env fn_name args s = (inr v, mkSt (st_trace s ++ t) (st_msgs s)).
Proof.
  intros env fn_name args [tr ms].
  unfold call_supabase_edge, call_supabase_edge_body.
  generalize (env_base_url env ++ "/" ++ dict_get SUPABASE_FUNCTIONS fn_name fn_name)%string.
  intro url.
  destruct (String.eqb (dict_get HTTP_METHODS fn_name "POST") "GET").
  1: destruct (j_truthy args).
  1: destruct args.
  all: cbv beta iota zeta delta [catch bind ret throw tell http urlencode lift_json];
    cbn [st_trace st_msgs].
  all: try (do 2 eexists; rewrite ?app_nil_r; reflexivity).
  all: match goal with
       | |- context [env_net ?E ?r] => destruct (env_net E r) as [status text | ex] eqn:Hnet
       end.
  all: try (destruct ex; do 2 eexists; reflexivity).
  all: destruct (Z.eqb status 200); [destruct (json_loads text)|];
    do 2 eexists; reflexivity.
Qed.

(** ** Orchestration loop: tool execution *)

(** The argument text handed to [json.loads]: [arguments or "{}"]. *)
Definition tool_payload (tc : ToolCall) : string :=
  if String.eqb (tc_args tc) "" then "{}"%string else tc_args tc.

(** The content of the tool-role message for a call: the error object
    when the payload does not decode, a serialized result otherwise. *)
Definition tool_content_spec (tc : ToolCall) (c : string) : Prop :=
  match json_loads (tool_payload tc) with
  | inl m => c = json_dumps (JObj [("error", JStr ("Tool execution failed: " ++ m))])%string
  | inr _ => exists v, c = json_dumps v
  end.

Lemma execute_tool_call_appends :
  forall env tc s,
    exists c t,
      execute_tool_call env tc s
        = (inr tt, mkSt (st_trace s ++ t) (st_msgs s ++ [MTool (tc_id tc) c]))
      /\ tool_content_spec tc c.
Proof.
  intros env tc [tr ms].
  unfold execute_tool_call, tool_content_spec, tool_payload.
  destruct (json_loads (if String.eqb (tc_args tc) "" then "{}"%string else tc_args tc))
    as [m | args] eqn:Hj.
  - cbv beta iota zeta delta [catch bind ret throw lift_json append_msg]; cbn [st_trace st_msgs].
    do 2 eexists; split; [rewrite app_nil_r; reflexivity | reflexivity].
  - cbv beta iota zeta delta [catch bind lift_json yield ret]; cbn [st_trace st_msgs].
    unfold tell at 1; cbn [st_trace st_msgs].
    destruct (call_supabase_edge_total env (tc_name tc) args
                (mkSt (tr ++ [EYield (EvToolExecution ("Executing " ++ tc_name tc ++ "...")%string)]) ms))
      as [v [t Hc]].
    rewrite Hc. unfold append_msg; cbn [st_trace st_msgs].
    exists (json_dumps v), ([EYield (EvToolExecution ("Executing " ++ tc_name tc ++ "...")%string)] ++ t).
    split; [rewrite app_assoc; reflexivity | eauto].
Qed.

Lemma tool_loop_appends :
  forall env tcs s,
    exists cs t,
      mapM_ (execute_tool_call env) tcs s
        = (inr tt, mkSt (st_trace s ++ t)
                     (st_msgs s ++ map (fun p => MTool (tc_id (fst p)) (snd p)) (combine tcs cs)))
      /\ Forall2 tool_content_spec tcs cs.
Proof.
  intros env tcs. induction tcs as [|tc tcs IH]; intros [tr ms].
  - exists [], []. simpl. rewrite !app_nil_r. split; [reflexivity | constructor].
  - simpl mapM_. unfold bind at 1.
    destruct (execute_tool_call_appends env tc (mkSt tr ms)) as [c [t [He Hc]]].
    cbn [st_trace st_msgs] in He. rewrite He. cbv beta iota.
    destruct (IH (mkSt (tr ++ t) (ms ++ [MTool (tc_id tc) c]))) as [cs [t' [Hl Hf]]].
    cbn [st_trace st_msgs] in Hl. rewrite Hl. exists (c :: cs), (t ++ t'). cbn [st_trace st_msgs combine map fst snd].
    rewrite <- !app_assoc. split; [reflexivity | constructor; assumption].
Qed.

(** ** Monad facts: effects are only ever appended to the trace *)

Definition grows {A} (m : M A) : Prop :=
  forall s, exists t, st_trace (snd (m s)) = st_trace s ++ t.

Lemma bind_inr {A B} (m : M A) (k : A -> M B) s a s' :
  m s = (inr a, s') -> bind m k s = k a s'.
Proof. intros H. unfold bind. rewrite H. reflexivity. Qed.

Lemma bind_inl {A B} (m : M A) (k : A -> M B) s e s' :
  m s = (inl e, s') -> bind m k s = (inl e, s').
Proof. intros H. unfold bind. rewrite H. reflexivity. Qed.

Lemma grows_ret {A} (a : A) : grows (ret a).
Proof. intros s. exists []. rewrite app_nil_r. reflexivity. Qed.

Lemma grows_throw {A} e : grows (@throw A e).
Proof. intros s. exists []. rewrite app_nil_r. reflexivity. Qed.

Lemma grows_tell e : grows (tell e).
Proof. intros s. exists [e]. reflexivity. Qed.

Lemma grows_append_msg m : grows (append_msg m).
Proof. intros s. exists []. rewrite app_nil_r. reflexivity. Qed.

Lemma grows_get_msgs : grows get_msgs.
Proof. intros s. exists []. rewrite app_nil_r. reflexivity. Qed.

Lemma grows_bind {A B} (m : M A) (k : A -> M B) :
  grows m -> (forall a, grows (k a)) -> grows (bind m k).
Proof.
  intros Hm Hk s. unfold bind.
  destruct (Hm s) as [t Ht].
  destruct (m s) as [[e|a] s'] eqn:E; simpl in *.
  - exists t. exact Ht.
  - destruct (Hk a s') as [t' Ht']. exists (t ++ t'). rewrite Ht', Ht, app_assoc. reflexivity.
Qed.

Lemma grows_catch {A} (m : M A) (h : Exc -> M A) :
  grows m -> (forall e, grows (h e)) -> grows (catch m h).
Proof.
  intros Hm Hh s. unfold catch.
  destruct (Hm s) as [t Ht].
  destruct (m s) as [[e|a] s'] eqn:E; simpl in *.
  - destruct (Hh e s') as [t' Ht']. exists (t ++ t'). rewrite Ht', Ht, app_assoc. reflexivity.
  - exists t. exact Ht.
Qed.

Lemma grows_in {A} (m : M A) s x :
  grows m -> In x (st_trace s) -> In x (st_trace (snd (m s))).
Proof. intros Hm Hin. destruct (Hm s) as [t Ht]. rewrite Ht. apply in_or_app. auto. Qed.

Lemma bind_in {A B} (m : M A) (k : A -> M B) s x :
  In x (st_trace (snd (m s))) -> (forall a, grows (k a)) -> In x (st_trace (snd (bind m k s))).
Proof.
  intros Hin Hk. unfold bind.
  destruct (m s) as [[e|a] s'] eqn:E; simpl in *; auto.
  apply grows_in; auto.
Qed.

Lemma catch_in {A} (m : M A) (h : Exc -> M A) s x :
  (forall e, grows (h e)) -> In x (st_trace (snd (m s))) -> In x (st_trace (snd (catch m h s))).
Proof.
  intros Hh Hin. unfold catch.
  destruct (m s) as [[e|a] s'] eqn:E; simpl in *; auto.
  apply grows_in; auto.
Qed.

(** Run the first action of a [bind] when it evaluates to a value. *)
Ltac bind_step :=
  match goal with
  | |- context [bind ?m ?k ?s] => rewrite (bind_inr m k s _ _ eq_refl)
  end.

(** Stop at the first action of a [bind] when it raises. *)
Ltac bind_throw :=
  match goal with
  | |- context [bind ?m ?k ?s] => rewrite (bind_inl m k s _ _ eq_refl)
  end.

Create HintDb grows_db.
#[local] Hint Resolve grows_ret grows_throw grows_tell grows_append_msg grows_get_msgs
  grows_bind grows_catch : grows_db.

Ltac grows_auto :=
  repeat match goal with
         | |- grows (bind _ _) => apply grows_bind; [|intro]
         | |- grows (catch _ _) => apply grows_catch; [|intro]
         | |- grows (match ?x with _ => _ end) => destruct x
         | |- grows (if ?b then _ else _) => destruct b
         | |- grows (let (_, _) := ?p in _) => destruct p
         | |- forall _, _ => intro
         | _ => solve [eauto with grows_db]
         end.

Lemma grows_yield ev : grows (yield ev).
Proof. apply grows_tell. Qed.

Lemma grows_save_message env session_id role content :
  grows (save_message env session_id role content).
Proof. apply grows_tell. Qed.

Lemma grows_create env kind msgs : grows (create env kind msgs).
Proof. unfold create. grows_auto. Qed.

#[local] Hint Resolve grows_yield grows_save_message grows_create : grows_db.

Lemma grows_first_round stream c tcs : grows (first_round stream c tcs).
Proof.
  revert c tcs. induction stream as [|[choices|e] rest IH]; intros c tcs; simpl.
  - apply grows_ret.
  - destruct choices as [|d ds]; [apply IH|].
    destruct (d_tool_calls d); [destruct (truthy (d_content d)) |]; grows_auto.
  - apply grows_throw.
Qed.

Lemma grows_final_round stream c : grows (final_round stream c).
Proof.
  revert c. induction stream as [|[choices|e] rest IH]; intros c; simpl.
  - apply grows_ret.
  - destruct choices as [|d ds]; [apply IH|].
    destruct (truthy (d_content d)); grows_auto.
  - apply grows_throw.
Qed.

Lemma grows_execute_tool_call env tc : grows (execute_tool_call env tc).
Proof.
  intros s. destruct (execute_tool_call_appends env tc s) as [c [t [H _]]].
  exists t. rewrite H. reflexivity.
Qed.

Lemma grows_mapM_ {A} (f : A -> M unit) xs : (forall x, grows (f x)) -> grows (mapM_ f xs).
Proof. intros Hf. induction xs; simpl; grows_auto. Qed.

#[local] Hint Resolve grows_first_round grows_final_round grows_execute_tool_call grows_mapM_
  : grows_db.

Lemma grows_handle env stream session_id :
  grows (handle_openai_streaming_response env stream session_id).
Proof. unfold handle_openai_streaming_response. grows_auto. Qed.

Lemma first_round_msgs stream c tcs s :
  st_msgs (snd (first_round stream c tcs s)) = st_msgs s.
Proof.
  revert c tcs s. induction stream as [|[choices|e] rest IH]; intros c tcs s; simpl; auto.
  destruct choices as [|d ds]; auto.
  destruct (d_tool_calls d); [destruct (truthy (d_content d)) |]; auto.
  unfold bind at 1, yield, tell. simpl. rewrite IH. reflexivity.
Qed.

(** C4: when the first round yields tool calls with a name, every call
    of the round gets exactly one tool-role message carrying its [id],
    in order (an undecodable payload gives the error object, an empty
    one is read as [{}]), and the final model invocation is still made
    with the conversation so extended. *)
Theorem handle_one_tool_message_per_call :
  forall env stream session_id s content tool_calls s1,
    first_round stream "" [] s = (inr (content, tool_calls), s1) ->
    has_named_call tool_calls = true ->
    exists cs,
      Forall2 tool_content_spec tool_calls cs /\
      In (ECreate CallFinal
            (st_msgs s ++ [MAssistantTools content tool_calls]
               ++ map (fun p => MTool (tc_id (fst p)) (snd p)) (combine tool_calls cs)))
         (st_trace (snd (handle_openai_streaming_response env stream session_id s))).
Proof.
  intros env stream session_id s content tool_calls s1 Hfr Hnamed.
  assert (Hm : st_msgs s1 = st_msgs s)
    by (pose proof (first_round_msgs stream "" [] s) as E; rewrite Hfr in E; exact E).
  unfold handle_openai_streaming_response.
  set (h := fun e : Exc => _ : M unit).
  destruct s1 as [tr1 ms1]; simpl in Hm; subst ms1.
  destruct (tool_loop_appends env tool_calls
              (mkSt (tr1 ++ [EYield (EvToolCalls "Processing your request...")])
                    (st_msgs s ++ [MAssistantTools content tool_calls])))
    as [cs [t [Hl Hf]]].
  exists cs. split; [exact Hf|].
  apply catch_in; [unfold h; intros e; grows_auto|].
  rewrite (bind_inr _ _ _ _ _ Hfr). cbv beta iota. rewrite Hnamed.
  do 2 bind_step.
  cbn [st_trace st_msgs] in Hl.
  rewrite (bind_inr _ _ _ _ _ Hl).
  do 2 bind_step.
  apply bind_in; [|intro; grows_auto].
  unfold create. apply bind_in; [|intro; grows_auto].
  unfold tell; cbn [st_trace st_msgs snd].
  apply in_or_app; right. left. rewrite <- !app_assoc. reflexivity.
Qed.

(** ** Sample runs *)

(** A content chunk [{"choices": [{"delta": {"content": c}}]}]. *)
Definition content_chunk (c : string) : StreamItem := SChunk [mkDelta [] (Some c)].

(** A chunk carrying one tool-call fragment. *)
Definition tool_chunk (i : nat) (id ty name args : option string) : StreamItem :=
  SChunk [mkDelta [mkToolCallDelta (Some i) id ty (Some (mkFunctionDelta name args))] None].

(** An environment whose store accepts every write, whose edge
    functions answer [200 {}], whose first round streams [first] and
    whose final round streams [final]. *)
Definition sample_env (store_ok : Eff -> bool) (first final : list StreamItem) : Env :=
  mkEnv "https://example.supabase.co/functions/v1"%string store_ok [] "2025-01-15"%string "2025"%string
    (fun kind _ => match kind with
                   | CallFirst => Created first
                   | CallFinal => Created final
                   | CallTitle => Created []
                   end)
    (Some "Sales overview"%string) (fun _ => NetResponse 200 "{}"%string).

Definition store_all (_ : Eff) : bool := true.

(** One call to [getTopProducts] with an empty argument text. *)
Definition sample_tool_stream : list StreamItem :=
  [tool_chunk 0 (Some "call_1") (Some "function") (Some "getTopProducts") (Some "{}")]%string.

Definition sample_tool_call : ToolCall := mkToolCall "call_1" "function" "getTopProducts" "{}".

Lemma handle_one_tool_message_per_call_witness :
  first_round sample_tool_stream "" [] init_st = (inr (""%string, [sample_tool_call]), init_st) /\
  has_named_call [sample_tool_call] = true /\
  exists cs,
    Forall2 tool_content_spec [sample_tool_call] cs /\
    In (ECreate CallFinal
          (st_msgs init_st ++ [MAssistantTools ""%string [sample_tool_call]]
             ++ map (fun p => MTool (tc_id (fst p)) (snd p)) (combine [sample_tool_call] cs)))
       (st_trace (snd (handle_openai_streaming_response
                         (sample_env store_all [] [content_chunk "Done."%string])
                         sample_tool_stream "s1"%string init_st))).
Proof.
  split; [reflexivity|]. split; [reflexivity|].
  apply (handle_one_tool_message_per_call (sample_env store_all [] [content_chunk "Done."%string])
           sample_tool_stream "s1"%string init_st ""%string [sample_tool_call] init_st); reflexivity.
Defined.

(** ** Tool-call accumulator *)

(** The deltas of a sequence that carry index [j]. *)
Definition has_index (j : nat) (d : ToolCallDelta) : bool :=
  match tcd_index d with Some i => Nat.eqb i j | None => false end.

Lemma length_set_nth {A} i (x : A) l : length (set_nth i x l) = length l.
Proof. revert i. induction l as [|y l IH]; intros [|i]; simpl; auto. Qed.

Lemma nth_set_nth {A} i j (x d : A) l :
  nth j (set_nth i x l) d = if Nat.eqb j i && Nat.ltb i (length l) then x else nth j l d.
Proof.
  revert i j. induction l as [|y l IH]; intros i j.
  - simpl. replace (Nat.ltb i 0) with false by (destruct i; reflexivity).
    rewrite andb_false_r. destruct i, j; reflexivity.
  - destruct i as [|i], j as [|j]; simpl; auto.
Qed.

Lemma acc_delta_length l d :
  length (acc_delta l d) =
    match tcd_index d with Some i => Nat.max (length l) (S i) | None => length l end.
Proof.
  unfold acc_delta. destruct (tcd_index d) as [i|]; auto.
  rewrite length_set_nth, length_app, repeat_length. lia.
Qed.

(** Reading a cell past the end of the padded list gives the placeholder. *)
Lemma nth_pad l k j : nth j (l ++ repeat placeholder k) placeholder = nth j l placeholder.
Proof.
  destruct (Nat.lt_ge_cases j (length l)) as [H|H].
  - apply app_nth1; exact H.
  - rewrite app_nth2 by exact H. rewrite nth_repeat. symmetry. apply nth_overflow. exact H.
Qed.

Lemma acc_delta_nth l d j :
  nth j (acc_delta l d) placeholder =
    if has_index j d then upd_cell (nth j l placeholder) d else nth j l placeholder.
Proof.
  unfold acc_delta, has_index. destruct (tcd_index d) as [i|]; auto.
  rewrite nth_set_nth, length_app, repeat_length, !nth_pad.
  rewrite (Nat.eqb_sym i j).
  destruct (Nat.eqb j i) eqn:E; [|reflexivity].
  rewrite andb_true_l. apply Nat.eqb_eq in E. subst j.
  replace (Nat.ltb i (length l + (S i - length l))) with true by (symmetry; apply Nat.ltb_lt; lia).
  reflexivity.
Qed.

(** Every cell of the accumulated list is the field updates of the
    deltas with that index, in arrival order. *)
Lemma acc_fold_nth ds l j :
  nth j (fold_left acc_delta ds l) placeholder =
    fold_left upd_cell (filter (has_index j) ds) (nth j l placeholder).
Proof.
  revert l. induction ds as [|d ds IH]; intros l; simpl; auto.
  rewrite IH, acc_delta_nth. destruct (has_index j d); reflexivity.
Qed.

(** The accumulated list reaches exactly one past the largest index seen. *)
Lemma acc_fold_length ds l j :
  j < length (fold_left acc_delta ds l) <->
    j < length l \/ exists d k, In d ds /\ tcd_index d = Some k /\ j <= k.
Proof.
  revert l. induction ds as [|d ds IH]; intros l; simpl.
  - split; [auto|]. intros [H|[d [k [[] _]]]]. exact H.
  - rewrite IH, acc_delta_length. split.
    + intros [H|[d' [k [Hin [Hk Hj]]]]].
      * destruct (tcd_index d) as [i|] eqn:Ei; [|auto].
        destruct (Nat.lt_ge_cases j (length l)); [auto|].
        right. exists d, i. repeat split; auto. lia.
      * right. exists d', k. auto.
    + intros [H|[d' [k [[<-|Hin] [Hk Hj]]]]].
      * left. destruct (tcd_index d); lia.
      * left. rewrite Hk. lia.
      * right. exists d', k. auto.
Qed.

Lemma fold_upd_cell_app xs ys c :
  fold_left upd_cell (xs ++ ys) c = fold_left upd_cell ys (fold_left upd_cell xs c).
Proof. apply fold_left_app. Qed.

Lemma sappend_nil_r (s : string) : (s ++ "")%string = s.
Proof. induction s as [|c s IH]; simpl; [reflexivity | rewrite IH; reflexivity]. Qed.

Lemma sappend_assoc (a b c : string) : (a ++ (b ++ c))%string = ((a ++ b) ++ c)%string.
Proof. induction a as [|x a IH]; simpl; [reflexivity | rewrite IH; reflexivity]. Qed.

Lemma concat_empty_cons (f : string) fr :
  String.concat "" (f :: fr) = (f ++ String.concat "" fr)%string.
Proof. destruct fr; simpl; [rewrite sappend_nil_r|]; reflexivity. Qed.

Lemma set_nth_app_r {A} (l r : list A) n x :
  set_nth (length l + n) x (l ++ r) = l ++ set_nth n x r.
Proof. induction l as [|y l IH]; simpl; [reflexivity | rewrite IH; reflexivity]. Qed.

Lemma set_nth_last {A} k (a x y : A) :
  set_nth k x (repeat a k ++ [y]) = repeat a k ++ [x].
Proof. induction k as [|k IH]; simpl; [reflexivity | rewrite IH; reflexivity]. Qed.

(** Two accumulated lists are equal when they have the same cells. *)
Lemma acc_fold_eq ds cells :
  (forall j, j < length cells <-> exists d k, In d ds /\ tcd_index d = Some k /\ j <= k) ->
  (forall j, j < length cells ->
     fold_left upd_cell (filter (has_index j) ds) placeholder = nth j cells placeholder) ->
  fold_left acc_delta ds [] = cells.
Proof.
  intros Hlen Hnth.
  assert (HL : length (fold_left acc_delta ds []) = length cells).
  { assert (E : forall j, j < length (fold_left acc_delta ds []) <-> j < length cells).
    { intros j. rewrite acc_fold_length, Hlen. simpl. split; [intros [H|H]; [lia|exact H] | auto]. }
    pose proof (E (length cells)) as E1. pose proof (E (length (fold_left acc_delta ds []))) as E2.
    lia. }
  apply nth_ext with (d := placeholder) (d' := placeholder); [exact HL|].
  intros j Hj. rewrite acc_fold_nth. rewrite <- (Hnth j) by lia. destruct j; reflexivity.
Qed.

(** Deltas with the same per-index subsequences build the same list. *)
Lemma acc_fold_reorder ds1 ds2 l :
  (forall j, filter (has_index j) ds1 = filter (has_index j) ds2) ->
  fold_left acc_delta ds1 l = fold_left acc_delta ds2 l.
Proof.
  intros Hf.
  assert (Hex : forall j, (exists d k, In d ds1 /\ tcd_index d = Some k /\ j <= k) ->
                          (exists d k, In d ds2 /\ tcd_index d = Some k /\ j <= k)).
  { intros j [d [k [Hin [Hk Hjk]]]]. exists d, k. repeat split; auto.
    assert (Hd : In d (filter (has_index k) ds1))
      by (apply filter_In; split; [exact Hin | unfold has_index; rewrite Hk; apply Nat.eqb_refl]).
    rewrite Hf in Hd. apply filter_In in Hd. tauto. }
  assert (Hex' : forall j, (exists d k, In d ds2 /\ tcd_index d = Some k /\ j <= k) ->
                           (exists d k, In d ds1 /\ tcd_index d = Some k /\ j <= k)).
  { intros j [d [k [Hin [Hk Hjk]]]]. exists d, k. repeat split; auto.
    assert (Hd : In d (filter (has_index k) ds2))
      by (apply filter_In; split; [exact Hin | unfold has_index; rewrite Hk; apply Nat.eqb_refl]).
    rewrite <- Hf in Hd. apply filter_In in Hd. tauto. }
  assert (E : forall j, j < length (fold_left acc_delta ds1 l) <->
                        j < length (fold_left acc_delta ds2 l)).
  { intros j. rewrite !acc_fold_length. firstorder. }
  apply nth_ext with (d := placeholder) (d' := placeholder).
  - pose proof (E (length (fold_left acc_delta ds1 l))).
    pose proof (E (length (fold_left acc_delta ds2 l))). lia.
  - intros j _. rewrite !acc_fold_nth, Hf. reflexivity.
Qed.

(** The first delta of a streamed call: index, id, type and name. *)
Definition header_delta (j : nat) (id ty name : string) : ToolCallDelta :=
  mkToolCallDelta (Some j) (Some id) (Some ty) (Some (mkFunctionDelta (Some name) None)).

(** A later delta of a streamed call: one argument fragment. *)
Definition fragment_delta (j : nat) (f : string) : ToolCallDelta :=
  mkToolCallDelta (Some j) None None (Some (mkFunctionDelta None (Some f))).

(** A whole call in a single delta. *)
Definition whole_delta (j : nat) (id ty name args : string) : ToolCallDelta :=
  mkToolCallDelta (Some j) (Some id) (Some ty) (Some (mkFunctionDelta (Some name) (Some args))).

(** The complete call: an empty type leaves the placeholder's
    ["function"]. *)
Definition complete_call (id ty name args : string) : ToolCall :=
  mkToolCall id (if String.eqb ty "" then "function"%string else ty) name args.

Lemma upd_header j id ty name :
  upd_cell placeholder (header_delta j id ty name) = complete_call id ty name "".
Proof.
  unfold upd_cell, header_delta, complete_call, truthy; cbn.
  destruct (String.eqb_spec id ""), (String.eqb_spec ty ""), (String.eqb_spec name "");
    subst; reflexivity.
Qed.

Lemma upd_whole j id ty name args :
  upd_cell placeholder (whole_delta j id ty name args) = complete_call id ty name args.
Proof.
  unfold upd_cell, whole_delta, complete_call, truthy; cbn.
  destruct (String.eqb_spec id ""), (String.eqb_spec ty ""), (String.eqb_spec name ""),
    (String.eqb_spec args ""); subst; reflexivity.
Qed.

Lemma fold_fragments j fr c :
  fold_left upd_cell (map (fragment_delta j) fr) c =
    mkToolCall (tc_id c) (tc_type c) (tc_name c) (tc_args c ++ String.concat "" fr).
Proof.
  revert c. induction fr as [|f fr IH]; intros [i ty n a]; cbn [fold_left map].
  - simpl. rewrite sappend_nil_r. reflexivity.
  - rewrite concat_empty_cons. unfold upd_cell at 2, fragment_delta, truthy; cbn.
    destruct (String.eqb_spec f ""); subst.
    + rewrite IH. reflexivity.
    + rewrite IH. cbn. rewrite sappend_assoc. reflexivity.
Qed.

Lemma filter_fragments j k fr :
  filter (has_index j) (map (fragment_delta k) fr) =
    if Nat.eqb k j then map (fragment_delta k) fr else [].
Proof.
  induction fr as [|f fr IH]; simpl; [destruct (Nat.eqb k j); reflexivity|].
  rewrite IH. unfold has_index; cbn. destruct (Nat.eqb k j); reflexivity.
Qed.

Lemma has_index_header j k id ty name : has_index j (header_delta k id ty name) = Nat.eqb k j.
Proof. reflexivity. Qed.

Lemma has_index_whole j k id ty name args : has_index j (whole_delta k id ty name args) = Nat.eqb k j.
Proof. reflexivity. Qed.

Lemma acc_delta_pad l d i :
  tcd_index d = Some i -> length l <= i ->
  acc_delta l d = l ++ repeat placeholder (i - length l) ++ [upd_cell placeholder d].
Proof.
  intros Hi Hle. unfold acc_delta. rewrite Hi.
  replace (S i - length l) with (S (i - length l)) by lia.
  replace (nth i (l ++ repeat placeholder (S (i - length l))) placeholder) with placeholder.
  2: { rewrite nth_pad. symmetry. apply nth_overflow. exact Hle. }
  replace i with (length l + (i - length l)) at 1 by lia.
  rewrite set_nth_app_r. cbn [repeat]. rewrite repeat_cons, set_nth_last. reflexivity.
Qed.

(** C5: a delta whose index is past the end pads the list with
    placeholders up to and including that index; the accumulated list
    only depends on the deltas of each index, in their arrival order,
    whatever the interleaving of indices; and streaming call 1 (its
    header, then its argument fragments) before call 0 gives the same
    two complete calls as one whole delta per call in index order. *)
Theorem tool_call_accumulator_order_insensitive :
  (forall l d i, tcd_index d = Some i -> length l <= i ->
     acc_delta l d = l ++ repeat placeholder (i - length l) ++ [upd_cell placeholder d]) /\
  (forall ds1 ds2, (forall j, filter (has_index j) ds1 = filter (has_index j) ds2) ->
     fold_left acc_delta ds1 [] = fold_left acc_delta ds2 []) /\
  (forall id0 ty0 name0 fr0 id1 ty1 name1 fr1,
     fold_left acc_delta
       ([header_delta 1 id1 ty1 name1] ++ map (fragment_delta 1) fr1 ++
        [header_delta 0 id0 ty0 name0] ++ map (fragment_delta 0) fr0) []
     = [complete_call id0 ty0 name0 (String.concat "" fr0);
        complete_call id1 ty1 name1 (String.concat "" fr1)] /\
     fold_left acc_delta
       [whole_delta 0 id0 ty0 name0 (String.concat "" fr0);
        whole_delta 1 id1 ty1 name1 (String.concat "" fr1)] []
     = [complete_call id0 ty0 name0 (String.concat "" fr0);
        complete_call id1 ty1 name1 (String.concat "" fr1)]).
Proof.
  split; [exact acc_delta_pad|]. split; [intros ds1 ds2 Hf; apply acc_fold_reorder; exact Hf|].
  intros id0 ty0 name0 fr0 id1 ty1 name1 fr1. split; apply acc_fold_eq.
  - intros j. cbn [length]. split.
    + intros Hj. exists (header_delta 1 id1 ty1 name1), 1.
      split; [left; reflexivity | split; [reflexivity | lia]].
    + intros [d [k [Hin [Hk Hjk]]]].
      rewrite !in_app_iff, !in_map_iff in Hin.
      destruct Hin as [[<-|[]] | [[f [<- _]] | [[<-|[]] | [f [<- _]]]]];
        cbn in Hk; injection Hk as <-; lia.
  - intros j Hj. cbn [length] in Hj.
    destruct j as [|[|j]]; [| |lia];
      rewrite !filter_app, !filter_fragments; cbn [filter]; rewrite !has_index_header;
      cbn [Nat.eqb app fold_left]; rewrite ?app_nil_r, upd_header, fold_fragments; reflexivity.
  - intros j. cbn [length]. split.
    + intros Hj. exists (whole_delta 1 id1 ty1 name1 (String.concat "" fr1)), 1.
      split; [right; left; reflexivity | split; [reflexivity | lia]].
    + intros [d [k [Hin [Hk Hjk]]]].
      destruct Hin as [<-|[<-|[]]]; cbn in Hk; injection Hk as <-; lia.
  - intros j Hj. cbn [length] in Hj.
    destruct j as [|[|j]]; [| |lia];
      cbn [filter]; rewrite !has_index_whole; cbn [Nat.eqb fold_left];
      rewrite upd_whole; reflexivity.
Qed.

Lemma tool_call_accumulator_order_insensitive_witness :
  tcd_index (header_delta 1 "call_b" "function" "getSales") = Some 1 /\
  length (@nil ToolCall) <= 1 /\
  acc_delta [] (header_delta 1 "call_b" "function" "getSales")
  = [] ++ repeat placeholder (1 - length (@nil ToolCall))
       ++ [upd_cell placeholder (header_delta 1 "call_b" "function" "getSales")].
Proof.
  split; [reflexivity|]. split; [simpl; lia|].
  apply (proj1 tool_call_accumulator_order_insensitive); [reflexivity | simpl; lia].
Defined.

(** The function name and the argument fragment a delta carries. *)
Definition delta_name (d : ToolCallDelta) : option string :=
  match tcd_function d with Some f => fd_name f | None => None end.

Definition delta_args (d : ToolCallDelta) : option string :=
  match tcd_function d with Some f => fd_arguments f | None => None end.

(** The non-empty values among a sequence of optional fields. *)
Definition nonempty_values (xs : list (option string)) : list string :=
  flat_map (fun o => match o with
                     | Some v => if String.eqb v "" then [] else [v]
                     | None => []
                     end) xs.

(** The last non-empty value, or [dflt] when there is none. *)
Definition last_value (xs : list (option string)) (dflt : string) : string :=
  last (nonempty_values xs) dflt.

(** The concatenation of all fragments, in order. *)
Definition arg_text (xs : list (option string)) : string :=
  String.concat "" (map (fun o => match o with Some v => v | None => ""%string end) xs).

Definition pick (o : option string) (x : string) : string :=
  match truthy o with Some v => v | None => x end.

Lemma upd_cell_fields c d :
  upd_cell c d =
    mkToolCall (pick (tcd_id d) (tc_id c)) (pick (tcd_type d) (tc_type c))
      (pick (delta_name d) (tc_name c))
      (tc_args c ++ match delta_args d with Some v => v | None => "" end)%string.
Proof.
  destruct c as [i ty n a], d as [ix [vi|] [vt|] [[[vn|] [va|]]|]];
    unfold upd_cell, pick, delta_name, delta_args, truthy; cbn.
  all: repeat match goal with
              | |- context [String.eqb ?v ""%string] =>
                  is_var v; destruct (String.eqb_spec v ""); subst; cbn
              end.
  all: rewrite ?sappend_nil_r; reflexivity.
Qed.

Lemma last_indep {A} (a : A) l d d' : last (a :: l) d = last (a :: l) d'.
Proof. revert a. induction l as [|b l IH]; intros a; [reflexivity|]. simpl. apply IH. Qed.

Lemma last_value_cons o xs x : last_value (o :: xs) x = last_value xs (pick o x).
Proof.
  unfold last_value, nonempty_values, pick, truthy. cbn [flat_map].
  destruct o as [v|]; [destruct (String.eqb v "")|]; cbn [app]; try reflexivity.
  destruct (flat_map _ xs) as [|w ws]; [reflexivity|]. simpl. apply last_indep.
Qed.

Lemma fold_upd_cell ds c :
  fold_left upd_cell ds c =
    mkToolCall (last_value (map tcd_id ds) (tc_id c)) (last_value (map tcd_type ds) (tc_type c))
      (last_value (map delta_name ds) (tc_name c))
      (tc_args c ++ arg_text (map delta_args ds))%string.
Proof.
  revert c. induction ds as [|d ds IH]; intros c.
  - destruct c; cbn. rewrite sappend_nil_r. reflexivity.
  - cbn [fold_left map]. rewrite IH, upd_cell_fields. cbn [tc_id tc_type tc_name tc_args].
    rewrite !last_value_cons. unfold arg_text. cbn [map]. rewrite concat_empty_cons, sappend_assoc.
    reflexivity.
Qed.

(** C10: the cell of index [j] holds the last non-empty [id], [type]
    and name among the deltas of that index (each later non-empty value
    overwrites the earlier one; with none, the placeholder's [""],
    ["function"] and [""] stay), and the concatenation, in arrival order,
    of all their argument fragments. *)
Theorem tool_call_accumulator_fields :
  forall ds j,
    nth j (fold_left acc_delta ds []) placeholder =
      mkToolCall (last_value (map tcd_id (filter (has_index j) ds)) "")
        (last_value (map tcd_type (filter (has_index j) ds)) "function")
        (last_value (map delta_name (filter (has_index j) ds)) "")
        (arg_text (map delta_args (filter (has_index j) ds))).
Proof.
  intros ds j. rewrite acc_fold_nth.
  replace (nth j [] placeholder) with placeholder by (destruct j; reflexivity).
  rewrite fold_upd_cell. reflexivity.
Qed.

(** Two header deltas for index 0: the second id and name replace the
    first ones. *)
Lemma tool_call_accumulator_id_overwritten :
  fold_left acc_delta [header_delta 0 "call_a" "function" "getSales";
                       header_delta 0 "call_b" "function" "getOrders"] []
  = [mkToolCall "call_b" "function" "getOrders" ""] /\
  tc_id (nth 0 (fold_left acc_delta [header_delta 0 "call_a" "function" "getSales";
                                    header_delta 0 "call_b" "function" "getOrders"] [])
             placeholder) <> "call_a"%string.
Proof. split; [reflexivity | cbv; discriminate]. Qed.

(** ** Event traces *)

(** The events yielded to the caller, in order. *)
Fixpoint yields (t : list Eff) : list Event :=
  match t with
  | [] => []
  | EYield ev :: t' => ev :: yields t'
  | _ :: t' => yields t'
  end.

Definition is_assistant_save (e : Eff) : bool :=
  match e with ESave _ role _ _ => String.eqb role "assistant" | _ => false end.

(** The number of assistant messages written to the message store. *)
Definition assistant_saves (t : list Eff) : nat := length (filter is_assistant_save t).

Lemma yields_app a b : yields (a ++ b) = yields a ++ yields b.
Proof. induction a as [|[] a IH]; simpl; try rewrite IH; reflexivity. Qed.

Lemma assistant_saves_app a b : assistant_saves (a ++ b) = assistant_saves a + assistant_saves b.
Proof. unfold assistant_saves. rewrite filter_app, length_app. reflexivity. Qed.

(** Monad actions whose effects form a trace segment with property [P]. *)
Section TraceShape.

Variable P : list Eff -> Prop.
Hypothesis P_nil : P [].
Hypothesis P_app : forall a b, P a -> P b -> P (a ++ b).

Definition shaped {A} (m : M A) : Prop :=
  forall s, exists t, st_trace (snd (m s)) = st_trace s ++ t /\ P t.

Lemma shaped_ret {A} (a : A) : shaped (ret a).
Proof using P P_nil P_app. intros s. exists []. rewrite app_nil_r. auto. Qed.

Lemma shaped_throw {A} e : shaped (@throw A e).
Proof using P P_nil P_app. intros s. exists []. rewrite app_nil_r. auto. Qed.

Lemma shaped_tell e : P [e] -> shaped (tell e).
Proof using P P_nil P_app. intros H s. exists [e]. auto. Qed.

Lemma shaped_append_msg m : shaped (append_msg m).
Proof using P P_nil P_app. intros s. exists []. rewrite app_nil_r. auto. Qed.

Lemma shaped_get_msgs : shaped get_msgs.
Proof using P P_nil P_app. intros s. exists []. rewrite app_nil_r. auto. Qed.

Lemma shaped_bind {A B} (m : M A) (k : A -> M B) :
  shaped m -> (forall a, shaped (k a)) -> shaped (bind m k).
Proof using P P_nil P_app.
  intros Hm Hk s. unfold bind.
  destruct (Hm s) as [t [Ht Pt]].
  destruct (m s) as [[e|a] s'] eqn:E; simpl in *.
  - exists t. auto.
  - destruct (Hk a s') as [t' [Ht' Pt']]. exists (t ++ t'). rewrite Ht', Ht, app_assoc. auto.
Qed.

Lemma shaped_catch {A} (m : M A) (h : Exc -> M A) :
  shaped m -> (forall e, shaped (h e)) -> shaped (catch m h).
Proof using P P_nil P_app.
  intros Hm Hh s. unfold catch.
  destruct (Hm s) as [t [Ht Pt]].
  destruct (m s) as [[e|a] s'] eqn:E; simpl in *.
  - destruct (Hh e s') as [t' [Ht' Pt']]. exists (t ++ t'). rewrite Ht', Ht, app_assoc. auto.
  - exists t. auto.
Qed.

Lemma shaped_mapM_ {A} (f : A -> M unit) xs : (forall x, shaped (f x)) -> shaped (mapM_ f xs).
Proof using P P_nil P_app.
  intros Hf. induction xs as [|x xs IH]; simpl; [apply shaped_ret|].
  apply shaped_bind; auto.
Qed.

End TraceShape.

Ltac shaped_auto Hnil Happ :=
  repeat match goal with
         | |- shaped _ (bind _ _) => apply (shaped_bind _ Hnil Happ); [|intro]
         | |- shaped _ (catch _ _) => apply (shaped_catch _ Hnil Happ); [|intro]
         | |- shaped _ (ret _) => apply (shaped_ret _ Hnil Happ)
         | |- shaped _ (throw _) => apply (shaped_throw _ Hnil Happ)
         | |- shaped _ (append_msg _) => apply (shaped_append_msg _ Hnil Happ)
         | |- shaped _ get_msgs => apply (shaped_get_msgs _ Hnil Happ)
         | |- shaped _ (tell _) => apply (shaped_tell _ Hnil Happ)
         | |- shaped _ (match ?x with _ => _ end) => destruct x
         | |- shaped _ (if ?b then _ else _) => destruct b
         | |- shaped _ (let (_, _) := ?p in _) => destruct p
         | |- forall _, _ => intro
         end.

(** A trace segment with no yielded event and no assistant message. *)
Definition quiet (t : list Eff) : Prop := yields t = [] /\ assistant_saves t = 0.

Lemma quiet_nil : quiet [].
Proof. split; reflexivity. Qed.

Lemma quiet_app a b : quiet a -> quiet b -> quiet (a ++ b).
Proof.
  unfold quiet. rewrite yields_app, assistant_saves_app. intros [-> ->] [-> ->]. auto.
Qed.

Lemma call_supabase_edge_quiet env fn_name args :
  shaped quiet (call_supabase_edge env fn_name args).
Proof.
  unfold call_supabase_edge, call_supabase_edge_body, urlencode, http, lift_json.
  shaped_auto quiet_nil quiet_app; split; reflexivity.
Qed.

(** The trace segment of streamed content fragments. *)
Definition content_effs (cs : list string) : list Eff := map (fun c => EYield (EvContent c)) cs.

Definition nonempty (c : string) : Prop := c <> ""%string.

Lemma yields_content_effs cs : yields (content_effs cs) = map EvContent cs.
Proof. induction cs as [|c cs IH]; simpl; [|rewrite IH]; reflexivity. Qed.

Lemma assistant_saves_content_effs cs : assistant_saves (content_effs cs) = 0.
Proof. induction cs as [|c cs IH]; simpl; auto. Qed.

Lemma truthy_nonempty o c : truthy o = Some c -> nonempty c.
Proof.
  unfold truthy, nonempty. destruct o as [v|]; [|discriminate].
  destruct (String.eqb_spec v ""); [discriminate|]. intros [= <-]. exact n.
Qed.

Lemma concat_nonempty_nil cs :
  Forall nonempty cs -> String.concat "" cs = ""%string -> cs = [].
Proof.
  intros Hf. destruct cs as [|c cs]; [reflexivity|].
  rewrite concat_empty_cons. inversion Hf as [|? ? Hc _]; subst.
  destruct c; [contradiction|discriminate].
Qed.

Lemma final_round_trace stream acc s :
  exists cs r,
    final_round stream acc s = (r, mkSt (st_trace s ++ content_effs cs) (st_msgs s)) /\
    Forall nonempty cs /\
    (forall v, r = inr v -> v = (acc ++ String.concat "" cs)%string).
Proof.
  revert acc s. induction stream as [|[choices|e] rest IH]; intros acc [tr ms].
  - exists [], (inr acc). cbn. rewrite app_nil_r, sappend_nil_r.
    split; [reflexivity | split; [constructor | congruence]].
  - destruct choices as [|d ds]; [apply IH|]. cbn [final_round].
    destruct (truthy (d_content d)) as [c|] eqn:Ec; [|apply IH].
    unfold bind at 1, yield, tell. cbn [st_trace st_msgs].
    destruct (IH (acc ++ c)%string (mkSt (tr ++ [EYield (EvContent c)]) ms))
      as [cs [r [Hr [Hne Hv]]]].
    exists (c :: cs), r. cbn [st_trace st_msgs] in Hr. rewrite Hr, <- app_assoc.
    split; [reflexivity | split; [constructor; [eapply truthy_nonempty; eauto | exact Hne]|]].
    intros v Hrv. rewrite (Hv v Hrv), concat_empty_cons, sappend_assoc. reflexivity.
  - exists [], (inl e). cbn. rewrite app_nil_r.
    split; [reflexivity | split; [constructor | discriminate]].
Qed.

Lemma first_round_trace stream acc tcs s :
  exists cs r,
    first_round stream acc tcs s = (r, mkSt (st_trace s ++ content_effs cs) (st_msgs s)) /\
    Forall nonempty cs /\
    (forall a tcs', r = inr (a, tcs') -> a = (acc ++ String.concat "" cs)%string).
Proof.
  revert acc tcs s. induction stream as [|[choices|e] rest IH]; intros acc tcs [tr ms].
  - exists [], (inr (acc, tcs)). cbn. rewrite app_nil_r, sappend_nil_r.
    split; [reflexivity | split; [constructor | congruence]].
  - destruct choices as [|d ds]; [apply IH|]. cbn [first_round].
    destruct (d_tool_calls d) as [|tcd tcds]; [|apply IH].
    destruct (truthy (d_content d)) as [c|] eqn:Ec; [|apply IH].
    unfold bind at 1, yield, tell. cbn [st_trace st_msgs].
    destruct (IH (acc ++ c)%string tcs (mkSt (tr ++ [EYield (EvContent c)]) ms))
      as [cs [r [Hr [Hne Hv]]]].
    exists (c :: cs), r. cbn [st_trace st_msgs] in Hr. rewrite Hr, <- app_assoc.
    split; [reflexivity | split; [constructor; [eapply truthy_nonempty; eauto | exact Hne]|]].
    intros a tcs' Hrv. rewrite (Hv a tcs' Hrv), concat_empty_cons, sappend_assoc. reflexivity.
  - exists [], (inl e). cbn. rewrite app_nil_r.
    split; [reflexivity | split; [constructor | discriminate]].
Qed.

(** The [tool_execution] event of a call: only when its payload decodes
    ([json.loads] comes first in the [try] block). *)
Definition exec_events (tc : ToolCall) : list Event :=
  match json_loads (tool_payload tc) with
  | inl _ => []
  | inr _ => [EvToolExecution ("Executing " ++ tc_name tc ++ "...")%string]
  end.

Lemma execute_tool_call_events env tc s :
  exists t, st_trace (snd (execute_tool_call env tc s)) = st_trace s ++ t /\
            yields t = exec_events tc /\ assistant_saves t = 0.
Proof.
  destruct s as [tr ms].
  unfold execute_tool_call, exec_events, tool_payload.
  destruct (json_loads (if String.eqb (tc_args tc) "" then "{}"%string else tc_args tc))
    as [m | args] eqn:Hj.
  - exists []. cbn. rewrite app_nil_r. auto.
  - cbv beta iota zeta delta [catch bind lift_json yield ret]; cbn [st_trace st_msgs].
    unfold tell at 1; cbn [st_trace st_msgs].
    destruct (call_supabase_edge_total env (tc_name tc) args
                (mkSt (tr ++ [EYield (EvToolExecution ("Executing " ++ tc_name tc ++ "...")%string)]) ms))
      as [v [t0 Hc]].
    destruct (call_supabase_edge_quiet env (tc_name tc) args
                (mkSt (tr ++ [EYield (EvToolExecution ("Executing " ++ tc_name tc ++ "...")%string)]) ms))
      as [t1 [Ht1 [Hy Ha]]].
    rewrite Hc in Ht1 |- *. cbn [st_trace snd] in Ht1. apply app_inv_head in Ht1. subst t1.
    unfold append_msg; cbn [st_trace snd].
    exists ([EYield (EvToolExecution ("Executing " ++ tc_name tc ++ "...")%string)] ++ t0).
    rewrite yields_app, assistant_saves_app, Hy, Ha, app_assoc. auto.
Qed.

Lemma tool_loop_events env tcs s :
  exists t, st_trace (snd (mapM_ (execute_tool_call env) tcs s)) = st_trace s ++ t /\
            yields t = flat_map exec_events tcs /\ assistant_saves t = 0.
Proof.
  revert s. induction tcs as [|tc tcs IH]; intros s.
  - exists []. cbn. rewrite app_nil_r. auto.
  - cbn [mapM_]. unfold bind at 1.
    destruct (execute_tool_call_appends env tc s) as [c [t [He _]]].
    destruct (execute_tool_call_events env tc s) as [t1 [Ht1 [Hy1 Ha1]]].
    rewrite He in Ht1 |- *. cbn [st_trace snd] in Ht1. apply app_inv_head in Ht1. subst t1.
    destruct (IH (mkSt (st_trace s ++ t) (st_msgs s ++ [MTool (tc_id tc) c])))
      as [t2 [Ht2 [Hy2 Ha2]]].
    exists (t ++ t2). cbn [st_trace] in Ht2. rewrite Ht2, app_assoc, yields_app, assistant_saves_app.
    cbn [flat_map]. rewrite Hy1, Hy2, Ha1, Ha2. auto.
Qed.

(** C8: in a turn whose first round produced a named tool call, the
    caller sees, after the first round's content fragments, the single
    [tool_calls] event, then one [tool_execution] event per call whose
    argument text decodes as JSON (in call order; a call whose payload
    does not decode gets none), then the [final_response] marker, then
    the content events of the final round, and at most one closing
    [error] event. *)
Theorem tool_turn_event_order :
  forall env stream session_id s content tool_calls s1,
    first_round stream "" [] s = (inr (content, tool_calls), s1) ->
    has_named_call tool_calls = true ->
    exists cs1 cs2 err,
      yields (st_trace (snd (handle_openai_streaming_response env stream session_id s))) =
        yields (st_trace s) ++ map EvContent cs1 ++
        [EvToolCalls "Processing your request..."] ++ flat_map exec_events tool_calls ++
        [EvFinalResponse "Generating final response..."] ++ map EvContent cs2 ++ err /\
      (err = [] \/ exists m, err = [EvError m]).
Proof.
  intros env stream session_id s content tool_calls s1 Hfr Hnamed.
  destruct (first_round_trace stream "" [] s) as [cs1 [r [Hr _]]].
  rewrite Hfr in Hr. injection Hr as <- ->.
  unfold handle_openai_streaming_response, catch.
  rewrite (bind_inr _ _ _ _ _ Hfr). cbv beta iota. rewrite Hnamed.
  do 2 bind_step. cbn [st_trace st_msgs].
  set (s2 := mkSt ((st_trace s ++ content_effs cs1) ++ [EYield (EvToolCalls "Processing your request...")])
                  (st_msgs s ++ [MAssistantTools content tool_calls])).
  destruct (tool_loop_appends env tool_calls s2) as [cs [t [Hl _]]].
  destruct (tool_loop_events env tool_calls s2) as [t' [Ht' [Hy _]]].
  rewrite Hl in Ht'. cbn [st_trace snd] in Ht'. apply app_inv_head in Ht'. subst t'.
  rewrite (bind_inr _ _ _ _ _ Hl).
  do 2 bind_step. unfold create. cbn [st_trace st_msgs].
  match goal with
  | |- context [env_model env CallFinal ?msgs] => destruct (env_model env CallFinal msgs) as [fs|e]
  end.
  - bind_step. cbn [st_trace st_msgs].
    match goal with
    | |- context [bind (final_round fs ?a) _ ?st] =>
        destruct (final_round_trace fs a st) as [cs2 [r2 [Hr2 [Hne2 Hv2]]]]
    end.
    unfold bind at 1. rewrite Hr2. destruct r2 as [e|v].
    + exists cs1, cs2. eexists. split; [|right; eexists; reflexivity].
      unfold save_message, yield, bind, tell. cbn [st_trace snd].
      unfold s2; cbn [st_trace]; rewrite !yields_app, !yields_content_effs, Hy;
      cbn [yields app]; rewrite <- ?app_assoc, ?app_nil_r; cbn [app]; reflexivity.
    + exists cs1, cs2, []. split; [|left; reflexivity].
      destruct (String.eqb v "").
      * cbn [st_trace snd ret].
        unfold s2; cbn [st_trace]; rewrite !yields_app, !yields_content_effs, Hy;
      cbn [yields app]; rewrite <- ?app_assoc, ?app_nil_r; cbn [app]; reflexivity.
      * unfold save_message, tell. cbn [st_trace snd].
        unfold s2; cbn [st_trace]; rewrite !yields_app, !yields_content_effs, Hy;
      cbn [yields app]; rewrite <- ?app_assoc, ?app_nil_r; cbn [app]; reflexivity.
  - exists cs1, [], [EvError ("Error handling streaming response: " ++ exc_str e)%string].
    split; [|right; eexists; reflexivity].
    bind_throw. unfold save_message, yield, bind, tell. cbn [st_trace snd].
    unfold s2; cbn [st_trace]; rewrite !yields_app, !yields_content_effs, Hy;
      cbn [yields app map]; rewrite <- ?app_assoc, ?app_nil_r; cbn [app]; reflexivity.
Qed.

(** A call whose argument text is not JSON. *)
Definition sample_bad_stream : list StreamItem :=
  [tool_chunk 0 (Some "call_1") (Some "function") (Some "getTopProducts") (Some "{")]%string.

Definition sample_bad_call : ToolCall := mkToolCall "call_1" "function" "getTopProducts" "{".

Lemma tool_turn_event_order_witness :
  first_round sample_bad_stream "" [] init_st = (inr (""%string, [sample_bad_call]), init_st) /\
  has_named_call [sample_bad_call] = true /\
  exists cs1 cs2 err,
    yields (st_trace (snd (handle_openai_streaming_response
                             (sample_env store_all [] [content_chunk "Done."%string])
                             sample_bad_stream "s1"%string init_st))) =
      yields (st_trace init_st) ++ map EvContent cs1 ++
      [EvToolCalls "Processing your request..."] ++ flat_map exec_events [sample_bad_call] ++
      [EvFinalResponse "Generating final response..."] ++ map EvContent cs2 ++ err /\
    (err = [] \/ exists m, err = [EvError m]).
Proof.
  split; [reflexivity|]. split; [reflexivity|].
  apply (tool_turn_event_order (sample_env store_all [] [content_chunk "Done."%string])
           sample_bad_stream "s1"%string init_st ""%string [sample_bad_call] init_st);
    reflexivity.
Defined.

(** A call whose arguments do not decode gets no [tool_execution]
    event: the turn shows [tool_calls], then directly [final_response]. *)
Lemma tool_turn_malformed_args_no_execution_event :
  yields (st_trace (snd (handle_openai_streaming_response
                           (sample_env store_all [] [content_chunk "Done."%string])
                           sample_bad_stream "s1"%string init_st))) =
    [EvToolCalls "Processing your request...";
     EvFinalResponse "Generating final response...";
     EvContent "Done."]%string /\
  length [sample_bad_call] = 1 /\
  first_round sample_bad_stream "" [] init_st = (inr (""%string, [sample_bad_call]), init_st).
Proof. split; [vm_compute; reflexivity | split; reflexivity]. Qed.

(** A stream item that neither raises nor carries content. *)
Definition silent_item (it : StreamItem) : Prop :=
  match it with
  | SRaise _ => False
  | SChunk [] => True
  | SChunk (d :: _) => truthy (d_content d) = None
  end.

Lemma final_round_silent fs acc s :
  Forall silent_item fs -> final_round fs acc s = (inr acc, s).
Proof.
  intros Hf. revert acc s. induction Hf as [|[choices|e] fs Hi Hf IH]; intros acc s.
  - reflexivity.
  - destruct choices as [|d ds]; cbn [final_round]; [apply IH|].
    cbn in Hi. rewrite Hi. apply IH.
  - contradiction.
Qed.

(** C3: when the final round streams no content (and raises nothing),
    no assistant message is written for the turn, no placeholder text
    is substituted, and the caller's last event is the
    [final_response] marker. *)
Theorem final_round_empty_persists_nothing :
  forall env stream session_id s content tool_calls s1 fs,
    first_round stream "" [] s = (inr (content, tool_calls), s1) ->
    has_named_call tool_calls = true ->
    (forall msgs, env_model env CallFinal msgs = Created fs) ->
    Forall silent_item fs ->
    exists t,
      st_trace (snd (handle_openai_streaming_response env stream session_id s)) = st_trace s ++ t /\
      assistant_saves t = 0 /\
      exists pre, yields t = pre ++ [EvFinalResponse "Generating final response..."].
Proof.
  intros env stream session_id s content tool_calls s1 fs Hfr Hnamed Hmodel Hsilent.
  destruct (first_round_trace stream "" [] s) as [cs1 [r [Hr _]]].
  rewrite Hfr in Hr. injection Hr as <- ->.
  unfold handle_openai_streaming_response, catch.
  rewrite (bind_inr _ _ _ _ _ Hfr). cbv beta iota. rewrite Hnamed.
  do 2 bind_step. cbn [st_trace st_msgs].
  set (s2 := mkSt ((st_trace s ++ content_effs cs1) ++ [EYield (EvToolCalls "Processing your request...")])
                  (st_msgs s ++ [MAssistantTools content tool_calls])).
  destruct (tool_loop_appends env tool_calls s2) as [cs [t [Hl _]]].
  destruct (tool_loop_events env tool_calls s2) as [t' [Ht' [Hy Ha]]].
  rewrite Hl in Ht'. cbn [st_trace snd] in Ht'. apply app_inv_head in Ht'. subst t'.
  rewrite (bind_inr _ _ _ _ _ Hl).
  do 2 bind_step. unfold create. rewrite Hmodel. bind_step. cbn [st_trace st_msgs].
  rewrite (bind_inr _ _ _ _ _ (final_round_silent _ _ _ Hsilent)). cbn [String.eqb ret st_trace snd].
  unfold s2; cbn [st_trace]. rewrite <- !app_assoc.
  eexists. split; [reflexivity|]. split.
  - rewrite !assistant_saves_app, assistant_saves_content_effs, Ha. reflexivity.
  - rewrite !yields_app, yields_content_effs, Hy. cbn [yields app].
    exists (map EvContent cs1 ++ EvToolCalls "Processing your request..." :: flat_map exec_events tool_calls).
    rewrite <- app_assoc. reflexivity.
Qed.

Lemma final_round_empty_persists_nothing_witness :
  first_round sample_tool_stream "" [] init_st = (inr (""%string, [sample_tool_call]), init_st) /\
  has_named_call [sample_tool_call] = true /\
  (forall msgs, env_model (sample_env store_all [] []) CallFinal msgs = Created []) /\
  Forall silent_item [] /\
  exists t,
    st_trace (snd (handle_openai_streaming_response (sample_env store_all [] []) sample_tool_stream
                     "s1"%string init_st)) = st_trace init_st ++ t /\
    assistant_saves t = 0 /\
    exists pre, yields t = pre ++ [EvFinalResponse "Generating final response..."].
Proof.
  split; [reflexivity|]. split; [reflexivity|]. split; [reflexivity|]. split; [constructor|].
  apply (final_round_empty_persists_nothing (sample_env store_all [] []) sample_tool_stream
           "s1"%string init_st ""%string [sample_tool_call] init_st []);
    [reflexivity | reflexivity | reflexivity | constructor].
Defined.

(** With a final round that streams nothing, the run writes no
    assistant message at all: nothing stands in for the empty answer. *)
Lemma final_round_empty_no_assistant_message :
  assistant_saves (st_trace (snd (handle_openai_streaming_response (sample_env store_all [] [])
                                    sample_tool_stream "s1"%string init_st))) = 0 /\
  yields (st_trace (snd (handle_openai_streaming_response (sample_env store_all [] [])
                           sample_tool_stream "s1"%string init_st))) =
    [EvToolCalls "Processing your request..."; EvToolExecution "Executing getTopProducts...";
     EvFinalResponse "Generating final response..."]%string.
Proof. split; vm_compute; reflexivity. Qed.

(** ** Assistant messages written per request *)

(** The last event the caller sees. *)
Fixpoint last_event (ys : list Event) : option Event :=
  match ys with
  | [] => None
  | y :: ys' => match last_event ys' with Some z => Some z | None => Some y end
  end.

(** The stream ends with an answer fragment or with an error. *)
Definition ends_with_answer (ys : list Event) : bool :=
  match last_event ys with
  | Some (EvContent _) | Some (EvError _) => true
  | _ => false
  end.

(** When the caller's stream ends with an [error] event, its text is the
    content of an assistant message written for the session. *)
Definition error_saved (session_id : string) (t : list Eff) : Prop :=
  forall m, last_event (yields t) = Some (EvError m) ->
            exists ok, In (ESave session_id "assistant" m ok) t.

(** At most one assistant message, one exactly when the caller's stream
    ends with an answer fragment or an error, and the error text is the
    message on an error. *)
Definition answer_persisted (session_id : string) (t : list Eff) : Prop :=
  assistant_saves t <= 1 /\ (assistant_saves t = 1 <-> ends_with_answer (yields t) = true) /\
  error_saved session_id t.

Lemma last_event_app a b :
  last_event (a ++ b) = match last_event b with Some z => Some z | None => last_event a end.
Proof.
  induction a as [|y a IH]; simpl.
  - destruct (last_event b); reflexivity.
  - rewrite IH. destruct (last_event b); [reflexivity|]. reflexivity.
Qed.

Lemma last_event_cons y ys :
  last_event (y :: ys) = match last_event ys with Some z => Some z | None => Some y end.
Proof. reflexivity. Qed.

Lemma last_event_contents cs :
  cs <> [] -> exists c, last_event (map EvContent cs) = Some (EvContent c).
Proof.
  intros H. destruct cs as [|c cs]; [contradiction|]. clear H. revert c.
  induction cs as [|c' cs IH]; intros c; [exists c; reflexivity|].
  destruct (IH c') as [d Hd]. exists d.
  cbn [map] in *. rewrite last_event_cons, Hd. reflexivity.
Qed.

Lemma answer_of_content sid t :
  assistant_saves t = 1 -> (exists c, last_event (yields t) = Some (EvContent c)) ->
  answer_persisted sid t.
Proof.
  intros Ha [c Hc]. unfold answer_persisted, error_saved, ends_with_answer. rewrite Ha, Hc.
  split; [lia | split; [split; reflexivity|]]. intros m Hm. discriminate Hm.
Qed.

Lemma answer_of_none sid t :
  assistant_saves t = 0 -> ends_with_answer (yields t) = false -> answer_persisted sid t.
Proof.
  intros Ha He. unfold answer_persisted, error_saved. rewrite Ha, He.
  split; [lia | split; [split; discriminate|]]. intros m Hm.
  unfold ends_with_answer in He. rewrite Hm in He. discriminate He.
Qed.

Lemma answer_of_error sid q c ok m :
  assistant_saves q = 0 -> c = m ->
  answer_persisted sid ((q ++ [ESave sid "assistant" c ok]) ++ [EYield (EvError m)]).
Proof.
  intros Hq ->. unfold answer_persisted, error_saved, ends_with_answer.
  rewrite !assistant_saves_app, Hq, !yields_app, !last_event_app. cbn.
  split; [lia | split; [split; reflexivity|]].
  intros m' Hm. injection Hm as <-. exists ok.
  apply in_or_app. left. apply in_or_app. right. left. reflexivity.
Qed.

Lemma answer_persisted_quiet sid q t :
  quiet q -> answer_persisted sid t -> answer_persisted sid (q ++ t).
Proof.
  intros [Hy Ha] [H1 [H2 H3]]. unfold answer_persisted, error_saved in *.
  rewrite assistant_saves_app, yields_app, Hy, Ha. cbn [app Nat.add].
  split; [exact H1 | split; [exact H2|]].
  intros m Hm. destruct (H3 m Hm) as [ok Hin]. exists ok. apply in_or_app. right. exact Hin.
Qed.

Lemma saves_save sid c ok : assistant_saves [ESave sid "assistant" c ok] = 1.
Proof. reflexivity. Qed.

Lemma saves_yield ev : assistant_saves [EYield ev] = 0.
Proof. reflexivity. Qed.

Lemma saves_create k msgs : assistant_saves [ECreate k msgs] = 0.
Proof. reflexivity. Qed.

(** The error texts start with a letter, so [save_message] keeps them. *)
Lemma lstrip_nil_ws l : lstrip l = [] -> forall c, In c l -> is_ws c = true.
Proof.
  induction l as [|d l IH]; cbn [lstrip]; intros H c Hc; [destruct Hc|].
  destruct (is_ws d) eqn:Ed; [|discriminate H].
  destruct Hc as [<-|Hc]; [exact Ed | exact (IH H c Hc)].
Qed.

Lemma stored_content_nonblank c s : is_ws c = false -> stored_content (String c s) = String c s.
Proof.
  intros Hc. unfold stored_content, strip, rstrip, str. cbn [list_ascii_of_string lstrip]. rewrite Hc.
  destruct (rev (lstrip (rev (c :: list_ascii_of_string s)))) eqn:E; [|reflexivity].
  exfalso. apply (f_equal (@rev ascii)) in E. rewrite rev_involutive in E.
  rewrite (lstrip_nil_ws _ E c) in Hc; [discriminate Hc|].
  apply in_rev. rewrite rev_involutive. left. reflexivity.
Qed.

Lemma stored_content_E s : stored_content (String "E" s) = String "E" s.
Proof. apply stored_content_nonblank. reflexivity. Qed.

Ltac count_saves :=
  rewrite ?assistant_saves_app, ?assistant_saves_content_effs, ?saves_save, ?saves_yield,
    ?saves_create.

Ltac last_of_yields :=
  unfold ends_with_answer; rewrite ?yields_app, ?yields_content_effs, ?last_event_app;
  cbn [yields last_event map].

Ltac last_of_events :=
  rewrite ?yields_app, ?yields_content_effs, ?last_event_app; cbn [yields last_event map].

(** Every run of the streaming loop writes at most one assistant
    message, one exactly when its events end with an answer fragment or
    an error (the error text is then the message), and the loop itself
    never raises. *)
Lemma handle_answer env stream session_id s :
  fst (handle_openai_streaming_response env stream session_id s) = inr tt /\
  exists t, st_trace (snd (handle_openai_streaming_response env stream session_id s))
              = st_trace s ++ t /\ answer_persisted session_id t.
Proof.
  unfold handle_openai_streaming_response, catch.
  destruct (first_round_trace stream "" [] s) as [cs1 [r1 [H1 [Hne1 Hv1]]]].
  destruct r1 as [e|[acc tcs]].
  - rewrite (bind_inl _ _ _ _ _ H1). unfold save_message, yield, bind, tell. cbv zeta.
    cbn [fst snd st_trace]. split; [reflexivity|].
    eexists. split; [rewrite <- !app_assoc; reflexivity|].
    rewrite !app_assoc. apply answer_of_error.
    + count_saves. reflexivity.
    + apply stored_content_E.
  - rewrite (bind_inr _ _ _ _ _ H1). cbv beta iota.
    specialize (Hv1 acc tcs eq_refl). cbn in Hv1.
    destruct (has_named_call tcs).
    + do 2 bind_step. cbn [st_trace st_msgs].
      set (s2 := mkSt ((st_trace s ++ content_effs cs1) ++ [EYield (EvToolCalls "Processing your request...")])
                      (st_msgs s ++ [MAssistantTools acc tcs])).
      destruct (tool_loop_appends env tcs s2) as [cs [t [Hl _]]].
      destruct (tool_loop_events env tcs s2) as [t' [Ht' [Hy Ha]]].
      rewrite Hl in Ht'. cbn [st_trace snd] in Ht'. apply app_inv_head in Ht'. subst t'.
      rewrite (bind_inr _ _ _ _ _ Hl).
      do 2 bind_step. unfold create. cbn [st_trace st_msgs].
      match goal with
      | |- context [env_model env CallFinal ?msgs] =>
          destruct (env_model env CallFinal msgs) as [fs|e]
      end.
      * bind_step. cbn [st_trace st_msgs].
        match goal with
        | |- context [bind (final_round fs ?a) _ ?st] =>
            destruct (final_round_trace fs a st) as [cs2 [r2 [Hr2 [Hne2 Hv2]]]]
        end.
        destruct r2 as [e|v].
        -- rewrite (bind_inl _ _ _ _ _ Hr2). unfold save_message, yield, bind, tell. cbv zeta.
           cbn [fst snd st_trace]. split; [reflexivity|].
           eexists. split; [unfold s2; cbn [st_trace]; rewrite <- !app_assoc; reflexivity|].
           rewrite !app_assoc. apply answer_of_error.
           ++ count_saves. rewrite Ha. reflexivity.
           ++ apply stored_content_E.
        -- rewrite (bind_inr _ _ _ _ _ Hr2). specialize (Hv2 v eq_refl). cbn in Hv2. subst v.
           destruct (String.eqb_spec (String.concat "" cs2) "") as [E|E].
           ++ apply concat_nonempty_nil in E; [|exact Hne2]. subst cs2.
              cbn [String.concat String.eqb ret fst snd st_trace]. split; [reflexivity|].
              eexists. split; [unfold s2; cbn [st_trace]; rewrite <- !app_assoc; reflexivity|].
              apply answer_of_none.
              ** count_saves. rewrite Ha. reflexivity.
              ** last_of_yields. reflexivity.
           ++ assert (Hcs2 : cs2 <> []) by (intros ->; apply E; reflexivity).
              replace (String.eqb (String.concat "" cs2) "") with false
                by (symmetry; apply String.eqb_neq; exact E).
              unfold save_message, tell. cbv zeta. cbn [fst snd st_trace]. split; [reflexivity|].
              eexists. split; [unfold s2; cbn [st_trace]; rewrite <- !app_assoc; reflexivity|].
              apply answer_of_content.
              ** count_saves. rewrite Ha. reflexivity.
              ** destruct (last_event_contents cs2 Hcs2) as [c Hc]. exists c.
                 last_of_events. rewrite Hc. reflexivity.
      * bind_throw. unfold save_message, yield, bind, tell. cbv zeta.
        cbn [fst snd st_trace]. split; [reflexivity|].
        eexists. split; [unfold s2; cbn [st_trace]; rewrite <- !app_assoc; reflexivity|].
        rewrite !app_assoc. apply answer_of_error.
        -- count_saves. rewrite Ha. reflexivity.
        -- apply stored_content_E.
    + destruct (String.eqb_spec acc "") as [E|E].
      * rewrite E in Hv1. symmetry in Hv1. apply concat_nonempty_nil in Hv1; [|exact Hne1].
        subst cs1.
        cbn [String.eqb ret fst snd st_trace]. split; [reflexivity|].
        exists []. split; [cbn; rewrite !app_nil_r; reflexivity|].
        apply answer_of_none; reflexivity.
      * assert (Hcs1 : cs1 <> []) by (intros ->; apply E; exact Hv1).
        replace (String.eqb acc "") with false by (symmetry; apply String.eqb_neq; exact E).
        unfold save_message, tell. cbv zeta. cbn [fst snd st_trace]. split; [reflexivity|].
        eexists. split; [rewrite <- !app_assoc; reflexivity|].
        apply answer_of_content.
        -- count_saves. reflexivity.
        -- destruct (last_event_contents cs1 Hcs1) as [c Hc]. exists c.
           last_of_events. rewrite Hc. reflexivity.
Qed.

Lemma quiet_user_save sid c ok : quiet [ESave sid "user" c ok].
Proof. split; reflexivity. Qed.

Lemma quiet_create k msgs : quiet [ECreate k msgs].
Proof. split; reflexivity. Qed.

Lemma update_chat_title_quiet env session_id user_message :
  shaped quiet (update_chat_title env session_id user_message).
Proof.
  unfold update_chat_title, store_title.
  shaped_auto quiet_nil quiet_app; split; reflexivity.
Qed.

(** The effects of one chat request, from a fresh state. *)
Definition request_trace (env : Env) (user_message session_id user_id : string) : list Eff :=
  st_trace (snd (call_openai_streaming env user_message session_id user_id init_st)).

(** The error path of the entry point: one assistant message (the
    error text), then the [error] event. *)
Lemma answer_persisted_error q sid c ok m :
  quiet q -> c = m ->
  answer_persisted sid (q ++ [ESave sid "assistant" c ok] ++ [EYield (EvError m)]).
Proof.
  intros [_ Hq] Hc. rewrite app_assoc. apply answer_of_error; assumption.
Qed.

(** *** What the message store answered *)

(** A message-store write records the store's answer to it: [save_message]
    swallows a failing insert, so the flag is [false] exactly when the
    message was not persisted. *)
Definition honest_eff (env : Env) (e : Eff) : Prop :=
  match e with
  | ESave sid role c ok => ok = env_store_ok env (ESave sid role c true)
  | _ => True
  end.

Definition honest (env : Env) (t : list Eff) : Prop := Forall (honest_eff env) t.

Lemma honest_nil env : honest env [].
Proof. constructor. Qed.

Lemma honest_app env a b : honest env a -> honest env b -> honest env (a ++ b).
Proof. intros Ha Hb. apply Forall_app. auto. Qed.

Ltac honest_auto env :=
  shaped_auto (honest_nil env) (honest_app env);
  try solve [repeat constructor].

Lemma honest_save env sid role c : shaped (honest env) (save_message env sid role c).
Proof.
  unfold save_message. cbv zeta. apply (shaped_tell _ (honest_nil env) (honest_app env)).
  repeat constructor.
Qed.

Lemma honest_create env kind msgs : shaped (honest env) (create env kind msgs).
Proof. unfold create. honest_auto env. Qed.

Lemma honest_content_effs env cs : honest env (content_effs cs).
Proof. induction cs as [|c cs IH]; constructor; [exact I | exact IH]. Qed.

Lemma honest_first_round env stream c tcs : shaped (honest env) (first_round stream c tcs).
Proof.
  intros s. destruct (first_round_trace stream c tcs s) as [cs [r [Hr _]]].
  rewrite Hr. exists (content_effs cs). split; [reflexivity | apply honest_content_effs].
Qed.

Lemma honest_final_round env stream c : shaped (honest env) (final_round stream c).
Proof.
  intros s. destruct (final_round_trace stream c s) as [cs [r [Hr _]]].
  rewrite Hr. exists (content_effs cs). split; [reflexivity | apply honest_content_effs].
Qed.

Lemma honest_execute_tool_call env tc : shaped (honest env) (execute_tool_call env tc).
Proof.
  unfold execute_tool_call, yield, call_supabase_edge, call_supabase_edge_body, urlencode, http,
    lift_json.
  honest_auto env.
Qed.

Lemma honest_handle env stream session_id :
  shaped (honest env) (handle_openai_streaming_response env stream session_id).
Proof.
  unfold handle_openai_streaming_response, yield. honest_auto env;
    first [ apply honest_first_round | apply honest_final_round | apply honest_create
          | apply honest_save
          | apply (shaped_mapM_ _ (honest_nil env) (honest_app env)); intro;
            apply honest_execute_tool_call ].
Qed.

Lemma honest_update_chat_title env session_id user_message :
  shaped (honest env) (update_chat_title env session_id user_message).
Proof. unfold update_chat_title, store_title. honest_auto env. Qed.

Lemma honest_set_msgs env msgs : shaped (honest env) (set_msgs msgs).
Proof. intros s. exists []. rewrite app_nil_r. split; [reflexivity | apply honest_nil]. Qed.

Lemma honest_request env user_message session_id user_id :
  honest env (request_trace env user_message session_id user_id).
Proof.
  assert (H : shaped (honest env) (call_openai_streaming env user_message session_id user_id)).
  { unfold call_openai_streaming, yield. honest_auto env;
      first [ apply honest_update_chat_title | apply honest_create | apply honest_save
            | apply honest_set_msgs | apply honest_handle ]. }
  destruct (H init_st) as [t [Ht Hh]]. unfold request_trace. rewrite Ht. exact Hh.
Qed.

(** C1: a chat request makes at most one attempt to write an assistant
    message; it makes one exactly when the caller's event stream ends
    with an answer fragment or with an [error] event, and on an [error]
    event the written content is the error text itself.  Each write
    records the message store's answer, so the message is persisted
    only when the store accepts it. *)
Theorem chat_request_assistant_messages :
  forall env user_message session_id user_id,
    let t := request_trace env user_message session_id user_id in
    assistant_saves t <= 1 /\
    (assistant_saves t = 1 <-> ends_with_answer (yields t) = true) /\
    (forall m, last_event (yields t) = Some (EvError m) ->
       In (ESave session_id "assistant" m
             (env_store_ok env (ESave session_id "assistant" m true))) t) /\
    (forall sid role c ok, In (ESave sid role c ok) t ->
       ok = env_store_ok env (ESave sid role c true)).
Proof.
  intros env um sid uid t.
  assert (Hh : honest env t) by apply honest_request.
  assert (Hst : forall sid' role c ok, In (ESave sid' role c ok) t ->
                  ok = env_store_ok env (ESave sid' role c true)).
  { intros sid' role c ok Hin. unfold honest in Hh. rewrite Forall_forall in Hh.
    exact (Hh _ Hin). }
  enough (H : answer_persisted sid t).
  { destruct H as [H1 [H2 H3]]. split; [exact H1 | split; [exact H2 | split; [|exact Hst]]].
    intros m Hm. destruct (H3 m Hm) as [ok Hin]. rewrite <- (Hst _ _ _ _ Hin). exact Hin. }
  unfold t. clear Hh Hst t.
  enough (H : exists t, request_trace env um sid uid = t /\ answer_persisted sid t)
    by (destruct H as [t [-> Ht]]; exact Ht).
  unfold request_trace, call_openai_streaming, catch. cbv zeta.
  match goal with
  | |- context [bind ?m1 ?k1 init_st] =>
      assert (Hq1 : shaped quiet m1)
        by (destruct (env_history env);
            [apply (shaped_bind _ quiet_nil quiet_app);
               [apply update_chat_title_quiet | intro; apply (shaped_ret _ quiet_nil quiet_app)]
            | apply (shaped_ret _ quiet_nil quiet_app)]);
      destruct (Hq1 init_st) as [q1 [Hs1 Hquiet1]];
      destruct (m1 init_st) as [[e|u] s1] eqn:E1;
      [rewrite (bind_inl _ _ _ _ _ E1) | rewrite (bind_inr _ _ _ _ _ E1)]
  end; cbn [snd st_trace init_st] in Hs1.
  - unfold save_message, yield, bind, tell. cbv zeta. cbn [snd st_trace].
    eexists. split; [reflexivity|]. rewrite Hs1. cbn [app]. rewrite <- app_assoc.
    apply answer_persisted_error; [exact Hquiet1 | apply stored_content_E].
  - unfold save_message at 1. cbv zeta. bind_step. unfold create. cbn [st_trace st_msgs].
    match goal with
    | |- context [env_model env CallFirst ?msgs] =>
        destruct (env_model env CallFirst msgs) as [stream|e]
    end.
    + bind_step. bind_step. cbn [st_trace st_msgs].
      match goal with
      | |- context [handle_openai_streaming_response env stream sid ?st] =>
          destruct (handle_answer env stream sid st) as [Hr [t [Ht Hans]]];
          destruct (handle_openai_streaming_response env stream sid st) as [r5 s5];
          cbn [fst snd] in Hr, Ht; subst r5
      end.
      cbn [snd]. eexists. split; [reflexivity|]. rewrite Ht. cbn [st_trace set_msgs]. rewrite Hs1. cbn [app].
      rewrite <- !app_assoc. apply answer_persisted_quiet; [exact Hquiet1|].
      apply answer_persisted_quiet; [apply quiet_user_save|].
      apply answer_persisted_quiet; [apply quiet_create|]. exact Hans.
    + bind_throw. unfold save_message, yield, bind, tell. cbv zeta. cbn [snd st_trace].
      eexists. split; [reflexivity|]. rewrite Hs1. cbn [app]. rewrite <- !app_assoc.
      apply answer_persisted_quiet; [exact Hquiet1|].
      apply answer_persisted_quiet; [apply quiet_user_save|].
      apply answer_persisted_quiet; [apply quiet_create|].
      apply (answer_persisted_error []); [apply quiet_nil | apply stored_content_E].
Qed.

(** The number of assistant messages the store accepted. *)
Definition assistant_persisted (t : list Eff) : nat :=
  length (filter (fun e => match e with
                           | ESave _ role _ ok => String.eqb role "assistant" && ok
                           | _ => false
                           end) t).

(** A store that refuses every write. *)
Definition store_none (_ : Eff) : bool := false.

(** C1, two runs with no assistant message persisted: when the model
    streams nothing, the run writes none; when the store refuses the
    write of a streamed answer, [save_message] swallows the failure and
    the caller still sees the answer. *)
Lemma chat_request_assistant_message_not_persisted :
  (assistant_saves (request_trace (sample_env store_all [] []) "Hello" "s1" "u1") = 0 /\
   yields (request_trace (sample_env store_all [] []) "Hello" "s1" "u1") = []) /\
  (ends_with_answer (yields (request_trace (sample_env store_none [content_chunk "Hi"] [])
                               "Hello" "s1" "u1")) = true /\
   assistant_saves (request_trace (sample_env store_none [content_chunk "Hi"] []) "Hello" "s1" "u1") = 1 /\
   assistant_persisted (request_trace (sample_env store_none [content_chunk "Hi"] [])
                          "Hello" "s1" "u1") = 0)%string.
Proof. vm_compute. repeat split; reflexivity. Qed.

(** The effects of the title step: the title-model call and the title
    update. *)
Definition title_effect (e : Eff) : Prop :=
  match e with
  | ECreate CallTitle _ | ETitle _ _ _ => True
  | _ => False
  end.

Definition title_only (t : list Eff) : Prop := Forall title_effect t.

Lemma title_only_nil : title_only [].
Proof. constructor. Qed.

Lemma title_only_app a b : title_only a -> title_only b -> title_only (a ++ b).
Proof. intros Ha Hb. apply Forall_app; split; assumption. Qed.

Lemma update_chat_title_title_only env session_id user_message :
  shaped title_only (update_chat_title env session_id user_message).
Proof.
  unfold update_chat_title, store_title.
  shaped_auto title_only_nil title_only_app; repeat constructor.
Qed.

(** A [try] whose handler always returns never raises. *)
Lemma catch_total {A} (m : M A) (h : Exc -> M A) s :
  (forall e s', exists v, fst (h e s') = inr v) -> exists v, fst (catch m h s) = inr v.
Proof.
  intros H. unfold catch. destruct (m s) as [[e|v] s']; [apply H | cbn; eauto].
Qed.

(** [update_chat_title] catches every failure and returns a title. *)
Lemma update_chat_title_total env session_id user_message s :
  exists v, fst (update_chat_title env session_id user_message s) = inr v.
Proof.
  unfold update_chat_title. apply catch_total. intros e s'. cbv zeta. unfold bind at 1.
  match goal with
  | |- context [catch ?m ?h s'] =>
      destruct (catch_total m h s' (fun _ s'' => ex_intro _ tt eq_refl)) as [u Hu];
      destruct (catch m h s') as [[e'|u'] s''];
      cbn [fst] in Hu; [discriminate Hu | eexists; reflexivity]
  end.
Qed.

Lemma catch_extends {A} (m : M A) (h : Exc -> M A) s :
  (forall e, grows (h e)) -> exists t, st_trace (snd (catch m h s)) = st_trace (snd (m s)) ++ t.
Proof.
  intros Hh. unfold catch. destruct (m s) as [[e|a] s'].
  - apply (Hh e s').
  - exists []. rewrite app_nil_r. reflexivity.
Qed.

Lemma bind_extends {A B} (m : M A) (k : A -> M B) s :
  (forall a, grows (k a)) -> exists t, st_trace (snd (bind m k s)) = st_trace (snd (m s)) ++ t.
Proof.
  intros Hk. unfold bind. destruct (m s) as [[e|a] s'].
  - exists []. rewrite app_nil_r. reflexivity.
  - apply (Hk a s').
Qed.

Lemma grows_set_msgs msgs : grows (set_msgs msgs).
Proof. intros s. exists []. rewrite app_nil_r. reflexivity. Qed.

Lemma create_trace env kind msgs s :
  st_trace (snd (create env kind msgs s)) = st_trace s ++ [ECreate kind msgs].
Proof.
  unfold create, bind, tell, ret, throw. cbn [snd st_trace].
  destruct (env_model env kind msgs); reflexivity.
Qed.

(** C9: in every chat request the new user message is written before
    the chat model is called; only the title step (for the first message
    of a conversation) comes before it; and the model call follows
    whatever the store answered, since [save_message] swallows a failed
    insert. *)
Theorem chat_request_user_saved_before_model :
  forall env user_message session_id user_id,
    exists pre msgs post,
      request_trace env user_message session_id user_id =
        pre ++ [ESave session_id "user" (stored_content user_message)
                  (env_store_ok env (ESave session_id "user" (stored_content user_message) true));
                ECreate CallFirst msgs] ++ post /\
      title_only pre /\
      (env_history env <> [] -> pre = []).
Proof.
  intros env um sid uid.
  unfold request_trace, call_openai_streaming. cbv zeta.
  match goal with
  | |- context [catch ?b ?h init_st] =>
      destruct (catch_extends b h init_st) as [t3 Ht3];
      [intro; apply grows_bind; [apply grows_save_message | intro; apply grows_yield]|];
      rewrite Ht3
  end.
  match goal with
  | |- context [bind ?m1 ?k1 init_st] =>
      assert (Hq1 : shaped title_only m1 /\ forall s, exists v, fst (m1 s) = inr v)
        by (destruct (env_history env);
            [split;
               [apply (shaped_bind _ title_only_nil title_only_app);
                  [apply update_chat_title_title_only
                  | intro; apply (shaped_ret _ title_only_nil title_only_app)]
               | intros s; unfold bind;
                 destruct (update_chat_title_total env sid um s) as [v Hv];
                 destruct (update_chat_title env sid um s) as [[e|u] s'];
                 cbn [fst] in Hv; [discriminate Hv | eexists; reflexivity]]
            | split; [apply (shaped_ret _ title_only_nil title_only_app) | intros s; eexists; reflexivity]]);
      destruct Hq1 as [Hq1 Htot];
      destruct (Hq1 init_st) as [q1 [Hs1 Hpre1]];
      destruct (Htot init_st) as [u Hu];
      assert (Hh : env_history env <> [] -> m1 init_st = (inr tt, init_st))
        by (destruct (env_history env); [intros []; reflexivity | reflexivity]);
      destruct (m1 init_st) as [[e|u'] s1] eqn:E1;
      [discriminate Hu | rewrite (bind_inr _ _ _ _ _ E1)]
  end; cbn [snd st_trace init_st] in Hs1.
  unfold save_message at 1. cbv zeta. bind_step.
  match goal with
  | |- context [bind (create env CallFirst ?msgs) ?k ?s2] =>
      destruct (bind_extends (create env CallFirst msgs) k s2) as [t4 Ht4];
      [intro; apply grows_bind; [apply grows_set_msgs | intro; apply grows_handle]|];
      rewrite Ht4, create_trace; exists q1, msgs, (t4 ++ t3)
  end.
  cbn [st_trace]. rewrite Hs1. split; [cbn [app]; rewrite <- !app_assoc; reflexivity|].
  split; [exact Hpre1|].
  intros Hne. specialize (Hh Hne). injection Hh as _ Hs. rewrite Hs in Hs1.
  cbn in Hs1. symmetry in Hs1. exact Hs1.
Qed.

(** A store that refuses the user's message and accepts everything else. *)
Definition reject_user_save (e : Eff) : bool :=
  match e with
  | ESave _ role _ _ => negb (String.eqb role "user")
  | _ => true
  end.

(** The effects of a trace that are not events. *)
Definition effects_only (t : list Eff) : list Eff :=
  filter (fun e => match e with EYield _ => false | _ => true end) t.

Definition sample_first_messages : list Msg :=
  [MPlain "system" (system_content "2025-01-15" "2025" "u1");
   MPlain "user" "Current date context: Today is 2025-01-15 (Year 2025). Please use this as your reference for all relative time calculations.";
   MPlain "user" "Hello"].

(** C9, a failed save of the user message: the insert is refused, the
    failure is swallowed, and the request goes on to call the model and
    stream its answer. *)
Lemma chat_request_failed_user_save_proceeds :
  firstn 2 (skipn 2
    (effects_only (request_trace (sample_env reject_user_save [content_chunk "Hi!"] [])
                                 "Hello" "s1" "u1"))) =
    [ESave "s1" "user" "Hello" false; ECreate CallFirst sample_first_messages] /\
  yields (request_trace (sample_env reject_user_save [content_chunk "Hi!"] []) "Hello" "s1" "u1") =
    [EvContent "Hi!"].
Proof. vm_compute. split; reflexivity. Qed.

(* ================================================================= *)
(** ** The response formatter                                        *)
(* ================================================================= *)


Definition nl_free (l : list ascii) : bool := forallb (fun c => negb (Ascii.eqb c nl)) l.

(** The lines kept by the cleaning loop. *)
Definition keep (l : list ascii) : bool := negb (is_removed l).

(** Every line of the text would be kept by the cleaning loop. *)
Definition good (z : list ascii) : bool := forallb keep (split_lines z).

(** No run of three or more newlines; [k] counts the current run. *)
Fixpoint runs_ok (k : nat) (z : list ascii) : bool :=
  match z with
  | [] => k <? 3
  | c :: z' => if Ascii.eqb c nl then runs_ok (S k) z' else (k <? 3) && runs_ok 0 z'
  end.

Lemma lstrip_split l : exists w, l = w ++ lstrip l /\ forallb is_ws w = true.
Proof.
  induction l as [|c l IH]; [exists []; auto|].
  cbn [lstrip]. destruct (is_ws c) eqn:Hc.
  - destruct IH as [w [Hw Hws]]. exists (c :: w). cbn. rewrite Hc, Hws, <- Hw. auto.
  - exists []. auto.
Qed.

Lemma rstrip_split l : exists w, l = rstrip l ++ w /\ forallb is_ws w = true.
Proof.
  destruct (lstrip_split (rev l)) as [w [Hw Hws]]. exists (rev w). unfold rstrip.
  split.
  - rewrite <- rev_app_distr, <- Hw, rev_involutive. reflexivity.
  - apply forallb_forall. intros c Hc. apply in_rev in Hc.
    rewrite forallb_forall in Hws. auto.
Qed.

Lemma lstrip_idem l : lstrip (lstrip l) = lstrip l.
Proof.
  induction l as [|c l IH]; [reflexivity|]. cbn [lstrip].
  destruct (is_ws c) eqn:Hc; [exact IH | cbn [lstrip]; rewrite Hc; reflexivity].
Qed.

Lemma lstrip_length l : length (lstrip l) <= length l.
Proof. induction l as [|c l IH]; cbn [lstrip]; [auto|destruct (is_ws c); cbn; lia]. Qed.

Lemma lstrip_fixed c l : lstrip (c :: l) = c :: l -> is_ws c = false.
Proof.
  cbn [lstrip]. destruct (is_ws c); [|auto].
  intros H. pose proof (lstrip_length l) as Hl. rewrite H in Hl. cbn in Hl. lia.
Qed.

Lemma lstrip_app_free a b : lstrip a = a -> lstrip (a ++ b) = a ++ b \/ a = [].
Proof.
  destruct a as [|c a]; [auto|]. intros H. left.
  cbn [app lstrip]. rewrite (lstrip_fixed c a H). reflexivity.
Qed.

Lemma rstrip_idem l : rstrip (rstrip l) = rstrip l.
Proof. unfold rstrip. rewrite rev_involutive, lstrip_idem. reflexivity. Qed.

Lemma strip_idem l : strip (strip l) = strip l.
Proof.
  unfold strip.
  assert (H : lstrip (rstrip (lstrip l)) = rstrip (lstrip l)).
  { destruct (rstrip_split (lstrip l)) as [w [Hw _]].
    remember (rstrip (lstrip l)) as r.
    destruct r as [|c r']; [reflexivity|].
    assert (Hc : is_ws c = false).
    { apply (lstrip_fixed c (r' ++ w)). rewrite app_comm_cons, <- Hw. apply lstrip_idem. }
    cbn [lstrip]. rewrite Hc. reflexivity. }
  rewrite H. apply rstrip_idem.
Qed.

Lemma lstrip_cons_ws c l : is_ws c = true -> lstrip (c :: l) = lstrip l.
Proof. intros H. cbn [lstrip]. rewrite H. reflexivity. Qed.

Lemma lstrip_app_ws a w : forallb is_ws w = true ->
  lstrip (a ++ w) = lstrip a ++ w \/ (lstrip (a ++ w) = [] /\ lstrip a = []).
Proof.
  intros Hw. induction a as [|c a IH].
  - cbn. right. split; [|reflexivity].
    induction w as [|c w IHw]; [reflexivity|]. cbn in Hw |- *.
    apply andb_prop in Hw as [-> Hw]. auto.
  - cbn [app lstrip]. destruct (is_ws c); [exact IH | left; reflexivity].
Qed.

Lemma lstrip_ws_app w x : forallb is_ws w = true -> lstrip (w ++ x) = lstrip x.
Proof.
  induction w as [|c w IH]; [reflexivity|]. cbn. intros H.
  apply andb_prop in H as [Hc H]. rewrite Hc. auto.
Qed.

Lemma forallb_rev {A} (f : A -> bool) l : forallb f (rev l) = forallb f l.
Proof.
  apply eq_true_iff_eq. rewrite !forallb_forall.
  split; intros H x Hx; apply H; apply in_rev; [rewrite rev_involutive; exact Hx | exact Hx].
Qed.

Lemma strip_app_ws a w : forallb is_ws w = true -> strip (a ++ w) = strip a.
Proof.
  intros Hw. unfold strip, rstrip.
  destruct (lstrip_app_ws a w Hw) as [-> | [-> ->]]; [|reflexivity].
  rewrite rev_app_distr, lstrip_ws_app; [reflexivity|]. rewrite forallb_rev. exact Hw.
Qed.

Lemma split_lines_cons s : exists l ls, split_lines s = l :: ls.
Proof.
  induction s as [|c s [l [ls IH]]]; [eexists _, _; reflexivity|].
  cbn [split_lines]. rewrite IH. destruct (Ascii.eqb c nl); eexists _, _; reflexivity.
Qed.

Lemma split_lines_prefix a s : nl_free a = true ->
  split_lines (a ++ s) = match split_lines s with l :: ls => (a ++ l) :: ls | [] => [a] end.
Proof.
  induction a as [|c a IH]; intros Ha.
  - cbn. destruct (split_lines_cons s) as [l [ls ->]]. reflexivity.
  - unfold nl_free in Ha. cbn [forallb] in Ha. apply andb_prop in Ha as [Hc Ha]. apply negb_true_iff in Hc.
    cbn [app split_lines]. rewrite Hc, (IH Ha).
    destruct (split_lines_cons s) as [l [ls ->]]. reflexivity.
Qed.

Lemma split_lines_nl a w : nl_free a = true -> split_lines (a ++ nl :: w) = a :: split_lines w.
Proof.
  intros Ha. rewrite (split_lines_prefix a _ Ha). cbn [split_lines].
  rewrite Ascii.eqb_refl, app_nil_r. reflexivity.
Qed.

Lemma split_lines_free a : nl_free a = true -> split_lines a = [a].
Proof.
  intros Ha. rewrite <- (app_nil_r a) at 1. rewrite (split_lines_prefix a _ Ha).
  cbn. rewrite app_nil_r. reflexivity.
Qed.

Lemma split_lines_head s l ls : split_lines s = l :: ls -> exists r, s = l ++ r.
Proof.
  revert l ls. induction s as [|c s IH]; intros l ls H.
  - cbn in H. injection H as <- _. exists []. reflexivity.
  - cbn [split_lines] in H. destruct (Ascii.eqb c nl).
    + injection H as <- _. exists (c :: s). reflexivity.
    + destruct (split_lines_cons s) as [l' [ls' E]]. rewrite E in H.
      injection H as <- _. destruct (IH _ _ E) as [r ->]. exists r. reflexivity.
Qed.

Lemma split_lines_nl_free s l : In l (split_lines s) -> nl_free l = true.
Proof.
  revert l. induction s as [|c s IH]; intros l H.
  - destruct H as [<-|[]]. reflexivity.
  - cbn [split_lines] in H. destruct (Ascii.eqb c nl) eqn:Hc.
    + destruct H as [<-|H]; [reflexivity | auto].
    + destruct (split_lines_cons s) as [l' [ls' E]]. rewrite E in H.
      destruct H as [<-|H].
      * change (negb (Ascii.eqb c nl) && nl_free l' = true). rewrite Hc.
        apply IH. rewrite E. left. reflexivity.
      * apply IH. rewrite E. right. exact H.
Qed.

Lemma contains_cons p c l : contains p l = true -> contains p (c :: l) = true.
Proof. intros H. cbn [contains]. rewrite H. apply orb_true_r. Qed.

Lemma starts_with_app p a b : starts_with p a = true -> starts_with p (a ++ b) = true.
Proof.
  revert a. induction p as [|x p IH]; intros a H; [reflexivity|].
  destruct a as [|y a]; [discriminate|]. cbn in H |- *.
  apply andb_prop in H as [H1 H2]. rewrite H1, (IH _ H2). reflexivity.
Qed.

Lemma contains_app p a b : contains p a = true -> contains p (a ++ b) = true.
Proof.
  induction a as [|c a IH]; intros H.
  - destruct p; [destruct b; reflexivity | discriminate].
  - cbn [app contains] in H |- *. apply orb_true_iff in H as [H|H].
    + pose proof (starts_with_app _ _ b H) as H'. cbn [app] in H'. rewrite H'. reflexivity.
    + rewrite (IH H). apply orb_true_r.
Qed.

Lemma keep_cons_ws c l : is_ws c = true -> keep (c :: l) = true -> keep l = true.
Proof.
  intros Hws Hk. unfold keep, is_removed, strip in *.
  rewrite (lstrip_cons_ws _ _ Hws) in Hk.
  apply negb_true_iff in Hk. apply negb_true_iff.
  apply orb_false_iff in Hk as [H12 H3]. apply orb_false_iff. split; [exact H12|].
  destruct (contains (str "Talked to") l) eqn:E1; [|reflexivity].
  destruct (contains (str "supabase.co") l) eqn:E2; [|reflexivity].
  rewrite (contains_cons _ c _ E1), (contains_cons _ c _ E2) in H3. discriminate.
Qed.

Lemma keep_app_ws a w : forallb is_ws w = true -> keep (a ++ w) = true -> keep a = true.
Proof.
  intros Hws Hk. unfold keep, is_removed in *. fold (strip (a ++ w)) in Hk.
  rewrite (strip_app_ws _ _ Hws) in Hk.
  apply negb_true_iff in Hk. apply negb_true_iff.
  apply orb_false_iff in Hk as [H12 H3]. apply orb_false_iff. split; [exact H12|].
  destruct (contains (str "Talked to") a) eqn:E1; [|reflexivity].
  destruct (contains (str "supabase.co") a) eqn:E2; [|reflexivity].
  rewrite (contains_app _ _ w E1), (contains_app _ _ w E2) in H3. discriminate.
Qed.

Lemma nl_free_app a b : nl_free (a ++ b) = nl_free a && nl_free b.
Proof. apply forallb_app. Qed.

Lemma nl_free_char c : Ascii.eqb c nl = false -> nl_free [c] = true.
Proof. intros H. unfold nl_free. cbn [forallb]. rewrite H. reflexivity. Qed.

Lemma good_nl a w : nl_free a = true -> good (a ++ nl :: w) = keep a && good w.
Proof. intros Ha. unfold good. rewrite (split_lines_nl _ _ Ha). reflexivity. Qed.

Lemma good_free a : nl_free a = true -> good a = keep a.
Proof. intros Ha. unfold good. rewrite (split_lines_free _ Ha). apply andb_true_r. Qed.

Lemma good_nl_cons w : good (nl :: w) = good w.
Proof. apply (good_nl [] w eq_refl). Qed.

Lemma good_lstrip z : good z = true -> good (lstrip z) = true.
Proof.
  induction z as [|c z IH]; intros H; [exact H|].
  cbn [lstrip]. destruct (is_ws c) eqn:Hws; [apply IH|exact H].
  destruct (Ascii.eqb c nl) eqn:Hnl.
  - apply Ascii.eqb_eq in Hnl. subst c. rewrite good_nl_cons in H. exact H.
  - unfold good in H |- *. cbn [split_lines] in H. rewrite Hnl in H.
    destruct (split_lines_cons z) as [l [ls E]]. rewrite E in H |- *.
    cbn [forallb] in H |- *. apply andb_prop in H as [H1 H2].
    rewrite (keep_cons_ws _ _ Hws H1), H2. reflexivity.
Qed.

Lemma good_app_ws p a w : nl_free a = true -> forallb is_ws w = true ->
  good (a ++ p ++ w) = true -> good (a ++ p) = true.
Proof.
  revert a. induction p as [|c p IH]; intros a Ha Hw H.
  - rewrite app_nil_r, (good_free _ Ha). cbn [app] in H. unfold good in H.
    rewrite (split_lines_prefix _ _ Ha) in H.
    destruct (split_lines_cons w) as [l [ls E]]. rewrite E in H.
    destruct (split_lines_head _ _ _ E) as [r Er].
    cbn [forallb] in H. apply andb_prop in H as [H _].
    apply (keep_app_ws a l); [|exact H].
    rewrite Er, forallb_app in Hw. apply andb_prop in Hw as [Hw _]. exact Hw.
  - destruct (Ascii.eqb c nl) eqn:Hnl.
    + apply Ascii.eqb_eq in Hnl. subst c.
      cbn [app] in H. rewrite (good_nl _ _ Ha) in H. rewrite (good_nl _ _ Ha).
      apply andb_prop in H as [H1 H2]. rewrite H1.
      apply (IH [] eq_refl Hw H2).
    + cbn [app] in H. replace (a ++ c :: p ++ w) with ((a ++ [c]) ++ p ++ w) in H by (rewrite <- app_assoc; reflexivity).
      replace (a ++ c :: p) with ((a ++ [c]) ++ p) by (rewrite <- app_assoc; reflexivity).
      apply IH; [rewrite nl_free_app, Ha, (nl_free_char _ Hnl); reflexivity | exact Hw | exact H].
Qed.

Lemma good_rstrip z : good z = true -> good (rstrip z) = true.
Proof.
  intros H. destruct (rstrip_split z) as [w [Hz Hw]].
  apply (good_app_ws (rstrip z) [] w eq_refl Hw). cbn [app]. rewrite <- Hz. exact H.
Qed.

Lemma good_strip z : good z = true -> good (strip z) = true.
Proof. intros H. apply good_rstrip, good_lstrip, H. Qed.

Lemma good_repeat_nl j w : good (repeat nl j ++ w) = good w.
Proof. induction j as [|j IH]; [reflexivity|]. cbn [repeat app]. rewrite good_nl_cons. exact IH. Qed.

Lemma good_line_repeat p j : nl_free p = true -> good (p ++ repeat nl j) = keep p.
Proof.
  intros Hp. destruct j as [|j].
  - rewrite app_nil_r. apply good_free, Hp.
  - cbn [repeat]. rewrite (good_nl _ _ Hp).
    rewrite <- (app_nil_r (repeat nl j)), good_repeat_nl. apply andb_true_r.
Qed.

Lemma good_line_repeat_app p j w : nl_free p = true ->
  good (p ++ repeat nl (S j) ++ w) = keep p && good w.
Proof.
  intros Hp. cbn [repeat app]. rewrite (good_nl _ _ Hp), good_repeat_nl. reflexivity.
Qed.

Lemma emit_newlines_pos k : exists j, emit_newlines (S k) = repeat nl (S j).
Proof.
  unfold emit_newlines. destruct (3 <=? S k); [exists 1 | exists k]; reflexivity.
Qed.

Lemma good_collapse z p k : nl_free p = true ->
  good (p ++ repeat nl k ++ z) = true -> good (p ++ collapse k z) = true.
Proof.
  revert p k. induction z as [|c z IH]; intros p k Hp H.
  - cbn [collapse]. destruct k as [|k].
    + exact H.
    + destruct (emit_newlines_pos k) as [j ->].
      rewrite good_line_repeat by exact Hp. rewrite app_nil_r, good_line_repeat in H by exact Hp.
      exact H.
  - cbn [collapse]. destruct (Ascii.eqb c nl) eqn:Hnl.
    + apply Ascii.eqb_eq in Hnl. subst c. apply IH; [exact Hp|].
      replace (repeat nl (S k) ++ z) with (repeat nl k ++ nl :: z); [exact H|].
      clear. induction k as [|k IH]; [reflexivity|]. cbn [repeat app]. rewrite IH. reflexivity.
    + destruct k as [|k].
      * cbn [emit_newlines repeat app Nat.leb]. cbn [repeat app] in H.
        replace (p ++ c :: collapse 0 z) with ((p ++ [c]) ++ collapse 0 z)
          by (rewrite <- app_assoc; reflexivity).
        apply IH; [rewrite nl_free_app, Hp, (nl_free_char _ Hnl); reflexivity|].
        rewrite <- app_assoc. exact H.
      * destruct (emit_newlines_pos k) as [j ->].
        rewrite good_line_repeat_app by exact Hp.
        rewrite good_line_repeat_app in H by exact Hp.
        apply andb_prop in H as [H1 H2]. rewrite H1. cbn [andb].
        apply (IH [c] 0 (nl_free_char _ Hnl)). exact H2.
Qed.

Lemma repeat_nl_snoc k : repeat nl k ++ [nl] = repeat nl (S k).
Proof. induction k as [|k IH]; [reflexivity|]. cbn [repeat app]. rewrite IH. reflexivity. Qed.

Lemma runs_ok_repeat j m w : runs_ok j (repeat nl m ++ w) = runs_ok (j + m) w.
Proof.
  revert j. induction m as [|m IH]; intros j; [rewrite Nat.add_0_r; reflexivity|].
  cbn [repeat app runs_ok]. rewrite Ascii.eqb_refl, IH, Nat.add_succ_r. reflexivity.
Qed.

Lemma runs_ok_lt k z : runs_ok k z = true -> k < 3.
Proof.
  revert k. induction z as [|c z IH]; intros k H; cbn [runs_ok] in H.
  - apply Nat.ltb_lt, H.
  - destruct (Ascii.eqb c nl).
    + apply IH in H. lia.
    + apply andb_prop in H as [H _]. apply Nat.ltb_lt, H.
Qed.

Lemma runs_ok_le j k z : j <= k -> runs_ok k z = true -> runs_ok j z = true.
Proof.
  revert j k. induction z as [|c z IH]; intros j k Hjk H; cbn [runs_ok] in H |- *.
  - apply Nat.ltb_lt in H. apply Nat.ltb_lt. lia.
  - destruct (Ascii.eqb c nl).
    + apply (IH (S j) (S k)); [lia | exact H].
    + apply andb_prop in H as [H1 H2]. apply Nat.ltb_lt in H1.
      rewrite H2, andb_true_r. apply Nat.ltb_lt. lia.
Qed.

Lemma runs_ok_cons c z : runs_ok 0 (c :: z) = true -> runs_ok 0 z = true.
Proof.
  cbn [runs_ok]. destruct (Ascii.eqb c nl).
  - apply runs_ok_le. lia.
  - intros H. apply andb_prop in H as [_ H]. exact H.
Qed.

Lemma runs_ok_suffix a z : runs_ok 0 (a ++ z) = true -> runs_ok 0 z = true.
Proof. induction a as [|c a IH]; [auto|]. intros H. apply IH, (runs_ok_cons c), H. Qed.

Lemma runs_ok_prefix k a z : runs_ok k (a ++ z) = true -> runs_ok k a = true.
Proof.
  revert k. induction a as [|c a IH]; intros k H.
  - cbn [runs_ok]. apply Nat.ltb_lt, (runs_ok_lt _ _ H).
  - cbn [app runs_ok] in H |- *. destruct (Ascii.eqb c nl).
    + apply IH, H.
    + apply andb_prop in H as [H1 H2]. rewrite H1, (IH _ H2). reflexivity.
Qed.

Lemma runs_ok_strip z : runs_ok 0 z = true -> runs_ok 0 (strip z) = true.
Proof.
  intros H. unfold strip.
  destruct (lstrip_split z) as [w1 [E1 _]]. rewrite E1 in H. apply runs_ok_suffix in H.
  destruct (rstrip_split (lstrip z)) as [w2 [E2 _]]. rewrite E2 in H.
  apply runs_ok_prefix in H. exact H.
Qed.

Lemma runs_ok_emit k : runs_ok 0 (emit_newlines k) = true.
Proof.
  unfold emit_newlines. rewrite <- (app_nil_r (repeat nl _)), runs_ok_repeat.
  cbn [runs_ok Nat.add]. apply Nat.ltb_lt. destruct (3 <=? k) eqn:E; [lia|].
  apply Nat.leb_gt in E. lia.
Qed.

Lemma runs_ok_collapse z k : runs_ok 0 (collapse k z) = true.
Proof.
  revert k. induction z as [|c z IH]; intros k; cbn [collapse].
  - apply runs_ok_emit.
  - destruct (Ascii.eqb c nl) eqn:Hnl; [apply IH|].
    unfold emit_newlines. rewrite runs_ok_repeat. cbn [runs_ok Nat.add]. rewrite Hnl, IH.
    rewrite andb_true_r. apply Nat.ltb_lt. destruct (3 <=? k) eqn:E; [lia|].
    apply Nat.leb_gt in E. lia.
Qed.






Lemma In_repeat_nl c k : In c (repeat nl k) -> c = nl.
Proof. apply repeat_spec. Qed.

Lemma In_collapse c z k : In c (collapse k z) -> c = nl \/ In c z.
Proof.
  revert k. induction z as [|d z IH]; intros k H; cbn [collapse] in H.
  - left. apply (In_repeat_nl _ _ H).
  - destruct (Ascii.eqb d nl).
    + destruct (IH _ H) as [E|E]; [left; exact E | right; right; exact E].
    + apply in_app_or in H as [H|[H|H]].
      * left. apply (In_repeat_nl _ _ H).
      * right. left. exact H.
      * destruct (IH _ H) as [E|E]; [left; exact E | right; right; exact E].
Qed.








Lemma line_split_spec t g r : line_split t = (g, r) ->
  t = g ++ r /\ (r = [] \/ exists r', r = nl :: r').
Proof.
  revert g r. induction t as [|c t IH]; intros g r H; cbn [line_split] in H.
  - injection H as <- <-. split; [reflexivity | left; reflexivity].
  - destruct (Ascii.eqb c nl) eqn:Hc.
    + injection H as <- <-. apply Ascii.eqb_eq in Hc. subst c.
      split; [reflexivity | right; exists t; reflexivity].
    + destruct (line_split t) as [g' r'] eqn:E. injection H as <- <-.
      destruct (IH _ _ eq_refl) as [-> Hr]. split; [reflexivity | exact Hr].
Qed.

Lemma starts_with_spec p g : starts_with p g = true -> exists u, g = p ++ u.
Proof.
  revert g. induction p as [|a p IH]; intros g H; [exists g; reflexivity|].
  destruct g as [|b g]; [discriminate|]. cbn in H. apply andb_prop in H as [H1 H2].
  apply Ascii.eqb_eq in H1. subst b. destruct (IH _ H2) as [u ->]. exists u. reflexivity.
Qed.

Lemma match_line_spec p repl s r rest : match_line p repl s = Some (r, rest) ->
  exists g u, s = nl :: g ++ nl :: rest /\ r = repl g /\ g = p ++ u.
Proof.
  unfold match_line. destruct s as [|c t]; [discriminate|].
  destruct (Ascii.eqb c nl) eqn:Hc; [|discriminate]. apply Ascii.eqb_eq in Hc. subst c.
  destruct (line_split t) as [g r0] eqn:E. destruct r0 as [|d r']; [discriminate|].
  destruct (starts_with p g && (S (length p) <=? length g)) eqn:Hp; [|discriminate].
  intros H. injection H as <- <-. apply andb_prop in Hp as [Hp _].
  destruct (starts_with_spec _ _ Hp) as [u Hu].
  destruct (line_split_spec _ _ _ E) as [-> [Hr|[r'' Hr]]]; [discriminate|].
  injection Hr as <- <-. exists g, u. auto.
Qed.






Lemma good_join ls : (forall l, In l ls -> nl_free l = true /\ keep l = true) ->
  good (join_lines ls) = true.
Proof.
  induction ls as [|l ls IH]; intros H; [reflexivity|].
  destruct (H l (or_introl eq_refl)) as [Hf Hk].
  destruct ls as [|l2 ls].
  - cbn [join_lines]. rewrite (good_free _ Hf). exact Hk.
  - change (good (l ++ nl :: join_lines (l2 :: ls)) = true).
    rewrite (good_nl _ _ Hf), Hk. apply IH. intros l' Hl'. apply H. right. exact Hl'.
Qed.

Lemma good_cleaned_lines x :
  good (join_lines (filter (fun l => negb (is_removed l)) (split_lines x))) = true.
Proof.
  apply good_join. intros l Hl. apply filter_In in Hl as [Hl Hk].
  split; [apply (split_lines_nl_free x l Hl) | exact Hk].
Qed.


(** A text given by its lines. *)
Definition lines_text (ls : list string) : list ascii := join_lines (map str ls).

(** C6, two header lines in a row: the first header's match takes the
    newline before the second, so only the second pass puts a blank
    line after it. *)
Lemma clean_not_idempotent_headers :
  clean (lines_text ["x"; "## A"; "## B"; "y"]%string) =
    lines_text ["x"; ""; "## A"; ""; "## B"; "y"]%string /\
  clean (clean (lines_text ["x"; "## A"; "## B"; "y"]%string)) =
    lines_text ["x"; ""; "## A"; ""; "## B"; ""; "y"]%string.
Proof. vm_compute. split; reflexivity. Qed.


(* ================================================================= *)
(** ** The response formatter on every input                         *)
(* ================================================================= *)

Lemma split_lines_app_nl a x : split_lines (a ++ nl :: x) = split_lines a ++ split_lines x.
Proof.
  induction a as [|c a IH].
  - cbn [app split_lines]. rewrite Ascii.eqb_refl. reflexivity.
  - cbn [app split_lines]. destruct (Ascii.eqb c nl).
    + rewrite IH. reflexivity.
    + rewrite IH. destruct (split_lines_cons a) as [l [ls ->]]. reflexivity.
Qed.

Lemma good_app_nl a x : good (a ++ nl :: x) = good a && good x.
Proof. unfold good. rewrite split_lines_app_nl. apply forallb_app. Qed.

(** The spacing rules: a match is a newline, a text [g] and a newline;
    the replacement is [g] between one or more newlines on each side. *)
Definition spacing_match (m : list ascii -> option (list ascii * list ascii)) : Prop :=
  forall s r rest, m s = Some (r, rest) ->
    exists g a b, s = nl :: g ++ nl :: rest /\ r = repeat nl (S a) ++ g ++ repeat nl (S b).

Lemma sub_fuel_good m f : spacing_match m ->
  forall s p, nl_free p = true -> good (p ++ s) = true -> good (p ++ sub_fuel f m s) = true.
Proof.
  intros Hm. induction f as [|f IH]; intros s p Hp H; [exact H|].
  destruct s as [|c s']; [exact H|]. cbn [sub_fuel].
  destruct (m (c :: s')) as [[r rest]|] eqn:E.
  - destruct (Hm _ _ _ E) as [g [a [b [Es ->]]]]. rewrite Es in H.
    rewrite (good_nl _ _ Hp), good_app_nl in H.
    apply andb_prop in H as [Hk H]. apply andb_prop in H as [Hg Hr].
    cbn [repeat app]. rewrite <- !app_assoc. cbn [app].
    rewrite (good_nl _ _ Hp), Hk, good_repeat_nl. cbn [repeat app].
    rewrite good_app_nl, Hg, good_repeat_nl.
    apply (IH rest [] eq_refl). exact Hr.
  - destruct (Ascii.eqb c nl) eqn:Hc.
    + apply Ascii.eqb_eq in Hc. subst c.
      rewrite (good_nl _ _ Hp) in H. rewrite (good_nl _ _ Hp).
      apply andb_prop in H as [Hk H]. rewrite Hk. apply (IH s' [] eq_refl H).
    + replace (p ++ c :: sub_fuel f m s') with ((p ++ [c]) ++ sub_fuel f m s')
        by (rewrite <- app_assoc; reflexivity).
      apply IH; [rewrite nl_free_app, Hp, (nl_free_char _ Hc); reflexivity|].
      rewrite <- app_assoc. exact H.
Qed.

Lemma re_sub_good m s : spacing_match m -> good s = true -> good (re_sub m s) = true.
Proof. intros Hm H. unfold re_sub. exact (sub_fuel_good m _ Hm s [] eq_refl H). Qed.

Lemma match_line_spacing p a b :
  spacing_match (match_line p (fun g => repeat nl (S a) ++ g ++ repeat nl (S b))).
Proof.
  intros s r rest E. apply match_line_spec in E as [g [u [Es [Er _]]]].
  exists g, a, b. split; assumption.
Qed.

Lemma m_header_spacing : spacing_match m_header.
Proof. apply (match_line_spacing _ 1 1). Qed.

Lemma m_bullet_spacing : spacing_match m_bullet.
Proof. apply (match_line_spacing _ 0 0). Qed.

Lemma m_arrow_spacing : spacing_match m_arrow.
Proof. apply (match_line_spacing _ 1 1). Qed.

Lemma skipn_line lit u : skipn (S (length lit)) (lit ++ nl :: u) = u.
Proof. induction lit as [|c lit IH]; [reflexivity|]. exact IH. Qed.

Lemma m_section_spacing lit : spacing_match (m_section lit).
Proof.
  intros s r rest E. unfold m_section in E. destruct s as [|c t]; [discriminate|].
  destruct (Ascii.eqb c nl && starts_with (lit ++ [nl]) t) eqn:Hc; [|discriminate].
  apply andb_prop in Hc as [Hc Ht]. apply Ascii.eqb_eq in Hc. subst c.
  destruct (starts_with_spec _ _ Ht) as [u ->].
  rewrite <- app_assoc in E. change ([nl] ++ u) with (nl :: u) in E.
  rewrite skipn_line in E. injection E as <- <-.
  exists lit, 1, 1. split; [rewrite <- app_assoc|]; reflexivity.
Qed.

Lemma colon_split_spec t x r : colon_split t = (x, r) -> t = x ++ r.
Proof.
  revert x r. induction t as [|c t IH]; intros x r H; cbn [colon_split] in H.
  - injection H as <- <-. reflexivity.
  - destruct (Ascii.eqb c ":"). { injection H as <- <-. reflexivity. }
    destruct (colon_split t) as [x' r'] eqn:E. injection H as <- <-.
    rewrite (IH _ _ eq_refl). reflexivity.
Qed.

Lemma m_emoji_spacing : spacing_match m_emoji.
Proof.
  intros s r rest E.
  destruct s as [|c [|c1 [|c2 [|c3 t]]]]; try discriminate E;
    destruct c1 as [[] [] [] [] [] [] [] []]; try discriminate E;
    destruct c2 as [[] [] [] [] [] [] [] []]; try discriminate E;
    destruct c3 as [[] [] [] [] [] [] [] []]; try discriminate E.
  unfold m_emoji in E.
  destruct (Ascii.eqb c nl) eqn:Hc; [|discriminate E]. apply Ascii.eqb_eq in Hc. subst c.
  destruct (colon_split t) as [x r0] eqn:Ex. apply colon_split_spec in Ex. subst t.
  destruct x as [|x0 x]; [discriminate E|].
  destruct r0 as [|c4 [|c5 u]]; try discriminate E;
    destruct c4 as [[] [] [] [] [] [] [] []]; try discriminate E;
    destruct c5 as [[] [] [] [] [] [] [] []]; try discriminate E.
  destruct (line_split u) as [y r1] eqn:Ey.
  destruct (line_split_spec _ _ _ Ey) as [-> [->|[r' ->]]];
    destruct y as [|y0 y]; try discriminate E.
  injection E as <- <-.
  exists (str "- :" ++ (x0 :: x) ++ str ": " ++ (y0 :: y)), 0, 1. split.
  - cbn [str list_ascii_of_string app]. rewrite <- !app_assoc. reflexivity.
  - cbn [str list_ascii_of_string app repeat]. rewrite <- !app_assoc. reflexivity.
Qed.

(** Extra: for every response, the formatted text has no leading or
    trailing whitespace and no run of three or more newlines. *)
Theorem clean_stripped_no_triple_newline x :
  strip (clean x) = clean x /\ runs_ok 0 (clean x) = true.
Proof.
  destruct x as [|c x]; [split; reflexivity|]. unfold clean. cbv zeta. split.
  - apply strip_idem.
  - apply runs_ok_strip, runs_ok_collapse.
Qed.

(** Extra: for every response, no line of the formatted text is a line
    the cleaning loop removes (a [[debug]] line or a line naming both
    "Talked to" and "supabase.co"): the later substitutions only add
    newlines around whole lines. *)
Theorem clean_no_removed_line x : good (clean x) = true.
Proof.
  destruct x as [|c x]; [reflexivity|]. unfold clean. cbv zeta.
  apply good_strip. apply (good_collapse _ [] 0 eq_refl). cbn [repeat app].
  apply re_sub_good; [apply m_arrow_spacing|].
  apply re_sub_good; [apply m_section_spacing|].
  apply re_sub_good; [apply m_section_spacing|].
  apply re_sub_good; [apply m_section_spacing|].
  apply re_sub_good; [apply m_emoji_spacing|].
  apply re_sub_good; [apply m_bullet_spacing|].
  apply re_sub_good; [apply m_header_spacing|].
  apply good_strip, good_cleaned_lines.
Qed.

Lemma strip_head l c r : strip l = c :: r -> is_ws c = false.
Proof.
  unfold strip. intros H. destruct (rstrip_split (lstrip l)) as [w [Hw _]].
  rewrite H in Hw. apply (lstrip_fixed c (r ++ w)).
  rewrite app_comm_cons, <- Hw. apply lstrip_idem.
Qed.

Lemma rstrip_snoc l c : is_ws c = false -> rstrip (l ++ [c]) = l ++ [c].
Proof.
  intros Hc. unfold rstrip. rewrite rev_app_distr. cbn [rev app lstrip]. rewrite Hc.
  cbn [rev]. rewrite rev_involutive. reflexivity.
Qed.

(** *** What the formatter keeps *)

























(* ================================================================= *)
(** ** Title generation on every outcome                             *)
(* ================================================================= *)

Lemma str_unstr l : str (unstr l) = l.
Proof. apply list_ascii_of_string_of_list_ascii. Qed.

Lemma store_title_run env sid t s :
  store_title env sid t s =
    (if env_store_ok env (ETitle sid t true) then inr tt
     else inl (ExcOther "title update failed"),
     mkSt (st_trace s ++ [ETitle sid t (env_store_ok env (ETitle sid t true))]) (st_msgs s)).
Proof.
  unfold store_title, bind, tell, ret, throw. cbn [st_trace st_msgs].
  destruct (env_store_ok env (ETitle sid t true)); reflexivity.
Qed.

(** The fallback branch writes the fallback title, ignoring a failed
    write, and returns it. *)
Lemma fallback_run env sid t s :
  (catch (store_title env sid t) (fun _ => ret tt) ;;; ret t) s =
    (inr t, mkSt (st_trace s ++ [ETitle sid t (env_store_ok env (ETitle sid t true))]) (st_msgs s)).
Proof.
  unfold bind, catch. rewrite store_title_run.
  destruct (env_store_ok env (ETitle sid t true)); reflexivity.
Qed.

Lemma length_fallback um :
  length (str (if 30 <? length um then unstr (firstn 30 um ++ str "...") else unstr um)) <= 33.
Proof.
  destruct (30 <? length um) eqn:H; rewrite str_unstr.
  - rewrite length_app. pose proof (firstn_le_length 30 um).
    change (length (str "...")) with 3. lia.
  - apply Nat.ltb_ge in H. lia.
Qed.

Lemma length_generated g :
  length (str (if 50 <? length g then unstr (firstn 47 g ++ str "...") else unstr g)) <= 50.
Proof.
  destruct (50 <? length g) eqn:H; rewrite str_unstr.
  - rewrite length_app. pose proof (firstn_le_length 47 g).
    change (length (str "...")) with 3. lia.
  - apply Nat.ltb_ge in H. lia.
Qed.

(** Extra: [update_chat_title] never raises; it returns a title of at
    most 50 characters, and the last effect of the call is the write of
    that same title to the session (the flag records whether the write
    succeeded). *)
Theorem update_chat_title_returns_stored env sid user_message s :
  exists t pre b,
    update_chat_title env sid user_message s =
      (inr t, mkSt (st_trace s ++ pre ++ [ETitle sid t b]) (st_msgs s))
    /\ length (str t) <= 50.
Proof.
  unfold update_chat_title. cbv zeta.
  set (fb := if 30 <? length (str user_message)
             then unstr (firstn 30 (str user_message) ++ str "...") else user_message).
  assert (Hfb : length (str fb) <= 50).
  { pose proof (length_fallback (str user_message)) as H.
    unfold fb. unfold unstr, str in *. rewrite string_of_list_ascii_of_string in H. lia. }
  set (msgs := [MPlain _ _; MPlain _ _]).
  unfold catch at 1, bind at 1, tell at 1. cbn [st_trace st_msgs].
  destruct (env_title_model env) as [c|].
  - set (t := match strip (str c) with
              | [] => "New Chat"%string
              | _ => if 50 <? length (strip_chars [dq; "'"%char] (strip (str c)))
                     then unstr (firstn 47 (strip_chars [dq; "'"%char] (strip (str c))) ++ str "...")
                     else unstr (strip_chars [dq; "'"%char] (strip (str c)))
              end).
    assert (Ht : length (str t) <= 50).
    { unfold t. destruct (strip (str c)); [cbn; lia | apply length_generated]. }
    unfold bind at 1. rewrite store_title_run.
    destruct (env_store_ok env (ETitle sid t true)) eqn:Ho.
    + exists t, [ECreate CallTitle msgs], true. cbn [st_trace st_msgs].
      split; [|exact Ht]. unfold ret. rewrite <- app_assoc. reflexivity.
    + rewrite fallback_run. cbn [st_trace st_msgs].
      exists fb, [ECreate CallTitle msgs; ETitle sid t false], (env_store_ok env (ETitle sid fb true)).
      split; [|exact Hfb]. rewrite <- !app_assoc. reflexivity.
  - unfold throw at 1. rewrite fallback_run. cbn [st_trace st_msgs].
    exists fb, [ECreate CallTitle msgs], (env_store_ok env (ETitle sid fb true)).
    split; [|exact Hfb]. rewrite <- !app_assoc. reflexivity.
Qed.

(** [s.strip(chars)] of a text made only of those characters is empty. *)
Lemma strip_chars_all cs g :
  forallb (fun ch => existsb (Ascii.eqb ch) cs) g = true -> strip_chars cs g = [].
Proof.
  intros H. unfold strip_chars.
  assert (Hd : forall l, forallb (fun ch => existsb (Ascii.eqb ch) cs) l = true ->
    (fix drop (l : list ascii) := match l with
       | [] => [] | c :: l' => if existsb (Ascii.eqb c) cs then drop l' else l end) l = []).
  { induction l as [|c l IH]; intros Hl; [reflexivity|].
    cbn [forallb] in Hl. apply andb_prop in Hl as [Hc Hl]. rewrite Hc. apply IH, Hl. }
  rewrite (Hd g H). reflexivity.
Qed.

Lemma forallb_quotes l :
  forallb (fun ch => existsb (Ascii.eqb ch) [dq; "'"%char]) l
  = forallb (fun ch => Ascii.eqb ch dq || Ascii.eqb ch "'") l.
Proof.
  induction l as [|ch l IH]; [reflexivity|].
  change (existsb (Ascii.eqb ch) [dq; "'"%char]
          && forallb (fun ch => existsb (Ascii.eqb ch) [dq; "'"%char]) l
          = (Ascii.eqb ch dq || Ascii.eqb ch "'")
          && forallb (fun ch => Ascii.eqb ch dq || Ascii.eqb ch "'") l).
  rewrite IH. cbn [existsb]. rewrite orb_false_r. reflexivity.
Qed.

(** Extra: when the title model answers a non-blank text made only of
    quote characters, the quotes are stripped after the blank check, so
    the title update writes the empty string as the session's title
    (its last effect) and the empty string is returned. *)
Theorem update_chat_title_quotes_only env sid user_message c s :
  env_title_model env = Some c ->
  strip (str c) <> [] ->
  forallb (fun ch => Ascii.eqb ch dq || Ascii.eqb ch "'") (strip (str c)) = true ->
  env_store_ok env (ETitle sid "" true) = true ->
  exists pre,
    update_chat_title env sid user_message s =
      (inr ""%string, mkSt (st_trace s ++ pre ++ [ETitle sid "" true]) (st_msgs s)).
Proof.
  intros Hc Hne Hq Hok. eexists. unfold update_chat_title. cbv zeta.
  unfold catch at 1, bind at 1, tell at 1. rewrite Hc.
  assert (Hs : strip_chars [dq; "'"%char] (strip (str c)) = []).
  { apply strip_chars_all. rewrite forallb_quotes. exact Hq. }
  destruct (strip (str c)) as [|ch g] eqn:Eg; [contradiction|]. rewrite Hs.
  cbn [length Nat.ltb Nat.leb unstr string_of_list_ascii].
  unfold bind at 1. rewrite store_title_run, Hok. cbn [st_trace st_msgs].
  rewrite <- app_assoc. reflexivity.
Qed.

(** An environment whose title model answers [answer]. *)
Definition title_env (answer : string) : Env :=
  mkEnv "https://example.supabase.co/functions/v1"%string store_all [] "2025-01-15"%string
    "2025"%string (fun _ _ => Created []) (Some answer) (fun _ => NetResponse 200 "{}"%string).

Lemma update_chat_title_quotes_only_witness :
  let c := unstr [" "%char; dq; "'"%char; "'"%char; dq; nl] in
  exists pre,
    update_chat_title (title_env c) "s1" "Show me sales" init_st =
      (inr ""%string, mkSt (st_trace init_st ++ pre ++ [ETitle "s1" "" true]) (st_msgs init_st)).
Proof.
  intros c. apply (update_chat_title_quotes_only (title_env c) "s1" "Show me sales" c init_st).
  - reflexivity.
  - vm_compute. discriminate.
  - vm_compute. reflexivity.
  - reflexivity.
Defined.

(* ================================================================= *)
(** ** The gateway on arguments that are not a mapping               *)
(* ================================================================= *)

Definition is_mapping (v : JValue) : bool :=
  match v with JObj _ => true | _ => false end.

(** Extra: for a function routed by GET, a truthy argument value that is
    not an object (a list, a string, a non-zero number, [true]) makes
    [urlencode] raise [TypeError] before any request: the gateway sends
    nothing and returns an "Unexpected error" object. *)
Theorem call_supabase_edge_get_non_mapping env fn_name args s :
  dict_get HTTP_METHODS fn_name "POST" = "GET"%string ->
  j_truthy args = true ->
  is_mapping args = false ->
  call_supabase_edge env fn_name args s =
    (inr (JObj [("error"%string,
                 JStr "Unexpected error calling Supabase function: not a valid non-string sequence or mapping object")]),
     s).
Proof.
  intros Hm Ht Ha. unfold call_supabase_edge, call_supabase_edge_body. cbv zeta.
  rewrite Hm. cbn [String.eqb Ascii.eqb Bool.eqb andb]. rewrite Ht.
  destruct args; try discriminate Ha; reflexivity.
Qed.

Lemma call_supabase_edge_get_non_mapping_witness :
  call_supabase_edge (title_env "") "getTopProducts" (JArr [JNum "5"]) init_st =
    (inr (JObj [("error"%string,
                 JStr "Unexpected error calling Supabase function: not a valid non-string sequence or mapping object")]),
     init_st).
Proof.
  apply call_supabase_edge_get_non_mapping; vm_compute; reflexivity.
Defined.

(* ================================================================= *)
(** ** Chat sessions: tables, session functions and routes           *)
(* ================================================================= *)

(** The rows of [chat_sessions] and [chat_messages]; [id] and
    [created_at] are filled in by the database. *)
Record SessionRow : Type := mkSessionRow {
  sr_id : string;
  sr_user_id : string;
  sr_title : string;
  sr_created_at : Z
}.

Record MessageRow : Type := mkMessageRow {
  mr_id : string;
  mr_session_id : string;
  mr_role : string;
  mr_content : string;
  mr_created_at : Z
}.

(** The two tables, read and written through the Supabase client. *)
Record DB : Type := mkDB {
  db_sessions : list SessionRow;
  db_messages : list MessageRow
}.

(** The exceptions of the session functions: [ValueError] and any
    other [Exception] (among them the database client's errors). *)
Inductive SessExc : Type :=
| ValueError (msg : string)
| PlainException (msg : string).

(** What one [execute()] of the database client does: it succeeds, or
    it raises an exception with the given message. *)
Inductive Exec : Type :=
| ExecOk
| ExecRaises (msg : string).

(** What the insert of [create_session_optimized] does: it inserts the
    row and returns it; it returns no data (nothing was inserted); or it
    raises. *)
Inductive InsExec : Type :=
| InsOk
| InsNoData
| InsRaises (msg : string).

(** What the session delete of [delete_chat_session_optimized] does: it
    removes the rows with the id and returns them; it removes no row and
    returns none (as when a row-level policy hides the row from the
    delete); or it raises. *)
Inductive DelExec : Type :=
| DelOk
| DelNone
| DelRaises (msg : string).

(** The outcomes of the three [execute()] calls of
    [delete_chat_session_optimized]: the ownership check, the delete of
    the messages and the delete of the session. *)
Record DeleteExecs : Type := mkDeleteExecs {
  dx_check : Exec;
  dx_messages : Exec;
  dx_session : DelExec
}.

(** The outcome of a route: the response body, or the [HTTPException]
    it raises. *)
Inductive HttpResult (A : Type) : Type :=
| HttpOk (body : A)
| HttpError (status_code : Z) (detail : string).

Arguments HttpOk {A} body.
Arguments HttpError {A} status_code detail.

(** [not s or not s.strip()] *)
Definition blank (s : string) : bool := match strip (str s) with [] => true | _ => false end.

(** *** A Python dict with string keys, in insertion order *)

Fixpoint dict_lookup {V} (k : string) (d : list (string * V)) : option V :=
  match d with
  | [] => None
  | (k', v) :: d' => if String.eqb k' k then Some v else dict_lookup k d'
  end.

(** [d[k] = v]: an existing key keeps its place. *)
Fixpoint dict_set {V} (k : string) (v : V) (d : list (string * V)) : list (string * V) :=
  match d with
  | [] => [(k, v)]
  | (k', v') :: d' => if String.eqb k' k then (k, v) :: d' else (k', v') :: dict_set k v d'
  end.

(** [del d[k]] for a key of [d]. *)
Fixpoint dict_del {V} (k : string) (d : list (string * V)) : list (string * V) :=
  match d with
  | [] => []
  | (k', v') :: d' => if String.eqb k' k then d' else (k', v') :: dict_del k d'
  end.

(** *** The response cache of the routes ([_sessions_cache]) *)

Local Open Scope Q_scope.

(** [{'data': data, 'timestamp': time.time()}]; the clock is read as a
    rational number of seconds. *)
Record CacheEntry (D : Type) : Type := mkCacheEntry {
  ce_data : D;
  ce_timestamp : Q
}.

Arguments mkCacheEntry {D} ce_data ce_timestamp.
Arguments ce_data {D} c.
Arguments ce_timestamp {D} c.

Definition Cache (D : Type) : Type := list (string * CacheEntry D).

Definition _sessions_cache_ttl : Q := 60.

(** [<] on the clock readings. *)
Definition q_lt (a b : Q) : bool := match Qcompare a b with Lt => true | _ => false end.

Definition generate_sessions_cache_key (user_id : string) (page pagination : Z) : string :=
  ("sessions:" ++ user_id ++ ":" ++ show_Z page ++ ":" ++ show_Z pagination)%string.

Definition get_cached_sessions {D} (now : Q) (cache_key : string) (c : Cache D)
  : option D * Cache D :=
  match dict_lookup cache_key c with
  | Some cache_entry =>
      if q_lt (now - ce_timestamp cache_entry) _sessions_cache_ttl
      then (Some (ce_data cache_entry), c)
      else (None, dict_del cache_key c)
  | None => (None, c)
  end.

Definition cache_sessions {D} (now : Q) (cache_key : string) (data : D) (c : Cache D) : Cache D :=
  dict_set cache_key (mkCacheEntry data now) c.

(** [clear_sessions_cache(user_id=None)]: a truthy [user_id] removes the
    keys containing [sessions:{user_id}:], anything else clears all. *)
Definition clear_sessions_cache {D} (user_id : option string) (c : Cache D) : Cache D :=
  match user_id with
  | Some u =>
      if String.eqb u "" then []
      else
        let keys_to_remove :=
          filter (fun key => contains (str ("sessions:" ++ u ++ ":")) (str key)) (map fst c) in
        fold_left (fun c key => dict_del key c) keys_to_remove c
  | None => []
  end.

Local Close Scope Q_scope.

(** *** The session-creation rate limit *)

(** [_session_creation_attempts], a [defaultdict(list)]: the attempt
    times of each user, as [datetime] values in microseconds. *)
Definition Attempts : Type := string -> list Z.

Definition no_attempts : Attempts := fun _ => [].

Definition attempts_set (a : Attempts) (u : string) (v : list Z) : Attempts :=
  fun u' => if String.eqb u' u then v else a u'.

(** [timedelta(hours=1)] in microseconds. *)
Definition one_hour : Z := (3600 * 1000000)%Z.

Definition _max_session_creation_per_hour : nat := 20.

Definition check_session_creation_rate_limit (now : Z) (user_id : string) (a : Attempts)
  : bool * Attempts :=
  let hour_ago := (now - one_hour)%Z in
  let a := attempts_set a user_id (filter (fun attempt_time => (hour_ago <? attempt_time)%Z)
                                          (a user_id)) in
  if _max_session_creation_per_hour <=? length (a user_id) then (false, a)
  else (true, attempts_set a user_id (a user_id ++ [now])).

(** *** [create_session_optimized] *)

(** The database fills in [id] and [created_at] of the inserted row;
    [ins] is what the insert does. *)
Definition create_session_optimized (new_id : string) (created_at : Z)
  (user_id : string) (title : option string) (ins : InsExec) (db : DB)
  : (SessExc + SessionRow) * DB :=
  if String.eqb user_id "" then (inl (ValueError "user_id is required"), db)
  else
    let title :=
      match title with
      | Some t =>
          if String.eqb t "" then title
          else
            let t := strip (str t) in
            let t := if 200 <? length t then firstn 200 t ++ str "..." else t in
            match t with [] => None | _ => Some (unstr t) end
      | None => None
      end in
    let row := mkSessionRow new_id user_id
                 (match title with
                  | Some t => if String.eqb t "" then "New Chat" else t
                  | None => "New Chat"
                  end)%string created_at in
    (* [resp = supabase.table("chat_sessions").insert(session_data).execute()] *)
    match ins with
    | InsOk => (inr row, mkDB (db_sessions db ++ [row]) (db_messages db))
    | InsNoData => (inl (PlainException "Failed to create session - no data returned"), db)
    | InsRaises m => (inl (PlainException m), db)
    end.

(** Successive calls of [check_session_creation_rate_limit], each with
    its user and clock reading; the accepted calls, in order. *)
Fixpoint limiter_run (a : Attempts) (calls : list (string * Z)) : list (string * Z) * Attempts :=
  match calls with
  | [] => ([], a)
  | (u, now) :: cs =>
      let (ok, a') := check_session_creation_rate_limit now u a in
      let (acc, a'') := limiter_run a' cs in
      ((if ok then [(u, now)] else []) ++ acc, a'')
  end.

Definition times_of (u : string) (acc : list (string * Z)) : list Z :=
  map snd (filter (fun p => String.eqb (fst p) u) acc).

(** The number of accepted calls of [u] in the hour [(T - 1h, T]]. *)
Definition window_count (u : string) (T : Z) (acc : list (string * Z)) : nat :=
  length (filter (fun t => (T - one_hour <? t)%Z && (t <=? T)%Z) (times_of u acc)).

Fixpoint nondecreasing (l : list Z) : bool :=
  match l with
  | x :: ((y :: _) as l') => (x <=? y)%Z && nondecreasing l'
  | _ => true
  end.

Lemma nondecreasing_cons2 x y l :
  nondecreasing (x :: y :: l) = (x <=? y)%Z && nondecreasing (y :: l).
Proof. reflexivity. Qed.

Lemma filter_length_mono {A} (f g : A -> bool) l :
  (forall x, f x = true -> g x = true) -> length (filter f l) <= length (filter g l).
Proof.
  intros H. induction l as [|x l IH]; [reflexivity|]. cbn [filter].
  destruct (f x) eqn:Ef; [rewrite (H x Ef); cbn [length]; lia|].
  destruct (g x); cbn [length]; lia.
Qed.

Lemma filter_filter_impl {A} (f g : A -> bool) l :
  (forall x, f x = true -> g x = true) -> filter f (filter g l) = filter f l.
Proof.
  intros H. induction l as [|x l IH]; [reflexivity|]. cbn [filter].
  destruct (g x) eqn:Eg; cbn [filter]; rewrite IH; [reflexivity|].
  destruct (f x) eqn:Ef; [rewrite (H x Ef) in Eg; discriminate | reflexivity].
Qed.

Lemma times_of_snoc u u0 t0 prev :
  times_of u (prev ++ [(u0, t0)]) = times_of u prev ++ (if String.eqb u0 u then [t0] else []).
Proof.
  unfold times_of. rewrite filter_app, map_app. cbn [filter fst].
  destruct (String.eqb u0 u); reflexivity.
Qed.

(** The attempts kept for each user are its accepted calls of the last
    hour, seen from any later clock reading. *)
Definition limiter_inv (a : Attempts) (prev : list (string * Z)) (m : Z) : Prop :=
  forall u now, (m <= now)%Z ->
    filter (fun t => (now - one_hour <? t)%Z) (a u)
    = filter (fun t => (now - one_hour <? t)%Z) (times_of u prev).

Lemma limiter_window_gen calls : forall a prev m,
  limiter_inv a prev m ->
  Forall (fun p => (snd p <= m)%Z) prev ->
  (forall u T, window_count u T prev <= 20) ->
  nondecreasing (m :: map snd calls) = true ->
  forall u T, window_count u T (prev ++ fst (limiter_run a calls)) <= 20.
Proof.
  induction calls as [|[u0 now0] cs IH]; intros a prev m Hinv Hle Hw Hnd u T.
  { cbn [limiter_run fst]. rewrite app_nil_r. apply Hw. }
  cbn [map snd] in Hnd. rewrite nondecreasing_cons2 in Hnd.
  apply andb_prop in Hnd as [Hm Hnd]. apply Z.leb_le in Hm.
  cbn [limiter_run]. unfold check_session_creation_rate_limit. cbv zeta.
  set (kept := filter (fun t => (now0 - one_hour <? t)%Z) (a u0)).
  set (a1 := attempts_set a u0 kept).
  assert (Ha1 : a1 u0 = kept) by (unfold a1, attempts_set; rewrite String.eqb_refl; reflexivity).
  rewrite Ha1.
  (* a1 keeps the invariant at the new reading *)
  assert (Hinv1 : forall u now, (now0 <= now)%Z ->
            filter (fun t => (now - one_hour <? t)%Z) (a1 u)
            = filter (fun t => (now - one_hour <? t)%Z) (times_of u prev)).
  { intros u' now Hn. unfold a1, attempts_set. destruct (String.eqb u' u0) eqn:Eu.
    - apply String.eqb_eq in Eu. subst u'. unfold kept.
      rewrite filter_filter_impl by (intros t Ht; apply Z.ltb_lt in Ht; apply Z.ltb_lt; lia).
      apply Hinv. lia.
    - apply Hinv. lia. }
  destruct (_max_session_creation_per_hour <=? length kept) eqn:Hfull.
  - destruct (limiter_run a1 cs) as [acc a''] eqn:Er. cbn [fst app].
    replace acc with (fst (limiter_run a1 cs)) by (rewrite Er; reflexivity).
    apply (IH a1 prev now0); [exact Hinv1| |exact Hw|exact Hnd].
    eapply Forall_impl; [|exact Hle]. intros p Hp. cbn beta in Hp. lia.
  - destruct (limiter_run (attempts_set a1 u0 (kept ++ [now0])) cs) as [acc a''] eqn:Er.
    cbn [fst]. rewrite app_assoc.
    replace acc with (fst (limiter_run (attempts_set a1 u0 (kept ++ [now0])) cs))
      by (rewrite Er; reflexivity).
    apply (IH _ _ now0); [| | |exact Hnd].
    + intros u' now Hn. rewrite times_of_snoc. unfold attempts_set at 1.
      destruct (String.eqb u' u0) eqn:Eu.
      * apply String.eqb_eq in Eu. subst u'. rewrite String.eqb_refl, !filter_app.
        rewrite <- (Hinv1 u0 now Hn), Ha1. reflexivity.
      * rewrite (proj2 (String.eqb_neq u0 u')) by (intros ->; rewrite String.eqb_refl in Eu; discriminate).
        rewrite app_nil_r. rewrite <- (Hinv1 u' now Hn). unfold a1, attempts_set. rewrite Eu. reflexivity.
    + apply Forall_app. split; [|repeat constructor; cbn; lia].
      eapply Forall_impl; [|exact Hle]. intros p Hp. cbn beta in Hp. lia.
    + intros u' T'. unfold window_count. rewrite times_of_snoc, filter_app, length_app.
      destruct (String.eqb u0 u') eqn:Eu; [|cbn [filter length]; rewrite Nat.add_0_r; apply Hw].
      apply String.eqb_eq in Eu. subst u'. cbn [filter].
      destruct ((T' - one_hour <? now0)%Z && (now0 <=? T')%Z) eqn:Hin;
        [|cbn [length]; rewrite Nat.add_0_r; apply Hw].
      apply andb_prop in Hin as [Hin1 Hin2]. apply Z.ltb_lt in Hin1. apply Z.leb_le in Hin2.
      cbn [length]. apply Nat.leb_gt in Hfull. unfold _max_session_creation_per_hour in Hfull.
      enough (length (filter (fun t => (T' - one_hour <? t)%Z && (t <=? T')%Z) (times_of u0 prev))
              <= length kept) by lia.
      unfold kept. rewrite (Hinv u0 now0 Hm).
      apply filter_length_mono. intros t Ht. apply andb_prop in Ht as [Ht _].
      apply Z.ltb_lt in Ht. apply Z.ltb_lt. lia.
Qed.

(** Extra: along any sequence of session-creation attempts whose clock
    readings do not decrease, starting from no recorded attempts, no
    user has more than 20 accepted attempts within any one hour
    [(T - 1h, T]]. *)
Theorem rate_limit_at_most_20_per_hour calls u T :
  nondecreasing (map snd calls) = true ->
  window_count u T (fst (limiter_run no_attempts calls)) <= 20.
Proof.
  intros Hnd.
  apply (limiter_window_gen calls no_attempts [] (match calls with (_, t) :: _ => t | [] => 0%Z end)).
  - intros u' now _. reflexivity.
  - constructor.
  - intros u' T'. unfold window_count, times_of. cbn. lia.
  - destruct calls as [|[u0 t0] cs]; [reflexivity|]. cbn [map].
    rewrite nondecreasing_cons2, Z.leb_refl. exact Hnd.
Qed.

(** *** The route state and [create_chat] *)

(** An entry of the sessions list. *)
Record SessionSummary : Type := mkSessionSummary {
  ss_id : string;
  ss_title : string;
  ss_created_at : Z;
  ss_message_count : Z;
  ss_last_message : string;
  ss_last_message_time : option Z
}.

(** The dict returned by [get_user_chat_sessions_optimized]. *)
Record SessionsPage : Type := mkSessionsPage {
  sp_sessions : list SessionSummary;
  sp_total_sessions : Z;
  sp_page : Z;
  sp_pagination : Z;
  sp_total_pages : Z;
  sp_has_next : bool;
  sp_has_prev : bool
}.

(** The dict returned by [get_chat_detail] and [get_chat_detail_optimized]. *)
Record ChatDetail : Type := mkChatDetail {
  cd_session_id : string;
  cd_title : string;
  cd_created_at : Z;
  cd_user_id : string;
  cd_messages : list MessageRow;
  cd_total_messages : Z
}.

(** [_sessions_cache] holds session lists and chat details. *)
Inductive CacheData : Type :=
| CachedSessions (p : SessionsPage)
| CachedDetail (d : ChatDetail).

(** The module-level state of the routes and the database. *)
Record RouteState : Type := mkRouteState {
  rs_attempts : Attempts;
  rs_cache : Cache CacheData;
  rs_db : DB
}.

(** [POST /chat/create_chat] for the authenticated user [auth_user_id]
    and the request [{user_id, title}]; [now] is [datetime.now()],
    [new_id], [created_at] are generated by the database and [ins] is
    what its insert does. *)
Definition create_chat (auth_user_id req_user_id : string) (req_title : option string)
  (now : Z) (new_id : string) (created_at : Z) (ins : InsExec) (st : RouteState)
  : HttpResult SessionRow * RouteState :=
  if negb (String.eqb req_user_id auth_user_id) then
    (HttpError 403 "User ID mismatch - you can only create sessions for yourself", st)
  else
    let (ok, attempts) := check_session_creation_rate_limit now auth_user_id (rs_attempts st) in
    let st := mkRouteState attempts (rs_cache st) (rs_db st) in
    if negb ok then
      (HttpError 429 "Too many session creation attempts. Please try again later.", st)
    else
      (* [if req.title: req.title = req.title.strip(); if len(req.title) > 200: raise] *)
      let checked :=
        match req_title with
        | Some t =>
            if String.eqb t "" then inr req_title
            else let t := strip (str t) in
                 if 200 <? length t then inl tt else inr (Some (unstr t))
        | None => inr None
        end in
      match checked with
      | inl _ => (HttpError 400 "Session title must be 200 characters or less", st)
      | inr title =>
          match create_session_optimized new_id created_at req_user_id title ins (rs_db st) with
          | (inl _, db) =>
              (HttpError 500 "Failed to create session. Please try again.",
               mkRouteState (rs_attempts st) (rs_cache st) db)
          | (inr session, db) =>
              (HttpOk session,
               mkRouteState (rs_attempts st) (clear_sessions_cache (Some auth_user_id) (rs_cache st)) db)
          end
      end.

(** *** Properties of session creation *)

(** A stripped text cut to [n > 0] characters and followed by ["..."]
    is still stripped. *)
Lemma strip_truncated g n :
  strip g = g -> g <> [] -> strip (firstn (S n) g ++ str "...") = firstn (S n) g ++ str "...".
Proof.
  intros Hg Hne. destruct g as [|c r]; [contradiction|].
  pose proof (strip_head _ _ _ Hg) as Hc. cbn [firstn app].
  unfold strip. cbn [lstrip]. rewrite Hc.
  replace (c :: firstn n r ++ str "...") with ((c :: firstn n r ++ str "..") ++ ["."%char])
    by (cbn [str list_ascii_of_string app]; rewrite <- app_assoc; reflexivity).
  apply rstrip_snoc. reflexivity.
Qed.

(** Extra: [create_session_optimized] for a non-empty user id builds one
    row for that user; its title is never empty, has no surrounding
    whitespace and has at most 203 characters, and it is "New Chat" when
    no title, or a blank one, is given.  When the insert succeeds the row
    is appended to [chat_sessions] and returned; when the insert returns
    no data or raises, the function raises a plain exception ("Failed to
    create session - no data returned", or the client's message) and
    nothing is written. *)
Theorem create_session_optimized_title new_id created_at user_id title ins db :
  user_id <> ""%string ->
  exists row,
    create_session_optimized new_id created_at user_id title ins db
      = match ins with
        | InsOk => (inr row, mkDB (db_sessions db ++ [row]) (db_messages db))
        | InsNoData => (inl (PlainException "Failed to create session - no data returned"), db)
        | InsRaises m => (inl (PlainException m), db)
        end
    /\ sr_id row = new_id /\ sr_user_id row = user_id /\ sr_created_at row = created_at
    /\ str (sr_title row) <> []
    /\ strip (str (sr_title row)) = str (sr_title row)
    /\ length (str (sr_title row)) <= 203
    /\ (match title with Some t => strip (str t) = [] | None => True end ->
        sr_title row = "New Chat"%string).
Proof.
  intros Hu. unfold create_session_optimized.
  destruct (String.eqb user_id "") eqn:Eu; [apply String.eqb_eq in Eu; contradiction|].
  cbv zeta. eexists. split; [reflexivity|]. cbn [sr_id sr_user_id sr_title sr_created_at].
  do 3 (split; [reflexivity|]).
  destruct title as [t|].
  2:{ refine (conj _ (conj _ (conj _ _))); [discriminate | reflexivity | cbn; lia | intros; reflexivity]. }
  destruct (String.eqb t "") eqn:Et.
  { apply String.eqb_eq in Et. subst t. cbn [String.eqb].
    refine (conj _ (conj _ (conj _ _))); [discriminate | reflexivity | cbn; lia | intros; reflexivity]. }
  set (g := strip (str t)).
  assert (Hg : strip g = g) by apply strip_idem.
  destruct g as [|c r] eqn:Eg.
  { refine (conj _ (conj _ (conj _ _))); [discriminate | reflexivity | cbn; lia | intros; reflexivity]. }
  assert (Hne : c :: r <> []) by discriminate.
  destruct (200 <? length (c :: r)) eqn:Hlen.
  - set (l := firstn 200 (c :: r) ++ str "...").
    assert (Hl : l <> []) by (unfold l; cbn; discriminate).
    destruct l as [|d l'] eqn:El; [contradiction|].
    assert (Hs : unstr (d :: l') <> ""%string).
    { intros H. apply (f_equal str) in H. rewrite str_unstr in H. discriminate H. }
    rewrite (proj2 (String.eqb_neq _ _) Hs). rewrite str_unstr.
    split; [discriminate|]. split.
    + rewrite <- El. unfold l. apply (strip_truncated _ 199 Hg Hne).
    + split.
      * rewrite <- El. unfold l. rewrite length_app. pose proof (firstn_le_length 200 (c :: r)).
        change (length (str "...")) with 3. lia.
      * intros H. discriminate H.
  - assert (Hs : unstr (c :: r) <> ""%string).
    { intros H. apply (f_equal str) in H. rewrite str_unstr in H. discriminate H. }
    rewrite (proj2 (String.eqb_neq _ _) Hs). rewrite str_unstr.
    split; [discriminate|]. split; [exact Hg|]. split.
    + apply Nat.ltb_ge in Hlen. lia.
    + intros H. discriminate H.
Qed.

(** The title [create_chat] is expected to store: the stripped request
    title, or "New Chat" when it is missing or blank. *)
Definition requested_title (title : option string) : string :=
  match title with
  | Some t => match strip (str t) with [] => "New Chat"%string | g => unstr g end
  | None => "New Chat"%string
  end.

(** Extra: a [create_chat] request of the authenticated user (a
    non-empty id) that the rate limit admits and whose stripped title
    has at most 200 characters, when the insert succeeds, appends one
    session row for that user whose title is the stripped request title,
    or "New Chat" for a missing or blank one, returns it and clears the
    user's cached session lists; the route's length check means the
    ["..."] truncation of [create_session_optimized] never applies.
    When the insert returns no data or raises, it answers 500 "Failed to
    create session. Please try again.", writes nothing and leaves the
    cache, the attempt being recorded all the same. *)
Theorem create_chat_stores_stripped_title auth title now new_id created_at ins st :
  auth <> ""%string ->
  fst (check_session_creation_rate_limit now auth (rs_attempts st)) = true ->
  (forall t, title = Some t -> length (strip (str t)) <= 200) ->
  let row := mkSessionRow new_id auth (requested_title title) created_at in
  let attempts := snd (check_session_creation_rate_limit now auth (rs_attempts st)) in
  create_chat auth auth title now new_id created_at ins st =
    match ins with
    | InsOk =>
        (HttpOk row,
         mkRouteState attempts (clear_sessions_cache (Some auth) (rs_cache st))
           (mkDB (db_sessions (rs_db st) ++ [row]) (db_messages (rs_db st))))
    | _ =>
        (HttpError 500 "Failed to create session. Please try again.",
         mkRouteState attempts (rs_cache st) (rs_db st))
    end.
Proof.
  intros Hu Hok Hlen row. cbv zeta. unfold create_chat. rewrite String.eqb_refl. cbn [negb].
  destruct (check_session_creation_rate_limit now auth (rs_attempts st)) as [ok a'] eqn:Ec.
  cbn [fst snd] in Hok |- *. subst ok. cbn [negb rs_db rs_cache rs_attempts].
  unfold create_session_optimized.
  destruct (String.eqb auth "") eqn:Eu; [apply String.eqb_eq in Eu; contradiction|].
  destruct title as [t|].
  2:{ destruct ins; reflexivity. }
  destruct (String.eqb t "") eqn:Et.
  { apply String.eqb_eq in Et. subst t. destruct ins; reflexivity. }
  pose proof (Hlen t eq_refl) as Ht. apply Nat.ltb_ge in Ht. rewrite Ht. cbv zeta.
  unfold row, requested_title.
  destruct (strip (str t)) as [|c r] eqn:Eg.
  { destruct ins; reflexivity. }
  assert (Hs : unstr (c :: r) <> ""%string).
  { intros H. apply (f_equal str) in H. rewrite str_unstr in H. discriminate H. }
  rewrite (proj2 (String.eqb_neq _ _) Hs), str_unstr, <- Eg, strip_idem, Eg, Ht.
  rewrite (proj2 (String.eqb_neq _ _) Hs). destruct ins; reflexivity.
Qed.

Lemma create_chat_stores_stripped_title_witness :
  create_chat "u1" "u1" (Some "  Q3 revenue review  "%string) 1000 "s1" 1000 InsOk
    (mkRouteState no_attempts [] (mkDB [] []))
  = (HttpOk (mkSessionRow "s1" "u1" (requested_title (Some "  Q3 revenue review  "%string)) 1000),
     mkRouteState (snd (check_session_creation_rate_limit 1000 "u1" no_attempts))
       (clear_sessions_cache (Some "u1"%string) [])
       (mkDB ([] ++ [mkSessionRow "s1" "u1" (requested_title (Some "  Q3 revenue review  "%string)) 1000]) [])).
Proof.
  apply (create_chat_stores_stripped_title "u1" (Some "  Q3 revenue review  "%string) 1000 "s1" 1000
           InsOk (mkRouteState no_attempts [] (mkDB [] []))).
  - discriminate.
  - vm_compute. reflexivity.
  - intros t Ht. injection Ht as <-. vm_compute. lia.
Defined.

(** Extra: a [create_chat] request refused with 400 for a title longer
    than 200 characters (after stripping) writes nothing to the
    database and leaves the cache as it was, but the attempt has
    already been recorded against the user's hourly limit; the other
    users' attempts are untouched. *)
Theorem create_chat_long_title_uses_attempt auth t now new_id created_at ins st :
  fst (check_session_creation_rate_limit now auth (rs_attempts st)) = true ->
  200 < length (strip (str t)) ->
  exists st',
    create_chat auth auth (Some t) now new_id created_at ins st
      = (HttpError 400 "Session title must be 200 characters or less", st')
    /\ rs_db st' = rs_db st /\ rs_cache st' = rs_cache st
    /\ (exists kept, rs_attempts st' auth = kept ++ [now])
    /\ (forall u, u <> auth -> rs_attempts st' u = rs_attempts st u).
Proof.
  intros Hok Hlen. unfold create_chat. rewrite String.eqb_refl. cbn [negb].
  assert (Hrl := Hok). unfold check_session_creation_rate_limit in Hok |- *. cbv zeta in Hok |- *.
  destruct (_max_session_creation_per_hour <=? _) eqn:Hfull; cbn [fst] in Hok; [discriminate|].
  cbn [negb rs_db rs_cache rs_attempts].
  destruct (String.eqb t "") eqn:Et.
  { apply String.eqb_eq in Et. subst t. cbn in Hlen. lia. }
  apply Nat.ltb_lt in Hlen. rewrite Hlen.
  eexists. split; [reflexivity|]. cbn [rs_db rs_cache rs_attempts].
  split; [reflexivity|]. split; [reflexivity|]. split.
  - eexists. unfold attempts_set at 1. rewrite String.eqb_refl. reflexivity.
  - intros u Hu. unfold attempts_set. apply String.eqb_neq in Hu. rewrite Hu. reflexivity.
Qed.

Lemma create_chat_long_title_uses_attempt_witness :
  let st := mkRouteState no_attempts [] (mkDB [] []) in
  exists st',
    create_chat "u1" "u1" (Some (unstr (repeat "a"%char 201))) 1000 "s1" 1000 InsOk st
      = (HttpError 400 "Session title must be 200 characters or less", st')
    /\ rs_db st' = rs_db st /\ rs_cache st' = rs_cache st
    /\ (exists kept, rs_attempts st' "u1"%string = kept ++ [1000%Z])
    /\ (forall u, u <> "u1"%string -> rs_attempts st' u = rs_attempts st u).
Proof.
  intros st. apply create_chat_long_title_uses_attempt.
  - vm_compute. reflexivity.
  - vm_compute. lia.
Defined.

(** *** Properties of the response cache *)

Lemma q_lt_spec a b : q_lt a b = true <-> (a < b)%Q.
Proof.
  unfold q_lt. rewrite Qlt_alt. destruct (a ?= b)%Q; split; congruence.
Qed.

Lemma dict_lookup_set_same {V} k v (d : list (string * V)) : dict_lookup k (dict_set k v d) = Some v.
Proof.
  induction d as [|[k' v'] d IH]; cbn [dict_set dict_lookup]; [rewrite String.eqb_refl; reflexivity|].
  destruct (String.eqb k' k) eqn:E; cbn [dict_lookup]; [rewrite String.eqb_refl; reflexivity|].
  rewrite E. exact IH.
Qed.

Lemma dict_lookup_del {V} k k' (d : list (string * V)) : NoDup (map fst d) ->
  dict_lookup k (dict_del k' d) = if String.eqb k' k then None else dict_lookup k d.
Proof.
  induction d as [|[k0 v0] d IH]; intros Hd; cbn [dict_del dict_lookup].
  { destruct (String.eqb k' k); reflexivity. }
  inversion Hd as [|? ? Hnin Hd']; subst. cbn [fst] in Hnin.
  destruct (String.eqb k0 k') eqn:E0.
  - apply String.eqb_eq in E0. subst k0. destruct (String.eqb k' k) eqn:E; [|reflexivity].
    apply String.eqb_eq in E. subst k'.
    clear - Hnin. induction d as [|[k1 v1] d IH]; [reflexivity|]. cbn [dict_lookup].
    cbn [map fst] in Hnin. destruct (String.eqb k1 k) eqn:E1.
    + apply String.eqb_eq in E1. subst. exfalso. apply Hnin. left. reflexivity.
    + apply IH. intros H. apply Hnin. right. exact H.
  - cbn [dict_lookup]. rewrite (IH Hd').
    destruct (String.eqb k0 k) eqn:E; destruct (String.eqb k' k) eqn:E'; try reflexivity.
    apply String.eqb_eq in E. apply String.eqb_eq in E'. subst. rewrite String.eqb_refl in E0. discriminate.
Qed.

Lemma dict_del_keys {V} k (d : list (string * V)) : incl (map fst (dict_del k d)) (map fst d).
Proof.
  induction d as [|[k0 v0] d IH]; cbn [dict_del]; [apply incl_refl|].
  destruct (String.eqb k0 k); cbn [map fst]; [apply incl_tl, incl_refl|].
  apply incl_cons; [left; reflexivity|]. apply incl_tl, IH.
Qed.

Lemma dict_del_nodup {V} k (d : list (string * V)) : NoDup (map fst d) -> NoDup (map fst (dict_del k d)).
Proof.
  induction d as [|[k0 v0] d IH]; intros Hd; cbn [dict_del]; [constructor|].
  inversion Hd as [|? ? Hnin Hd']; subst.
  destruct (String.eqb k0 k); [exact Hd'|]. cbn [map fst]. constructor; [|apply IH, Hd'].
  intros H. apply Hnin. apply (dict_del_keys k d), H.
Qed.

Lemma dict_lookup_none {V} k (d : list (string * V)) : ~ In k (map fst d) -> dict_lookup k d = None.
Proof.
  induction d as [|[k0 v0] d IH]; intros H; [reflexivity|]. cbn [dict_lookup].
  destruct (String.eqb k0 k) eqn:E.
  - apply String.eqb_eq in E. subst. exfalso. apply H. left. reflexivity.
  - apply IH. intros H'. apply H. right. exact H'.
Qed.

Lemma dict_lookup_fold_del {V} ks (d : list (string * V)) k : NoDup (map fst d) ->
  dict_lookup k (fold_left (fun d key => dict_del key d) ks d)
  = if existsb (String.eqb k) ks then None else dict_lookup k d.
Proof.
  revert d. induction ks as [|k' ks IH]; intros d Hd; [reflexivity|]. cbn [fold_left existsb].
  rewrite (IH _ (dict_del_nodup k' d Hd)), (dict_lookup_del k k' d Hd).
  rewrite (String.eqb_sym k k'). destruct (String.eqb k' k); [|reflexivity].
  destruct (existsb (String.eqb k) ks); reflexivity.
Qed.

Lemma dict_lookup_set_other {V} k k' v (d : list (string * V)) :
  k <> k' -> dict_lookup k (dict_set k' v d) = dict_lookup k d.
Proof.
  intros Hk. apply String.eqb_neq in Hk. rewrite String.eqb_sym in Hk.
  induction d as [|[k0 v0] d IH]; cbn [dict_set dict_lookup]; [rewrite Hk; reflexivity|].
  destruct (String.eqb k0 k') eqn:E; cbn [dict_lookup].
  - apply String.eqb_eq in E. subst k0. rewrite Hk. reflexivity.
  - rewrite IH. reflexivity.
Qed.

Lemma dict_set_keys {V} k v (d : list (string * V)) :
  map fst (dict_set k v d) = if existsb (String.eqb k) (map fst d) then map fst d else map fst d ++ [k].
Proof.
  induction d as [|[k0 v0] d IH]; [reflexivity|]. cbn [dict_set map fst existsb].
  rewrite (String.eqb_sym k k0). destruct (String.eqb k0 k) eqn:E; cbn [orb map fst].
  - apply String.eqb_eq in E. subst. reflexivity.
  - rewrite IH. destruct (existsb (String.eqb k) (map fst d)); reflexivity.
Qed.

Lemma dict_set_nodup {V} k v (d : list (string * V)) : NoDup (map fst d) -> NoDup (map fst (dict_set k v d)).
Proof.
  intros Hd. rewrite dict_set_keys. destruct (existsb (String.eqb k) (map fst d)) eqn:E; [exact Hd|].
  apply NoDup_app; [exact Hd|repeat constructor; intros []|].
  intros x Hx [Hkx|[]]. assert (Hk : existsb (String.eqb k) (map fst d) = true).
  { apply existsb_exists. exists x. split; [exact Hx|]. rewrite Hkx. apply String.eqb_refl. }
  rewrite Hk in E. discriminate.
Qed.

Local Open Scope Q_scope.

(** Extra: reading a key just written by [cache_sessions] at time [t0]:
    before 60 seconds have passed it returns the data and leaves the
    cache as it is; from 60 seconds on it returns nothing and deletes
    that entry, keeping every other key. *)
Theorem cache_sessions_then_get {D} t0 now key (data : D) (c : Cache D) :
  NoDup (map fst c) ->
  let c1 := cache_sessions t0 key data c in
  (now - t0 < 60 -> get_cached_sessions now key c1 = (Some data, c1))
  /\ (60 <= now - t0 ->
      fst (get_cached_sessions now key c1) = None
      /\ dict_lookup key (snd (get_cached_sessions now key c1)) = None
      /\ forall k, k <> key -> dict_lookup k (snd (get_cached_sessions now key c1)) = dict_lookup k c).
Proof.
  intros Hc c1.
  assert (E : get_cached_sessions now key c1
              = if q_lt (now - t0) _sessions_cache_ttl then (Some data, c1) else (None, dict_del key c1)).
  { unfold get_cached_sessions. unfold c1 at 1, cache_sessions. rewrite dict_lookup_set_same. reflexivity. }
  rewrite E. split.
  - intros Hlt. unfold _sessions_cache_ttl. apply q_lt_spec in Hlt. rewrite Hlt. reflexivity.
  - intros Hge. unfold _sessions_cache_ttl.
    destruct (q_lt (now - t0) 60) eqn:Hq.
    { apply q_lt_spec in Hq. exfalso. exact (Qle_not_lt _ _ Hge Hq). }
    cbn [fst snd]. assert (Hc1 : NoDup (map fst c1)) by apply dict_set_nodup, Hc.
    split; [reflexivity|]. split.
    + rewrite (dict_lookup_del key key c1 Hc1), String.eqb_refl. reflexivity.
    + intros k Hk. rewrite (dict_lookup_del k key c1 Hc1).
      rewrite (proj2 (String.eqb_neq key k)) by congruence.
      apply dict_lookup_set_other, Hk.
Qed.

Local Close Scope Q_scope.

Lemma cache_sessions_then_get_witness :
  get_cached_sessions (1030 # 1) "sessions:u1:1:10" (cache_sessions (1000 # 1) "sessions:u1:1:10" 7%nat [])
  = (Some 7%nat, cache_sessions (1000 # 1) "sessions:u1:1:10" 7%nat [])
  /\ fst (get_cached_sessions (1060 # 1) "sessions:u1:1:10" (cache_sessions (1000 # 1) "sessions:u1:1:10" 7%nat []))
     = None.
Proof.
  split.
  - apply (proj1 (cache_sessions_then_get (1000 # 1) (1030 # 1) "sessions:u1:1:10" 7%nat [] (NoDup_nil _))).
    vm_compute. reflexivity.
  - apply (proj2 (cache_sessions_then_get (1000 # 1) (1060 # 1) "sessions:u1:1:10" 7%nat [] (NoDup_nil _))).
    vm_compute. discriminate.
Defined.

Lemma str_app a b : str (a ++ b) = str a ++ str b.
Proof. induction a as [|c a IH]; [reflexivity|]. cbn. f_equal. exact IH. Qed.

Lemma starts_with_self p r : starts_with p (p ++ r) = true.
Proof. induction p as [|c p IH]; [reflexivity|]. cbn. rewrite Ascii.eqb_refl. exact IH. Qed.

Lemma contains_self p r : contains p (p ++ r) = true.
Proof.
  assert (H : starts_with p (p ++ r) = true) by apply starts_with_self.
  revert H. generalize (p ++ r). intros s H. destruct s; cbn [contains]; rewrite H; reflexivity.
Qed.

Lemma existsb_eqb_filter (P : string -> bool) k l :
  existsb (String.eqb k) (filter P l) = P k && existsb (String.eqb k) l.
Proof.
  induction l as [|x l IH]; [destruct (P k); reflexivity|]. cbn [filter existsb].
  destruct (String.eqb k x) eqn:E.
  - apply String.eqb_eq in E. subst x. destruct (P k); cbn [existsb]; rewrite ?String.eqb_refl;
      [reflexivity|rewrite IH; reflexivity].
  - destruct (P x); cbn [existsb]; rewrite ?E, IH; destruct (P k); reflexivity.
Qed.

Lemma clear_sessions_cache_lookup {D} u (c : Cache D) k :
  u <> ""%string -> NoDup (map fst c) ->
  dict_lookup k (clear_sessions_cache (Some u) c)
  = if contains (str ("sessions:" ++ u ++ ":")) (str k) then None else dict_lookup k c.
Proof.
  intros Hu Hc. unfold clear_sessions_cache. rewrite (proj2 (String.eqb_neq u "") Hu).
  cbv zeta. rewrite (dict_lookup_fold_del _ _ _ Hc), existsb_eqb_filter.
  destruct (contains (str ("sessions:" ++ u ++ ":")) (str k)); [|reflexivity].
  destruct (existsb (String.eqb k) (map fst c)) eqn:E; [reflexivity|].
  cbn [andb]. apply dict_lookup_none. intros Hin.
  assert (E' : existsb (String.eqb k) (map fst c) = true).
  { apply existsb_exists. exists k. split; [exact Hin|apply String.eqb_refl]. }
  rewrite E' in E. discriminate.
Qed.

(** Extra: [clear_sessions_cache(user_id)] for a non-empty [user_id]
    removes exactly the entries whose key contains
    [sessions:{user_id}:], in particular every cached page of that
    user's session list, and keeps every other entry. *)
Theorem clear_sessions_cache_user {D} u (c : Cache D) :
  u <> ""%string -> NoDup (map fst c) ->
  (forall k, dict_lookup k (clear_sessions_cache (Some u) c)
             = if contains (str ("sessions:" ++ u ++ ":")) (str k) then None else dict_lookup k c)
  /\ (forall page pagination,
        dict_lookup (generate_sessions_cache_key u page pagination) (clear_sessions_cache (Some u) c)
        = None).
Proof.
  intros Hu Hc.
  assert (H := fun k => clear_sessions_cache_lookup u c k Hu Hc).
  split; [exact H|]. intros page pagination. rewrite H.
  replace (str (generate_sessions_cache_key u page pagination))
    with (str ("sessions:" ++ u ++ ":") ++ str (show_Z page ++ ":" ++ show_Z pagination)).
  - rewrite contains_self. reflexivity.
  - unfold generate_sessions_cache_key. rewrite !str_app, <- !app_assoc. reflexivity.
Qed.

Lemma clear_sessions_cache_user_witness :
  let c := [("sessions:u1:1:10"%string, mkCacheEntry 1%nat 0%Q);
            ("sessions:u2:1:10"%string, mkCacheEntry 2%nat 0%Q);
            ("chat_detail:u1:s1"%string, mkCacheEntry 3%nat 0%Q)] in
  (forall k, dict_lookup k (clear_sessions_cache (Some "u1"%string) c)
             = if contains (str ("sessions:" ++ "u1" ++ ":")) (str k) then None else dict_lookup k c)
  /\ (forall page pagination,
        dict_lookup (generate_sessions_cache_key "u1" page pagination)
          (clear_sessions_cache (Some "u1"%string) c) = None).
Proof.
  intros c. apply clear_sessions_cache_user.
  - discriminate.
  - vm_compute. repeat constructor; vm_compute; intuition discriminate.
Defined.

(** *** Reading and deleting sessions *)

(** [s.lower()] on ASCII. *)
Definition lower (s : string) : list ascii :=
  map (fun c => let n := nat_of_ascii c in
                if (65 <=? n) && (n <=? 90) then ascii_of_nat (n + 32) else c) (str s).

(** [.order("created_at")]: a stable insertion sort on [created_at]. *)
Fixpoint insert_by_created_at (m : MessageRow) (l : list MessageRow) : list MessageRow :=
  match l with
  | [] => [m]
  | m' :: l' => if (mr_created_at m' <=? mr_created_at m)%Z then m' :: insert_by_created_at m l'
                else m :: l
  end.

Definition order_created_at (l : list MessageRow) : list MessageRow :=
  fold_right insert_by_created_at [] (rev l).

(** [supabase.table("chat_messages").select(...).eq("session_id", s).order("created_at")] *)
Definition session_messages (session_id : string) (db : DB) : list MessageRow :=
  order_created_at (filter (fun m => String.eqb (mr_session_id m) session_id) (db_messages db)).

Definition get_chat_detail (session_id user_id : string) (db : DB) : SessExc + ChatDetail :=
  match filter (fun r => String.eqb (sr_id r) session_id) (db_sessions db) with
  | [] => inl (ValueError "Chat session not found")
  | session_info :: _ =>
      if negb (String.eqb (sr_user_id session_info) user_id) then
        inl (ValueError "You can only view your own chat sessions")
      else
        let messages := session_messages session_id db in
        inr (mkChatDetail session_id (sr_title session_info) (sr_created_at session_info) user_id
               messages (Z.of_nat (length messages)))
  end.

(** [_get_chat_detail_fallback]: the first session row with that id and
    owner (its message count is read but not used by the caller). *)
Definition _get_chat_detail_fallback (session_id user_id : string) (db : DB)
  : option (string * Z) :=
  match filter (fun r => String.eqb (sr_id r) session_id && String.eqb (sr_user_id r) user_id)
               (db_sessions db) with
  | [] => None
  | session_info :: _ => Some (sr_title session_info, sr_created_at session_info)
  end.

(** [get_chat_detail_optimized]; [rpc] is the outcome of the
    [get_chat_detail_optimized] database function: its rows' title and
    creation time, or the exception it raised. *)
Definition get_chat_detail_optimized (rpc : SessExc + list (string * Z))
  (session_id user_id : string) (db : DB) : SessExc + ChatDetail :=
  let session_data :=
    match rpc with
    | inr (row :: _) => Some row
    | _ => _get_chat_detail_fallback session_id user_id db
    end in
  match session_data with
  | None => inl (ValueError "Chat session not found or you don't have permission to view it")
  | Some (title, created_at) =>
      let messages := session_messages session_id db in
      inr (mkChatDetail session_id title created_at user_id messages (Z.of_nat (length messages)))
  end.

Definition get_session_info (session_id : string) (db : DB) : SessExc + SessionRow :=
  match filter (fun r => String.eqb (sr_id r) session_id) (db_sessions db) with
  | [] => inl (ValueError "Session not found")
  | session :: _ => inr session
  end.

Definition delete_chat_session_optimized (session_id user_id : string) (dx : DeleteExecs)
  (db : DB) : (SessExc + bool) * DB :=
  if blank session_id then (inl (ValueError "Session ID is required"), db)
  else if blank user_id then (inl (ValueError "User ID is required"), db)
  else
    let session_id := unstr (strip (str session_id)) in
    let user_id := unstr (strip (str user_id)) in
    match dx_check dx with
    | ExecRaises m => (inl (PlainException m), db)
    | ExecOk =>
        let session_check :=
          filter (fun r => String.eqb (sr_id r) session_id && String.eqb (sr_user_id r) user_id)
                 (db_sessions db) in
        match session_check with
        | [] => (inl (ValueError "Chat session not found or you don't have permission to delete it"), db)
        | _ =>
            (* the messages of the session, then the session *)
            match dx_messages dx with
            | ExecRaises m => (inl (PlainException m), db)
            | ExecOk =>
                let db := mkDB (db_sessions db)
                               (filter (fun m => negb (String.eqb (mr_session_id m) session_id))
                                       (db_messages db)) in
                match dx_session dx with
                | DelRaises m => (inl (PlainException m), db)
                (* [if not session_deleted.data: raise Exception(...)] *)
                | DelNone => (inl (PlainException "Failed to delete session"), db)
                | DelOk =>
                    let session_deleted :=
                      filter (fun r => String.eqb (sr_id r) session_id) (db_sessions db) in
                    let db := mkDB (filter (fun r => negb (String.eqb (sr_id r) session_id))
                                           (db_sessions db))
                                   (db_messages db) in
                    match session_deleted with
                    | [] => (inl (PlainException "Failed to delete session"), db)
                    | _ => (inr true, db)
                    end
                end
            end
        end
    end.

(** *** The application's route table *)

(** A path template segment: a literal, or a [{name}] parameter, which
    Starlette compiles to [(?P<name>[^/]+)]. *)
Inductive Seg := Lit (s : string) | Param (name : string).

Fixpoint split_slash_aux (cur : list ascii) (s : list ascii) : list string :=
  match s with
  | [] => [unstr (rev cur)]
  | c :: s' => if Ascii.eqb c "/"%char then unstr (rev cur) :: split_slash_aux [] s'
               else split_slash_aux (c :: cur) s'
  end.

(** The pieces of a path between its slashes. *)
Definition segments (path : string) : list string := split_slash_aux [] (str path).

Definition compile_segment (s : string) : Seg :=
  match str s with
  | "{"%char :: rest =>
      match rev rest with
      | "}"%char :: name => Param (unstr (rev name))
      | _ => Lit s
      end
  | _ => Lit s
  end.

Definition compile_path (template : string) : list Seg := map compile_segment (segments template).

(** The compiled path regex against the pieces of a request path; the
    path parameters on a match. *)
Fixpoint segs_match (pat : list Seg) (segs : list string) : option (list (string * string)) :=
  match pat, segs with
  | [], [] => Some []
  | Lit l :: pat', s :: segs' => if String.eqb l s then segs_match pat' segs' else None
  | Param n :: pat', s :: segs' =>
      if String.eqb s "" then None else option_map (cons (n, s)) (segs_match pat' segs')
  | _, _ => None
  end.

Record Route := mkRoute { rt_methods : list string; rt_path : string; rt_endpoint : string }.

(** [app.routes] in registration order: FastAPI's documentation routes,
    then [auth.router] and [chat.router] under the prefix [/api], then
    the two routes of [main.py]. *)
Definition app_routes : list Route :=
  [ mkRoute ["GET"; "HEAD"] "/openapi.json" "openapi";
    mkRoute ["GET"; "HEAD"] "/docs" "swagger_ui_html";
    mkRoute ["GET"; "HEAD"] "/docs/oauth2-redirect" "swagger_ui_redirect";
    mkRoute ["GET"; "HEAD"] "/redoc" "redoc_html";
    mkRoute ["POST"] "/api/auth/register" "register";
    mkRoute ["POST"] "/api/auth/login" "login";
    mkRoute ["GET"] "/api/auth/me" "get_user_profile";
    mkRoute ["GET"] "/api/auth/verify" "verify_token_validity";
    mkRoute ["POST"] "/api/auth/logout" "logout";
    mkRoute ["PUT"] "/api/auth/me" "update_user_profile";
    mkRoute ["GET"] "/api/chat/sessions" "get_chat_sessions";
    mkRoute ["DELETE"] "/api/chat/sessions/{session_id}" "delete_chat_session_endpoint";
    mkRoute ["DELETE"] "/api/chat/sessions/bulk" "bulk_delete_sessions";
    mkRoute ["POST"] "/api/chat/create_chat" "create_chat";
    mkRoute ["POST"] "/api/chat/chat" "chat";
    mkRoute ["GET"] "/api/chat/sessions/{session_id}/info" "get_session_info_endpoint";
    mkRoute ["GET"] "/api/chat/sessions/{session_id}/detail" "get_chat_detail_endpoint";
    mkRoute ["GET"] "/api/" "root";
    mkRoute ["GET"] "/api/health" "health_check" ]%string.

Inductive Match := NoMatch | Partial | Full (path_params : list (string * string)).

(** [Route.matches]: a path match with the method not allowed is partial. *)
Definition route_matches (method path : string) (r : Route) : Match :=
  match segs_match (compile_path (rt_path r)) (segments path) with
  | None => NoMatch
  | Some ps => if existsb (String.eqb method) (rt_methods r) then Full ps else Partial
  end.

Inductive Dispatch := Handled (endpoint : string) (path_params : list (string * string))
                    | MethodNotAllowed | NotHandled.

(** [Router.app]: the first full match handles the request; otherwise the
    first partial match answers 405; otherwise the request is not handled
    by any route (slash redirect or 404). *)
Fixpoint dispatch_aux (method path : string) (partial : bool) (rs : list Route) : Dispatch :=
  match rs with
  | [] => if partial then MethodNotAllowed else NotHandled
  | r :: rs' =>
      match route_matches method path r with
      | Full ps => Handled (rt_endpoint r) ps
      | Partial => dispatch_aux method path true rs'
      | NoMatch => dispatch_aux method path partial rs'
      end
  end.

Definition dispatch (method path : string) : Dispatch := dispatch_aux method path false app_routes.

Lemma segs_match_lit_param pre l n segs ps :
  l <> ""%string -> segs_match (pre ++ [Lit l]) segs = Some ps ->
  exists ps', segs_match (pre ++ [Param n]) segs = Some ps'.
Proof.
  revert segs ps. induction pre as [|[x|x] pre IH]; intros [|s segs] ps Hl H;
    cbn [app segs_match] in *; try discriminate.
  - destruct (String.eqb l s) eqn:E; [|discriminate]. apply String.eqb_eq in E. subst s.
    destruct segs; [|discriminate].
    destruct (String.eqb l "") eqn:E2; [apply String.eqb_eq in E2; congruence|].
    eexists; reflexivity.
  - destruct (String.eqb x s); [exact (IH _ _ Hl H)|discriminate].
  - destruct (String.eqb s ""); [discriminate|].
    destruct (segs_match (pre ++ [Lit l]) segs) eqn:E; [|discriminate].
    destruct (IH _ _ Hl E) as [ps' E']. rewrite E'. eexists; reflexivity.
Qed.

Lemma dispatch_aux_cons m p b r rs :
  dispatch_aux m p b (r :: rs)
  = match route_matches m p r with
    | Full ps => Handled (rt_endpoint r) ps
    | Partial => dispatch_aux m p true rs
    | NoMatch => dispatch_aux m p b rs
    end.
Proof. reflexivity. Qed.

Lemma dispatch_aux_skip (P : Dispatch -> Prop) m p b r rs :
  existsb (String.eqb m) (rt_methods r) = false ->
  (forall b', P (dispatch_aux m p b' rs)) -> P (dispatch_aux m p b (r :: rs)).
Proof.
  intros Hm HP. cbn [dispatch_aux]. unfold route_matches. rewrite Hm.
  destruct (segs_match _ _); apply HP.
Qed.

(** Extra: [DELETE /api/chat/sessions/{session_id}] is registered before
    [DELETE /api/chat/sessions/bulk] and its parameter matches [bulk], so
    no DELETE request ever reaches [bulk_delete_sessions]: a request to
    [/api/chat/sessions/bulk] is handled by
    [delete_chat_session_endpoint] with [session_id = "bulk"]. *)
Theorem bulk_delete_route_unreachable :
  (forall path ps, dispatch "DELETE" path <> Handled "bulk_delete_sessions" ps)%string
  /\ (dispatch "DELETE" "/api/chat/sessions/bulk"
      = Handled "delete_chat_session_endpoint" [("session_id", "bulk")])%string.
Proof.
  split; [|vm_compute; reflexivity].
  intros path ps. unfold dispatch, app_routes.
  do 11 (apply (dispatch_aux_skip (fun d => d <> Handled "bulk_delete_sessions"%string ps));
         [reflexivity|intros ?b]).
  rewrite dispatch_aux_cons. unfold route_matches at 1.
  set (pre := [Lit ""; Lit "api"; Lit "chat"; Lit "sessions"]%string).
  assert (Ed : (compile_path (rt_path (mkRoute ["DELETE"] "/api/chat/sessions/{session_id}"
                                             "delete_chat_session_endpoint"))
               = app pre [Param "session_id"])%string) by (vm_compute; reflexivity).
  assert (Eb : (compile_path (rt_path (mkRoute ["DELETE"] "/api/chat/sessions/bulk"
                                             "bulk_delete_sessions"))
               = app pre [Lit "bulk"])%string) by (vm_compute; reflexivity).
  rewrite Ed.
  destruct (segs_match (pre ++ [Param "session_id"%string]) (segments path)) eqn:E.
  - cbn [existsb rt_methods String.eqb]. cbv [orb]. intros H. inversion H.
  - rewrite dispatch_aux_cons. unfold route_matches at 1. rewrite Eb.
    destruct (segs_match (pre ++ [Lit "bulk"%string]) (segments path)) eqn:E'.
    + destruct (segs_match_lit_param pre "bulk"%string "session_id"%string _ _ ltac:(discriminate) E') as [ps' E''].
      congruence.
    + do 6 (apply (dispatch_aux_skip (fun d => d <> Handled "bulk_delete_sessions"%string ps));
            [reflexivity|intros ?b]).
      match goal with |- dispatch_aux _ _ ?b [] <> _ => destruct b end; cbn; discriminate.
Qed.

(** *** The session routes *)

(** What the body of a route raises before its [except] clauses. *)
Inductive Raised : Type :=
| RaisedHttp (status_code : Z) (detail : string)
| RaisedValue (msg : string)
| RaisedOther (msg : string).

(** [GET /chat/sessions/{session_id}/info]; [user_ids] are the ids of the
    [users] rows with the current user's email. *)
Definition get_session_info_endpoint (user_ids : list string) (session_id : string) (db : DB)
  : HttpResult SessionRow :=
  let body : Raised + SessionRow :=
    match user_ids with
    | [] => inl (RaisedHttp 401 "User not found")
    | user_id :: _ =>
        match get_session_info session_id db with
        | inl (ValueError m) => inl (RaisedValue m)
        | inl (PlainException m) => inl (RaisedOther m)
        | inr session_info =>
            if negb (String.eqb (sr_user_id session_info) user_id) then
              inl (RaisedHttp 403 "You can only view your own chat sessions")
            else inr session_info
        end
    end in
  match body with
  | inr session_info => HttpOk session_info
  | inl (RaisedValue m) =>
      if contains (str "not found") (lower m) then HttpError 404 "Chat session not found"
      else HttpError 400 m
  (* [except Exception] also catches the [HTTPException]s raised above *)
  | inl _ => HttpError 500 "Failed to retrieve session info"
  end.

(** [DELETE /chat/sessions/{session_id}] for the authenticated user
    [user_id]; the body is [message] and [session_id] (its [deleted_at]
    timestamp is left out); [dx] is what the database calls do. *)
Definition delete_chat_session_endpoint (user_id session_id : string) (dx : DeleteExecs)
  (st : RouteState)
  : HttpResult (string * string) * RouteState :=
  if blank session_id then (HttpError 400 "Session ID is required", st)
  else
    let session_id := unstr (strip (str session_id)) in
    match delete_chat_session_optimized session_id user_id dx (rs_db st) with
    | (inr success, db) =>
        let st := mkRouteState (rs_attempts st) (rs_cache st) db in
        if negb success then (HttpError 500 "Failed to delete session", st)
        else (HttpOk ("Chat session deleted successfully", session_id),
              mkRouteState (rs_attempts st) (clear_sessions_cache (Some user_id) (rs_cache st)) db)
    | (inl (ValueError m), db) =>
        let st := mkRouteState (rs_attempts st) (rs_cache st) db in
        let error_msg := lower m in
        if contains (str "not found") error_msg || contains (str "permission") error_msg then
          (HttpError 404 "Chat session not found or you don't have permission to delete it", st)
        else if contains (str "required") error_msg then (HttpError 400 m, st)
        else (HttpError 400 m, st)
    | (inl (PlainException _), db) =>
        (HttpError 500 "Failed to delete chat session. Please try again.",
         mkRouteState (rs_attempts st) (rs_cache st) db)
    end%string.

(** The [except ValueError] clause of [get_chat_detail_endpoint]. *)
Definition detail_value_error {A} (m : string) : HttpResult A :=
  let error_msg := lower m in
  if contains (str "not found") error_msg then HttpError 404 "Chat session not found"
  else if contains (str "only view your own") error_msg || contains (str "permission") error_msg then
    HttpError 403 "You can only view your own chat sessions"
  else HttpError 400 m.

(** [GET /chat/sessions/{session_id}/detail] for the authenticated user
    [user_id] at time [now]; [rpc] is the outcome of the database
    function; [verr] is the message of the validation error raised when
    a cached sessions list is read back as a [ChatDetailResponse]
    (pydantic's [ValidationError] is a [ValueError]). *)
Definition get_chat_detail_endpoint (now : Q) (rpc : SessExc + list (string * Z)) (verr : string)
  (user_id session_id : string) (st : RouteState) : HttpResult ChatDetail * RouteState :=
  if blank session_id then (HttpError 400 "Session ID is required", st)
  else
    let session_id := unstr (strip (str session_id)) in
    let cache_key := ("chat_detail:" ++ user_id ++ ":" ++ session_id)%string in
    let (cached_data, cache) := get_cached_sessions now cache_key (rs_cache st) in
    let st := mkRouteState (rs_attempts st) cache (rs_db st) in
    match cached_data with
    | Some (CachedDetail d) => (HttpOk d, st)
    | Some (CachedSessions _) => (detail_value_error verr, st)
    | None =>
        match get_chat_detail_optimized rpc session_id user_id (rs_db st) with
        | inr chat_detail =>
            (HttpOk chat_detail,
             mkRouteState (rs_attempts st)
               (cache_sessions now cache_key (CachedDetail chat_detail) (rs_cache st)) (rs_db st))
        | inl (ValueError m) => (detail_value_error m, st)
        | inl (PlainException _) => (HttpError 500 "Failed to retrieve chat detail", st)
        end
    end.

(** *** Properties of the session routes *)

(** Extra: [get_session_info_endpoint] never answers 401 or 403: the
    [HTTPException]s it raises for an unknown user and for a session of
    another user are caught by its [except Exception] clause and turned
    into a 500; a missing session gives 404. *)
Theorem get_session_info_endpoint_outcome user_ids session_id db :
  get_session_info_endpoint user_ids session_id db
  = match user_ids with
    | [] => HttpError 500 "Failed to retrieve session info"
    | user_id :: _ =>
        match get_session_info session_id db with
        | inl _ => HttpError 404 "Chat session not found"
        | inr info =>
            if String.eqb (sr_user_id info) user_id then HttpOk info
            else HttpError 500 "Failed to retrieve session info"
        end
    end.
Proof.
  destruct user_ids as [|user_id rest]; [reflexivity|].
  unfold get_session_info_endpoint, get_session_info.
  destruct (filter _ _) as [|r rs]; [reflexivity|].
  destruct (String.eqb (sr_user_id r) user_id); reflexivity.
Qed.

Lemma filter_nil_existsb {A} (f : A -> bool) l : filter f l = [] -> existsb f l = false.
Proof.
  induction l as [|x l IH]; [reflexivity|]. cbn [filter existsb].
  destruct (f x); [discriminate|exact IH].
Qed.

(** The user owns a session with the id. *)
Definition owns (sid uid : string) (db : DB) : bool :=
  existsb (fun r => String.eqb (sr_id r) sid && String.eqb (sr_user_id r) uid) (db_sessions db).

(** The database without the messages of the session. *)
Definition messages_removed (sid : string) (db : DB) : DB :=
  mkDB (db_sessions db) (filter (fun m => negb (String.eqb (mr_session_id m) sid)) (db_messages db)).

(** The database without the session and its messages. *)
Definition session_removed (sid : string) (db : DB) : DB :=
  mkDB (filter (fun r => negb (String.eqb (sr_id r) sid)) (db_sessions db))
       (filter (fun m => negb (String.eqb (mr_session_id m) sid)) (db_messages db)).

Lemma delete_chat_session_optimized_eq session_id user_id dx db :
  let sid := unstr (strip (str session_id)) in
  let uid := unstr (strip (str user_id)) in
  delete_chat_session_optimized session_id user_id dx db
  = if blank session_id then (inl (ValueError "Session ID is required"), db)
    else if blank user_id then (inl (ValueError "User ID is required"), db)
    else
      match dx_check dx with
      | ExecRaises m => (inl (PlainException m), db)
      | ExecOk =>
          if owns sid uid db then
            match dx_messages dx with
            | ExecRaises m => (inl (PlainException m), db)
            | ExecOk =>
                match dx_session dx with
                | DelOk => (inr true, session_removed sid db)
                | DelNone => (inl (PlainException "Failed to delete session"), messages_removed sid db)
                | DelRaises m => (inl (PlainException m), messages_removed sid db)
                end
            end
          else (inl (ValueError "Chat session not found or you don't have permission to delete it"), db)
      end.
Proof.
  intros sid uid. unfold delete_chat_session_optimized.
  destruct (blank session_id); [reflexivity|]. destruct (blank user_id); [reflexivity|].
  fold sid uid. destruct (dx_check dx) as [|m]; [|reflexivity].
  unfold owns.
  destruct (filter (fun r => String.eqb (sr_id r) sid && String.eqb (sr_user_id r) uid)
              (db_sessions db)) as [|r rs] eqn:F.
  - rewrite (filter_nil_existsb _ _ F). reflexivity.
  - assert (Hr : In r (filter (fun r => String.eqb (sr_id r) sid && String.eqb (sr_user_id r) uid)
                        (db_sessions db))) by (rewrite F; left; reflexivity).
    apply filter_In in Hr. destruct Hr as [Hr Hown].
    assert (E : existsb (fun r => String.eqb (sr_id r) sid && String.eqb (sr_user_id r) uid)
                  (db_sessions db) = true) by (apply existsb_exists; exists r; auto).
    rewrite E. destruct (dx_messages dx) as [|m]; [|reflexivity].
    destruct (dx_session dx) as [| |m]; [|reflexivity|reflexivity].
    cbn [db_sessions db_messages].
    destruct (filter (fun r => String.eqb (sr_id r) sid) (db_sessions db)) eqn:F2; [|reflexivity].
    exfalso. apply andb_prop in Hown. destruct Hown as [Hid _].
    assert (Hin : In r (filter (fun r => String.eqb (sr_id r) sid) (db_sessions db)))
      by (apply filter_In; auto).
    rewrite F2 in Hin. destruct Hin.
Qed.

(** Extra: [delete_chat_session_optimized] on every outcome of its
    database calls.  A blank session or user id raises [ValueError]
    first; a failing ownership check raises its error; when the user owns
    no session with the stripped id it raises [ValueError]; a failing
    message delete raises its error, with nothing written.  Otherwise the
    session's messages are removed, and then: a successful session delete
    removes every session with that id and returns [True]; a delete that
    removes nothing raises "Failed to delete session" and a failing one
    raises its error, and in both cases the session stays without its
    messages.  [False] is never returned. *)
Theorem delete_chat_session_optimized_outcome session_id user_id dx db :
  let sid := unstr (strip (str session_id)) in
  let uid := unstr (strip (str user_id)) in
  delete_chat_session_optimized session_id user_id dx db
  = if blank session_id then (inl (ValueError "Session ID is required"), db)
    else if blank user_id then (inl (ValueError "User ID is required"), db)
    else
      match dx_check dx with
      | ExecRaises m => (inl (PlainException m), db)
      | ExecOk =>
          if owns sid uid db then
            match dx_messages dx with
            | ExecRaises m => (inl (PlainException m), db)
            | ExecOk =>
                match dx_session dx with
                | DelOk => (inr true, session_removed sid db)
                | DelNone => (inl (PlainException "Failed to delete session"), messages_removed sid db)
                | DelRaises m => (inl (PlainException m), messages_removed sid db)
                end
            end
          else (inl (ValueError "Chat session not found or you don't have permission to delete it"), db)
      end.
Proof. exact (delete_chat_session_optimized_eq session_id user_id dx db). Qed.

Lemma get_cached_sessions_hit {D} now key (c : Cache D) e :
  dict_lookup key c = Some e -> (now - ce_timestamp e < _sessions_cache_ttl)%Q ->
  get_cached_sessions now key c = (Some (ce_data e), c).
Proof.
  intros He Ht. unfold get_cached_sessions. rewrite He.
  apply q_lt_spec in Ht. rewrite Ht. reflexivity.
Qed.

Lemma blank_empty : blank "" = true.
Proof. reflexivity. Qed.

Lemma session_messages_none sid db :
  (forall m, In m (db_messages db) -> mr_session_id m <> sid) -> session_messages sid db = [].
Proof.
  destruct db as [ss ms]. cbn [db_messages]. intros H. unfold session_messages. cbn [db_messages].
  replace (filter (fun m => String.eqb (mr_session_id m) sid) ms) with (@nil MessageRow);
    [reflexivity|].
  induction ms as [|m ms IH]; [reflexivity|]. cbn [filter].
  rewrite (proj2 (String.eqb_neq _ _) (H m (or_introl eq_refl))).
  apply IH. intros m' Hm'. apply H. right. exact Hm'.
Qed.

Lemma detail_value_error_not_ok {A} m (x : A) : detail_value_error m <> HttpOk x.
Proof.
  unfold detail_value_error. cbv zeta.
  destruct (contains _ _); [discriminate|]. destruct (_ || _); discriminate.
Qed.

Lemma get_chat_detail_optimized_id rpc sid uid db d :
  get_chat_detail_optimized rpc sid uid db = inr d -> cd_session_id d = sid.
Proof.
  unfold get_chat_detail_optimized. cbv zeta.
  destruct (match rpc with inr (row :: _) => Some row | _ => _get_chat_detail_fallback sid uid db end)
    as [[title created_at]|]; [|discriminate].
  intros H. injection H as <-. reflexivity.
Qed.

Lemma blank_stripped s : blank (unstr (strip (str s))) = blank s.
Proof. unfold blank. rewrite str_unstr, strip_idem. reflexivity. Qed.

Lemma delete_chat_session_endpoint_eq user_id session_id dx st :
  let sid := unstr (strip (str session_id)) in
  let uid := unstr (strip (str user_id)) in
  let st0 := mkRouteState (rs_attempts st) (rs_cache st) (rs_db st) in
  delete_chat_session_endpoint user_id session_id dx st
  = if blank session_id then (HttpError 400 "Session ID is required", st)
    else if blank user_id then (HttpError 400 "User ID is required", st0)
    else
      match dx_check dx with
      | ExecRaises _ => (HttpError 500 "Failed to delete chat session. Please try again.", st0)
      | ExecOk =>
          if owns sid uid (rs_db st) then
            match dx_messages dx with
            | ExecRaises _ => (HttpError 500 "Failed to delete chat session. Please try again.", st0)
            | ExecOk =>
                match dx_session dx with
                | DelOk =>
                    (HttpOk ("Chat session deleted successfully"%string, sid),
                     mkRouteState (rs_attempts st) (clear_sessions_cache (Some user_id) (rs_cache st))
                       (session_removed sid (rs_db st)))
                | _ =>
                    (HttpError 500 "Failed to delete chat session. Please try again.",
                     mkRouteState (rs_attempts st) (rs_cache st) (messages_removed sid (rs_db st)))
                end
            end
          else (HttpError 404 "Chat session not found or you don't have permission to delete it", st0)
      end.
Proof.
  intros sid uid st0. unfold delete_chat_session_endpoint.
  destruct (blank session_id) eqn:Bs; [reflexivity|]. cbv zeta. fold sid.
  pose proof (delete_chat_session_optimized_eq sid user_id dx (rs_db st)) as E. cbv zeta in E.
  assert (Hs : unstr (strip (str sid)) = sid) by (unfold sid; rewrite str_unstr, strip_idem; reflexivity).
  assert (Bsid : blank sid = false) by (unfold sid; rewrite blank_stripped; exact Bs).
  rewrite Hs, Bsid in E. rewrite E. fold uid.
  destruct (blank user_id); [reflexivity|].
  destruct (dx_check dx); [|reflexivity].
  destruct (owns sid uid (rs_db st)); [|reflexivity].
  destruct (dx_messages dx); [|reflexivity].
  destruct (dx_session dx); reflexivity.
Qed.

(** Extra: the cached chat detail outlives the deletion of its session.
    Deleting a session only clears the user's [sessions:{user_id}:] cache
    entries, so a detail fetched (and cached) at [now0] is served again,
    messages included, by a request within 60 seconds after a successful
    delete, although the session and its messages are gone from the
    database. *)
Theorem chat_detail_served_after_delete now0 now2 rpc rpc' verr verr' user_id session_id
  st0 d st1 dx m st2 :
  NoDup (map fst (rs_cache st0)) ->
  dict_lookup ("chat_detail:" ++ user_id ++ ":" ++ unstr (strip (str session_id)))%string
    (rs_cache st0) = None ->
  contains (str ("sessions:" ++ user_id ++ ":"))
           (str ("chat_detail:" ++ user_id ++ ":" ++ unstr (strip (str session_id)))) = false ->
  get_chat_detail_endpoint now0 rpc verr user_id session_id st0 = (HttpOk d, st1) ->
  delete_chat_session_endpoint user_id session_id dx st1 = (HttpOk m, st2) ->
  (now2 - now0 < 60)%Q ->
  fst (get_chat_detail_endpoint now2 rpc' verr' user_id session_id st2) = HttpOk d
  /\ (forall r, In r (db_sessions (rs_db st2)) -> sr_id r <> cd_session_id d)
  /\ session_messages (cd_session_id d) (rs_db st2) = [].
Proof.
  intros Hnd Hmiss Hcont H1 H2 Hnow.
  set (sid := unstr (strip (str session_id))) in *.
  set (key := ("chat_detail:" ++ user_id ++ ":" ++ sid)%string) in *.
  (* the first request misses the cache, reads the detail and caches it *)
  unfold get_chat_detail_endpoint in H1. destruct (blank session_id) eqn:B; [discriminate H1|].
  cbv zeta in H1. fold sid key in H1. unfold get_cached_sessions in H1. rewrite Hmiss in H1.
  cbv beta iota in H1. cbn [rs_db rs_cache rs_attempts] in H1. revert H1.
  destruct (get_chat_detail_optimized rpc sid user_id (rs_db st0)) as [[e|e]|d0] eqn:G;
    cbv beta iota; [intros H1; injection H1 as H1 _; exact (False_ind _ (detail_value_error_not_ok _ _ H1))
    |discriminate|].
  intros H1. injection H1 as <- <-. apply get_chat_detail_optimized_id in G.
  set (cache1 := cache_sessions now0 key (CachedDetail d0) (rs_cache st0)).
  (* the delete succeeds and clears the user's session lists *)
  rewrite delete_chat_session_endpoint_eq in H2. cbv zeta in H2. rewrite B in H2. fold sid in H2.
  destruct (blank user_id) eqn:Bu; [discriminate H2|].
  destruct (dx_check dx); [|discriminate H2].
  destruct (owns _ _ _); [|discriminate H2].
  destruct (dx_messages dx); [|discriminate H2].
  destruct (dx_session dx); [|discriminate H2|discriminate H2].
  injection H2 as _ <-. unfold session_removed.
  cbn [rs_attempts rs_cache rs_db db_sessions db_messages].
  assert (Hu : user_id <> ""%string) by (intros ->; rewrite blank_empty in Bu; discriminate Bu).
  assert (Hnd1 : NoDup (map fst cache1)) by (apply dict_set_nodup, Hnd).
  refine (conj _ (conj _ _)).
  - unfold get_chat_detail_endpoint. rewrite B. cbv zeta. fold sid key.
    cbn [rs_cache rs_attempts rs_db]. fold cache1.
    rewrite (get_cached_sessions_hit now2 key _ (mkCacheEntry (CachedDetail d0) now0)).
    + reflexivity.
    + assert (L : dict_lookup key (clear_sessions_cache (Some user_id) cache1)
                   = Some (mkCacheEntry (CachedDetail d0) now0)).
      { rewrite (clear_sessions_cache_lookup user_id cache1 key Hu Hnd1). fold key in Hcont.
        rewrite Hcont. apply dict_lookup_set_same. }
      exact L.
    + exact Hnow.
  - intros r Hr. apply filter_In in Hr. destruct Hr as [_ Hr]. rewrite G.
    apply negb_true_iff, String.eqb_neq in Hr. exact Hr.
  - rewrite G. apply session_messages_none. intros m' Hm'. cbn [db_messages] in Hm'.
    apply filter_In in Hm'. destruct Hm' as [_ Hm']. apply negb_true_iff, String.eqb_neq in Hm'.
    exact Hm'.
Qed.

Definition example_db : DB :=
  mkDB [mkSessionRow "s1" "u1" "Hello" 100]
       [mkMessageRow "m1" "s1" "user" "Hi" 101; mkMessageRow "m2" "s1" "assistant" "Hello!" 102]%string.

Definition example_state : RouteState := mkRouteState no_attempts [] example_db.

(** Every database call of a delete succeeds. *)
Definition delete_ok : DeleteExecs := mkDeleteExecs ExecOk ExecOk DelOk.

Definition example_detail : ChatDetail :=
  mkChatDetail "s1" "Hello" 100 "u1" (db_messages example_db) 2.

Lemma chat_detail_served_after_delete_witness :
  let st1 := snd (get_chat_detail_endpoint 0 (inl (PlainException "rpc")) "" "u1" "s1" example_state) in
  let st2 := snd (delete_chat_session_endpoint "u1" "s1" delete_ok st1) in
  fst (get_chat_detail_endpoint 30 (inl (PlainException "rpc")) "" "u1" "s1" st2) = HttpOk example_detail
  /\ (forall r, In r (db_sessions (rs_db st2)) -> sr_id r <> cd_session_id example_detail)
  /\ session_messages (cd_session_id example_detail) (rs_db st2) = [].
Proof.
  intros st1 st2.
  apply (chat_detail_served_after_delete 0 30 (inl (PlainException "rpc")) (inl (PlainException "rpc"))
           "" "" "u1" "s1" example_state example_detail st1 delete_ok
           ("Chat session deleted successfully", "s1")%string st2).
  - constructor.
  - reflexivity.
  - vm_compute. reflexivity.
  - reflexivity.
  - reflexivity.
  - reflexivity.
Defined.

(** *** Listing sessions *)

(** The dict [get_user_chat_sessions_optimized] returns from its
    [except] clause. *)
Definition default_sessions_page (page pagination : Z) : SessionsPage :=
  mkSessionsPage [] 0 page pagination 0 false false.

(** [get_user_chat_sessions_optimized]; [count] is the outcome of the
    exact count query ([response.count], possibly [None]), [fetched] the
    outcome of the session query (the RPC, or [_get_sessions_fallback]
    when the RPC fails or returns nothing). Python's [//] is [Z.div]; a
    zero divisor raises [ZeroDivisionError], caught like any exception. *)
Definition get_user_chat_sessions_optimized (count : SessExc + option Z)
  (fetched : SessExc + list SessionSummary) (page pagination : Z) : SessionsPage :=
  match count with
  | inl _ => default_sessions_page page pagination
  | inr c =>
      let total_sessions := match c with Some n => n | None => 0 end in
      match fetched with
      | inl _ => default_sessions_page page pagination
      | inr sessions =>
          if (0 <? total_sessions) && (pagination =? 0) then default_sessions_page page pagination
          else
            let total_pages :=
              if 0 <? total_sessions then (total_sessions + pagination - 1) / pagination else 0 in
            mkSessionsPage sessions total_sessions page pagination total_pages
              (page <? total_pages) (1 <? page)
      end
  end%Z.

(** The keys of the dicts stored in [_sessions_cache]. *)
Definition cache_data_keys (d : CacheData) : list string :=
  match d with
  | CachedSessions _ =>
      ["sessions"; "total_sessions"; "page"; "pagination"; "total_pages"; "has_next"; "has_prev"]
  | CachedDetail _ =>
      ["session_id"; "title"; "created_at"; "user_id"; "messages"; "total_messages"]
  end%string.

(** The required fields of [ChatSessionsListResponse] (models.py). *)
Definition ChatSessionsListResponse_fields : list string :=
  ["user_id"; "sessions"; "total_sessions"; "page"; "pagination"; "total_pages"; "has_next";
   "has_prev"]%string.

Definition missing_fields (fields keys : list string) : list string :=
  filter (fun f => negb (existsb (String.eqb f) keys)) fields.

(** [GET /chat/sessions?page=&pagination=] for the authenticated user
    [user_id] at time [now]; the response is the page (its [user_id] is
    the caller's). *)
Definition get_chat_sessions (now : Q) (count : SessExc + option Z)
  (fetched : SessExc + list SessionSummary) (user_id : string) (page pagination : Z)
  (st : RouteState) : HttpResult SessionsPage * RouteState :=
  let page := if (page <? 1)%Z then 1%Z else page in
  let pagination := if (pagination <? 1)%Z || (100 <? pagination)%Z then 10%Z else pagination in
  let cache_key := generate_sessions_cache_key user_id page pagination in
  let (cached_data, cache) := get_cached_sessions now cache_key (rs_cache st) in
  let st := mkRouteState (rs_attempts st) cache (rs_db st) in
  match cached_data with
  | Some data =>
      (* [ChatSessionsListResponse] built from the cached dict's items:
         pydantic raises a [ValidationError] for a missing required field *)
      match missing_fields ChatSessionsListResponse_fields (cache_data_keys data), data with
      | [], CachedSessions p => (HttpOk p, st)
      | _, _ => (HttpError 500 "Failed to retrieve chat sessions", st)
      end
  | None =>
      let result := get_user_chat_sessions_optimized count fetched page pagination in
      (HttpOk result,
       mkRouteState (rs_attempts st)
         (cache_sessions now cache_key (CachedSessions result) (rs_cache st)) (rs_db st))
  end.

Lemma get_chat_sessions_hit_fails now count fetched user_id page pagination st e :
  dict_lookup (generate_sessions_cache_key user_id (if (page <? 1)%Z then 1%Z else page)
                 (if (pagination <? 1)%Z || (100 <? pagination)%Z then 10%Z else pagination))
              (rs_cache st) = Some e ->
  (now - ce_timestamp e < 60)%Q ->
  fst (get_chat_sessions now count fetched user_id page pagination st)
  = HttpError 500 "Failed to retrieve chat sessions".
Proof.
  intros He Ht. unfold get_chat_sessions. cbv zeta.
  rewrite (get_cached_sessions_hit _ _ _ e He Ht). cbv beta iota.
  destruct (ce_data e); reflexivity.
Qed.

(** Extra: a cached sessions list is never served. The cached dict has no
    [user_id] key, so rebuilding a [ChatSessionsListResponse] from it
    fails and the route answers 500: after a successful
    [GET /chat/sessions], the same request by the same user within 60
    seconds fails. *)
Theorem get_chat_sessions_repeat_fails now0 now1 count fetched count' fetched' user_id page
  pagination st0 p st1 :
  get_chat_sessions now0 count fetched user_id page pagination st0 = (HttpOk p, st1) ->
  (now1 - now0 < 60)%Q ->
  fst (get_chat_sessions now1 count' fetched' user_id page pagination st1)
  = HttpError 500 "Failed to retrieve chat sessions".
Proof.
  intros H1 Hnow.
  set (key := generate_sessions_cache_key user_id (if (page <? 1)%Z then 1%Z else page)
                (if (pagination <? 1)%Z || (100 <? pagination)%Z then 10%Z else pagination)).
  set (result := get_user_chat_sessions_optimized count fetched
                   (if (page <? 1)%Z then 1%Z else page)
                   (if (pagination <? 1)%Z || (100 <? pagination)%Z then 10%Z else pagination)).
  assert (Hc : exists c, rs_cache st1 = cache_sessions now0 key (CachedSessions result) c).
  { revert H1. unfold get_chat_sessions. cbv zeta. fold key result. unfold get_cached_sessions.
    destruct (dict_lookup key (rs_cache st0)) as [e|].
    - destruct (q_lt _ _); cbv beta iota.
      + destruct (ce_data e); intros H1; apply pair_equal_spec in H1; destruct H1 as [H1 _];
          discriminate H1.
      + intros H1. apply pair_equal_spec in H1. destruct H1 as [_ <-]. eexists. reflexivity.
    - cbv beta iota. intros H1. apply pair_equal_spec in H1. destruct H1 as [_ <-].
      eexists. reflexivity. }
  destruct Hc as [c Hc].
  apply (get_chat_sessions_hit_fails _ _ _ _ _ _ _ (mkCacheEntry (CachedSessions result) now0)).
  - fold key. rewrite Hc. apply dict_lookup_set_same.
  - exact Hnow.
Qed.

Lemma get_chat_sessions_repeat_fails_witness :
  fst (get_chat_sessions 10 (inr (Some 3%Z)) (inr []) "u1" 1 10
         (snd (get_chat_sessions 0 (inr (Some 3%Z)) (inr []) "u1" 1 10 example_state)))
  = HttpError 500 "Failed to retrieve chat sessions".
Proof.
  apply (get_chat_sessions_repeat_fails 0 10 (inr (Some 3%Z)) (inr []) (inr (Some 3%Z)) (inr [])
           "u1" 1 10 example_state (get_user_chat_sessions_optimized (inr (Some 3%Z)) (inr []) 1 10)).
  - reflexivity.
  - reflexivity.
Defined.

(** Extra: with a positive page size, [get_user_chat_sessions_optimized]
    returns the fetched sessions and the count ([None] read as 0);
    [total_pages] is the ceiling of [total_sessions / pagination] when
    there are sessions and 0 otherwise; [has_next] is [page < total_pages]
    and [has_prev] is [page > 1]. *)
Theorem get_user_chat_sessions_optimized_pages c sessions page pagination :
  (0 < pagination)%Z ->
  let total := match c with Some n => n | None => 0%Z end in
  let r := get_user_chat_sessions_optimized (inr c) (inr sessions) page pagination in
  sp_sessions r = sessions /\ sp_total_sessions r = total
  /\ ((0 < total)%Z ->
      ((sp_total_pages r - 1) * pagination < total <= sp_total_pages r * pagination)%Z)
  /\ ((total <= 0)%Z -> sp_total_pages r = 0%Z)
  /\ sp_has_next r = (page <? sp_total_pages r)%Z /\ sp_has_prev r = (1 <? page)%Z.
Proof.
  intros Hp total r. unfold r, get_user_chat_sessions_optimized. cbv zeta. fold total.
  rewrite (proj2 (Z.eqb_neq pagination 0) ltac:(lia)), andb_false_r.
  destruct (0 <? total)%Z eqn:T; cbn [sp_sessions sp_total_sessions sp_total_pages sp_has_next sp_has_prev].
  - apply Z.ltb_lt in T. refine (conj eq_refl (conj eq_refl (conj _ (conj _ (conj eq_refl eq_refl))))).
    + intros _. pose proof (Z.div_mod (total + pagination - 1) pagination ltac:(lia)) as D.
      pose proof (Z.mod_pos_bound (total + pagination - 1) pagination Hp) as M.
      set (q := ((total + pagination - 1) / pagination)%Z) in *.
      set (m := ((total + pagination - 1) mod pagination)%Z) in *. nia.
    + intros. lia.
  - apply Z.ltb_ge in T. refine (conj eq_refl (conj eq_refl (conj _ (conj _ (conj eq_refl eq_refl))))).
    + intros. lia.
    + intros. reflexivity.
Qed.

Lemma get_user_chat_sessions_optimized_pages_witness :
  let r := get_user_chat_sessions_optimized (inr (Some 21%Z)) (inr []) 3 10 in
  sp_sessions r = [] /\ sp_total_sessions r = 21%Z
  /\ ((0 < 21)%Z -> ((sp_total_pages r - 1) * 10 < 21 <= sp_total_pages r * 10)%Z)
  /\ ((21 <= 0)%Z -> sp_total_pages r = 0%Z)
  /\ sp_has_next r = (3 <? sp_total_pages r)%Z /\ sp_has_prev r = (1 <? 3)%Z.
Proof. apply (get_user_chat_sessions_optimized_pages (Some 21%Z) [] 3 10). lia. Defined.

(** Extra: [get_user_chat_sessions_optimized] never raises: when the
    count or the session query fails, or when the page size is 0 while
    the user has sessions (Python's [ZeroDivisionError]), it returns an
    empty page with [total_sessions = 0], [total_pages = 0] and no next
    or previous page. *)
Theorem get_user_chat_sessions_optimized_errors count fetched page pagination :
  (exists e, count = inl e) \/ (exists e, fetched = inl e)
  \/ (pagination = 0%Z /\ exists n sessions, count = inr (Some n) /\ fetched = inr sessions
                                           /\ (0 < n)%Z) ->
  get_user_chat_sessions_optimized count fetched page pagination
  = mkSessionsPage [] 0 page pagination 0 false false.
Proof.
  intros [[e ->]|[[e ->]|[-> [n [sessions [-> [-> Hn]]]]]]].
  - reflexivity.
  - unfold get_user_chat_sessions_optimized. destruct count; reflexivity.
  - unfold get_user_chat_sessions_optimized. cbv zeta.
    rewrite (proj2 (Z.ltb_lt 0 n) Hn). reflexivity.
Qed.

Lemma get_user_chat_sessions_optimized_errors_witness :
  get_user_chat_sessions_optimized (inr (Some 4%Z)) (inr []) 2 0
  = mkSessionsPage [] 0 2 0 0 false false.
Proof.
  apply get_user_chat_sessions_optimized_errors. right. right.
  split; [reflexivity|]. exists 4%Z, []. split; [reflexivity|]. split; [reflexivity|lia].
Defined.

(** *** Bulk deletion *)

(** [type(v).__name__] of a value decoded by [json.loads]: a number with
    a fraction or an exponent, or [NaN] and [Infinity], is a [float]. *)
Definition py_type_name (v : JValue) : string :=
  match v with
  | JNull => "NoneType"
  | JBool _ => "bool"
  | JNum lex =>
      if existsb (fun c => Ascii.eqb c "." || Ascii.eqb c "e" || Ascii.eqb c "E") (str lex)
         || String.eqb lex "NaN" || String.eqb lex "Infinity" || String.eqb lex "-Infinity"
      then "float" else "int"
  | JStr _ => "str"
  | JArr _ => "list"
  | JObj _ => "dict"
  end%string.

(** One pass of the loop of [bulk_delete_sessions]: the id is deleted
    ([inl]) or failed with its error ([inr]); [dx] is what the database
    calls of this pass do. *)
Definition bulk_delete_one (user_id : string) (session_id : JValue) (dx : DeleteExecs) (db : DB)
  : (JValue + (JValue * string)) * DB :=
  match session_id with
  | JStr s =>
      if blank s then (inr (session_id, "Invalid session ID"), db)
      else
        match delete_chat_session_optimized (unstr (strip (str s))) user_id dx db with
        | (inr success, db) =>
            if success then (inl session_id, db) else (inr (session_id, "Failed to delete"), db)
        | (inl (ValueError m), db) => (inr (session_id, m), db)
        | (inl (PlainException m), db) => (inr (session_id, m), db)
        end
  | _ =>
      if negb (j_truthy session_id) then (inr (session_id, "Invalid session ID"), db)
      (* [session_id.strip()] on a non-string raises [AttributeError] *)
      else (inr (session_id, "'" ++ py_type_name session_id ++ "' object has no attribute 'strip'"), db)
  end%string.

(** [dxs i] is what the database calls of the [i]-th pass do. *)
Fixpoint bulk_delete_loop (user_id : string) (session_ids : list JValue)
  (dxs : nat -> DeleteExecs) (db : DB) : list JValue * list (JValue * string) * DB :=
  match session_ids with
  | [] => ([], [], db)
  | session_id :: rest =>
      let (outcome, db) := bulk_delete_one user_id session_id (dxs 0) db in
      let '(deleted, failed, db) := bulk_delete_loop user_id rest (fun i => dxs (S i)) db in
      match outcome with
      | inl d => (d :: deleted, failed, db)
      | inr f => (deleted, f :: failed, db)
      end
  end.

(** The body of a bulk delete (its [deleted_at] timestamp left out). *)
Record BulkResult : Type := mkBulkResult {
  br_message : string;
  br_deleted_sessions : list JValue;
  br_failed_sessions : list (JValue * string);
  br_total_requested : Z
}.

(** [DELETE /chat/sessions/bulk] for the authenticated user [user_id]
    with the decoded request body [body]; [dxs i] is what the database
    calls of the [i]-th deletion do. *)
Definition bulk_delete_sessions (user_id : string) (body : JValue) (dxs : nat -> DeleteExecs)
  (st : RouteState)
  : HttpResult BulkResult * RouteState :=
  match body with
  | JObj _ =>
      let session_ids := match jget "session_ids" body with Some v => v | None => JArr [] end in
      match session_ids with
      | JArr ids =>
          if negb (j_truthy session_ids) then (HttpError 400 "session_ids array is required", st)
          else if Nat.ltb 50 (length ids) then (HttpError 400 "Cannot delete more than 50 sessions at once", st)
          else
            let '(deleted_sessions, failed_sessions, db) := bulk_delete_loop user_id ids dxs (rs_db st) in
            (HttpOk (mkBulkResult
                       ("Bulk delete completed: " ++ show_Z (Z.of_nat (length deleted_sessions))
                        ++ " sessions deleted")
                       deleted_sessions failed_sessions (Z.of_nat (length ids))),
             mkRouteState (rs_attempts st) (clear_sessions_cache (Some user_id) (rs_cache st)) db)
      | _ => (HttpError 400 "session_ids array is required", st)
      end
  (* [body.get] on a list, a string or a number raises, caught by [except Exception] *)
  | _ => (HttpError 500 "Failed to perform bulk delete operation", st)
  end%string.

Lemma bulk_delete_one_deleted user_id x dx db j db' :
  bulk_delete_one user_id x dx db = (inl j, db') -> j = x.
Proof.
  unfold bulk_delete_one.
  destruct x; try (destruct (negb (j_truthy _)); intros H; discriminate H).
  destruct (blank s); [intros H; discriminate H|].
  destruct (delete_chat_session_optimized _ _ _ _) as [[[m|m]|[|]] db3]; intros H; congruence.
Qed.

Lemma bulk_delete_one_failed user_id x dx db f db' :
  bulk_delete_one user_id x dx db = (inr f, db') -> fst f = x.
Proof.
  unfold bulk_delete_one.
  destruct x; try (destruct (negb (j_truthy _)); intros H; injection H as <- _; reflexivity).
  destruct (blank s); [intros H; injection H as <- _; reflexivity|].
  destruct (delete_chat_session_optimized _ _ _ _) as [[[m|m]|[|]] db3]; intros H;
    try discriminate H; injection H as <- _; reflexivity.
Qed.

Lemma bulk_delete_loop_counts user_id ids dxs db :
  match bulk_delete_loop user_id ids dxs db with
  | (deleted, failed, _) =>
      length deleted + length failed = length ids /\ incl deleted ids
      /\ Permutation (deleted ++ map fst failed) ids
  end.
Proof.
  revert dxs db. induction ids as [|x ids IH]; intros dxs db.
  { split; [reflexivity | split; [apply incl_refl | constructor]]. }
  cbn [bulk_delete_loop]. destruct (bulk_delete_one user_id x (dxs 0) db) as [o db1] eqn:E1.
  specialize (IH (fun i => dxs (S i)) db1).
  destruct (bulk_delete_loop user_id ids (fun i => dxs (S i)) db1) as [[deleted failed] db2].
  destruct IH as [IHn [IHi IHp]]. destruct o as [j|f]; cbn [length]; split; [lia| |lia|].
  - split.
    + apply incl_cons; [left; symmetry; exact (bulk_delete_one_deleted _ _ _ _ _ _ E1)|].
      apply incl_tl, IHi.
    + rewrite (bulk_delete_one_deleted _ _ _ _ _ _ E1). cbn [app]. apply perm_skip, IHp.
  - split.
    + apply incl_tl, IHi.
    + cbn [map]. rewrite (bulk_delete_one_failed _ _ _ _ _ _ E1).
      apply Permutation_sym. eapply perm_trans; [apply perm_skip, Permutation_sym, IHp|].
      apply Permutation_middle.
Qed.

(** Extra: a successful [bulk_delete_sessions] was given a non-empty
    [session_ids] list of at most 50 entries; whatever its database
    calls do, every entry ends up in exactly one of [deleted_sessions]
    and [failed_sessions] (together they are a rearrangement of the
    request's list), so their lengths add up to [total_requested], and
    the deleted entries are taken from the request. *)
Theorem bulk_delete_sessions_counts user_id body dxs st r st' :
  bulk_delete_sessions user_id body dxs st = (HttpOk r, st') ->
  exists ids, jget "session_ids" body = Some (JArr ids) /\ ids <> [] /\ length ids <= 50
  /\ length (br_deleted_sessions r) + length (br_failed_sessions r) = length ids
  /\ br_total_requested r = Z.of_nat (length ids)
  /\ incl (br_deleted_sessions r) ids
  /\ Permutation (br_deleted_sessions r ++ map fst (br_failed_sessions r)) ids.
Proof.
  unfold bulk_delete_sessions.
  destruct body as [| | | |xs|kvs]; try (intros H; discriminate H).
  destruct (jget "session_ids" (JObj kvs)) as [v|] eqn:J; [|intros H; discriminate H].
  destruct v as [| | | |ids|]; try (intros H; discriminate H).
  destruct (negb (j_truthy (JArr ids))) eqn:T; [intros H; discriminate H|].
  destruct (Nat.ltb 50 (length ids)) eqn:L; [intros H; discriminate H|].
  pose proof (bulk_delete_loop_counts user_id ids dxs (rs_db st)) as C.
  destruct (bulk_delete_loop user_id ids dxs (rs_db st)) as [[deleted failed] db].
  intros H. apply pair_equal_spec in H. destruct H as [H _]. injection H as <-.
  exists ids. destruct C as [Cn [Ci Cp]].
  refine (conj eq_refl (conj _ (conj _ (conj Cn (conj eq_refl (conj Ci Cp)))))).
  - intros ->. discriminate T.
  - apply Nat.ltb_ge, L.
Qed.

(** A bulk delete whose second deletion fails at the session delete. *)
Definition bulk_execs (i : nat) : DeleteExecs :=
  match i with
  | 1 => mkDeleteExecs ExecOk ExecOk (DelRaises "connection reset")
  | _ => delete_ok
  end.

Lemma bulk_delete_sessions_counts_witness :
  let body := JObj [("session_ids", JArr [JStr "s1"; JStr " "; JNum "7"; JStr "s9"])]%string in
  let r := match fst (bulk_delete_sessions "u1" body bulk_execs example_state) with
           | HttpOk r => r | HttpError _ _ => mkBulkResult "" [] [] 0 end in
  exists ids, jget "session_ids" body = Some (JArr ids) /\ ids <> [] /\ length ids <= 50
  /\ length (br_deleted_sessions r) + length (br_failed_sessions r) = length ids
  /\ br_total_requested r = Z.of_nat (length ids)
  /\ incl (br_deleted_sessions r) ids
  /\ Permutation (br_deleted_sessions r ++ map fst (br_failed_sessions r)) ids.
Proof.
  intros body r.
  apply (bulk_delete_sessions_counts "u1" body bulk_execs example_state _
           (snd (bulk_delete_sessions "u1" body bulk_execs example_state))).
  vm_compute. reflexivity.
Defined.

(** *** Further instances *)

Definition example_calls : list (string * Z) :=
  map (fun n => ("u1"%string, Z.of_nat n)) (seq 0 25).

Lemma rate_limit_at_most_20_per_hour_witness :
  window_count "u1" 24 (fst (limiter_run no_attempts example_calls)) <= 20.
Proof. apply (rate_limit_at_most_20_per_hour example_calls "u1" 24). vm_compute. reflexivity. Defined.

Lemma create_session_optimized_title_witness :
  exists row,
    create_session_optimized "s2" 200 "u1" (Some "  x  "%string) InsOk example_db
      = (inr row, mkDB (db_sessions example_db ++ [row]) (db_messages example_db))
    /\ sr_id row = "s2"%string /\ sr_user_id row = "u1"%string /\ sr_created_at row = 200%Z
    /\ str (sr_title row) <> []
    /\ strip (str (sr_title row)) = str (sr_title row)
    /\ length (str (sr_title row)) <= 203
    /\ (strip (str "  x  ") = [] -> sr_title row = "New Chat"%string).
Proof.
  apply (create_session_optimized_title "s2" 200 "u1" (Some "  x  "%string) InsOk example_db).
  discriminate.
Defined.

(** *** Reading a chat *)

Definition created_at_le (a b : MessageRow) : Prop := (mr_created_at a <= mr_created_at b)%Z.

Lemma insert_by_created_at_sorted m l :
  Sorted created_at_le l -> Sorted created_at_le (insert_by_created_at m l).
Proof.
  induction l as [|x l IH]; intros H; cbn [insert_by_created_at]; [repeat constructor|].
  destruct (mr_created_at x <=? mr_created_at m)%Z eqn:E.
  - apply Z.leb_le in E. inversion H as [|? ? Hs Hhd]; subst. constructor; [apply IH, Hs|].
    destruct l as [|y l']; cbn [insert_by_created_at]; [constructor; exact E|].
    destruct (mr_created_at y <=? mr_created_at m)%Z; constructor;
      [inversion Hhd; assumption|exact E].
  - apply Z.leb_gt in E. constructor; [exact H|]. constructor. unfold created_at_le. lia.
Qed.

Lemma insert_by_created_at_perm m l : Permutation (insert_by_created_at m l) (m :: l).
Proof.
  induction l as [|x l IH]; cbn [insert_by_created_at]; [reflexivity|].
  destruct (mr_created_at x <=? mr_created_at m)%Z; [|reflexivity].
  rewrite IH. apply perm_swap.
Qed.

Lemma order_created_at_spec l :
  Sorted created_at_le (order_created_at l) /\ Permutation (order_created_at l) l.
Proof.
  unfold order_created_at. split.
  - induction (rev l) as [|x r IH]; cbn [fold_right]; [constructor|].
    apply insert_by_created_at_sorted, IH.
  - transitivity (rev l); [|symmetry; apply Permutation_rev].
    induction (rev l) as [|x r IH]; cbn [fold_right]; [reflexivity|].
    rewrite insert_by_created_at_perm, IH. reflexivity.
Qed.

(** Extra: [get_chat_detail] returns a detail only to the owner of the
    first session row with that id, with that row's title and creation
    time; its messages are exactly the session's messages, in
    non-decreasing [created_at] order, and [total_messages] is their
    number. *)
Theorem get_chat_detail_owner_messages session_id user_id db d :
  get_chat_detail session_id user_id db = inr d ->
  (exists r rs, filter (fun r => String.eqb (sr_id r) session_id) (db_sessions db) = r :: rs
                /\ sr_user_id r = user_id /\ cd_title d = sr_title r
                /\ cd_created_at d = sr_created_at r)
  /\ cd_session_id d = session_id /\ cd_user_id d = user_id
  /\ Sorted created_at_le (cd_messages d)
  /\ Permutation (cd_messages d)
       (filter (fun m => String.eqb (mr_session_id m) session_id) (db_messages db))
  /\ cd_total_messages d = Z.of_nat (length (cd_messages d)).
Proof.
  unfold get_chat_detail.
  destruct (filter (fun r => String.eqb (sr_id r) session_id) (db_sessions db)) as [|r rs] eqn:F;
    [intros H; discriminate H|].
  destruct (negb (String.eqb (sr_user_id r) user_id)) eqn:Eo; [intros H; discriminate H|].
  intros H. injection H as <-. apply negb_false_iff, String.eqb_eq in Eo.
  cbn [cd_session_id cd_user_id cd_title cd_created_at cd_messages cd_total_messages].
  destruct (order_created_at_spec (filter (fun m => String.eqb (mr_session_id m) session_id)
                                     (db_messages db))) as [Hs Hp].
  refine (conj _ (conj eq_refl (conj eq_refl (conj Hs (conj Hp eq_refl))))).
  exists r, rs. auto.
Qed.

Lemma get_chat_detail_owner_messages_witness :
  let d := match get_chat_detail "s1" "u1" example_db with inr d => d | inl _ => example_detail end in
  (exists r rs, filter (fun r => String.eqb (sr_id r) "s1") (db_sessions example_db) = r :: rs
                /\ sr_user_id r = "u1"%string /\ cd_title d = sr_title r
                /\ cd_created_at d = sr_created_at r)
  /\ cd_session_id d = "s1"%string /\ cd_user_id d = "u1"%string
  /\ Sorted created_at_le (cd_messages d)
  /\ Permutation (cd_messages d)
       (filter (fun m => String.eqb (mr_session_id m) "s1") (db_messages example_db))
  /\ cd_total_messages d = Z.of_nat (length (cd_messages d)).
Proof. intros d. apply (get_chat_detail_owner_messages "s1" "u1" example_db d). reflexivity. Defined.

Lemma filter_all_false {A} (f : A -> bool) l : (forall x, In x l -> f x = false) -> filter f l = [].
Proof.
  induction l as [|x l IH]; intros H; [reflexivity|]. cbn [filter].
  rewrite (H x (or_introl eq_refl)). apply IH. intros y Hy. apply H. right. exact Hy.
Qed.

(** Extra: when the [get_chat_detail_optimized] database function fails
    or returns no row, a user who owns no session with the requested id
    gets 404 "Chat session not found" from the detail route (not 403),
    and nothing is cached, provided the user has no cached detail under
    that id. *)
Theorem get_chat_detail_endpoint_non_owner now rpc verr user_id session_id st :
  (forall row rows, rpc <> inr (row :: rows)) ->
  blank session_id = false ->
  (forall r, In r (db_sessions (rs_db st)) -> sr_id r = unstr (strip (str session_id)) ->
             sr_user_id r <> user_id) ->
  dict_lookup ("chat_detail:" ++ user_id ++ ":" ++ unstr (strip (str session_id)))%string
    (rs_cache st) = None ->
  get_chat_detail_endpoint now rpc verr user_id session_id st
  = (HttpError 404 "Chat session not found", mkRouteState (rs_attempts st) (rs_cache st) (rs_db st)).
Proof.
  intros Hrpc Hb Hown Hc. unfold get_chat_detail_endpoint. rewrite Hb. cbv zeta.
  unfold get_cached_sessions. rewrite Hc. cbv beta iota. cbn [rs_db rs_cache rs_attempts].
  unfold get_chat_detail_optimized, _get_chat_detail_fallback.
  rewrite (filter_all_false _ (db_sessions (rs_db st))).
  - destruct rpc as [e|[|row rows]]; [reflexivity|reflexivity|].
    exfalso. exact (Hrpc row rows eq_refl).
  - intros r Hr. apply andb_false_iff.
    destruct (String.eqb (sr_id r) (unstr (strip (str session_id)))) eqn:Ei; [|left; reflexivity].
    right. apply String.eqb_neq. apply String.eqb_eq in Ei. exact (Hown r Hr Ei).
Qed.

Lemma get_chat_detail_endpoint_non_owner_witness :
  get_chat_detail_endpoint 0 (inr []) "" "u2" "s1" example_state
  = (HttpError 404 "Chat session not found",
     mkRouteState (rs_attempts example_state) (rs_cache example_state) (rs_db example_state)).
Proof.
  apply get_chat_detail_endpoint_non_owner.
  - intros row rows H. discriminate H.
  - reflexivity.
  - intros r [<-|[]] _. discriminate.
  - reflexivity.
Defined.

(** Extra: [DELETE /chat/sessions/{session_id}] on every outcome of its
    database calls.  It answers 400 for a blank session id or user id,
    and 404, changing nothing, when the user owns no session with the
    stripped id.  When every database call succeeds it removes the
    session and its messages and clears the user's cached session lists.
    A failing ownership check or message delete gives 500 "Failed to
    delete chat session. Please try again." with nothing written; a
    session delete that fails or removes nothing gives the same 500 after
    the session's messages were removed, and the cache is not cleared.
    Its own 500 "Failed to delete session" answer is never produced. *)
Theorem delete_chat_session_endpoint_outcome user_id session_id dx st :
  let sid := unstr (strip (str session_id)) in
  let uid := unstr (strip (str user_id)) in
  let st0 := mkRouteState (rs_attempts st) (rs_cache st) (rs_db st) in
  delete_chat_session_endpoint user_id session_id dx st
  = if blank session_id then (HttpError 400 "Session ID is required", st)
    else if blank user_id then (HttpError 400 "User ID is required", st0)
    else
      match dx_check dx with
      | ExecRaises _ => (HttpError 500 "Failed to delete chat session. Please try again.", st0)
      | ExecOk =>
          if owns sid uid (rs_db st) then
            match dx_messages dx with
            | ExecRaises _ => (HttpError 500 "Failed to delete chat session. Please try again.", st0)
            | ExecOk =>
                match dx_session dx with
                | DelOk =>
                    (HttpOk ("Chat session deleted successfully"%string, sid),
                     mkRouteState (rs_attempts st) (clear_sessions_cache (Some user_id) (rs_cache st))
                       (session_removed sid (rs_db st)))
                | _ =>
                    (HttpError 500 "Failed to delete chat session. Please try again.",
                     mkRouteState (rs_attempts st) (rs_cache st) (messages_removed sid (rs_db st)))
                end
            end
          else (HttpError 404 "Chat session not found or you don't have permission to delete it", st0)
      end.
Proof. exact (delete_chat_session_endpoint_eq user_id session_id dx st). Qed.
